(** * GCC decision-log analyzer: the parse pass and the decision classifier

    A shallow embedding of [GccDecisionAnalyzer] from
    [plot_gcc_decision_analysis_vertical.py]: the pattern registry, the
    single forward pass of [parse_log_file] over the lines of the log, and
    the data-only part of [plot_gcc_decision_metrics] (loss statistics and
    the numeric decision timeline).

    Text is modelled by its UTF-8 bytes ([string], one [ascii] per byte).
    The Unicode-aware classes of Python's [re] ([\d], [\w]), of
    [str.strip] and of [float] are taken on their ASCII range, which is
    exact for lines of ASCII text; a statement that depends on what a line
    matches or on what [float] reads is made for such lines.  [int] has
    the interpreter's limit on the number of digits.  A float read from
    text is modelled by the exact rational the text denotes, with NaN and
    the infinities kept apart and overflow to an infinity at the binary64
    bound; the float arithmetic of the time axes takes the rounding to
    binary64 as a parameter. *)

From stdpp Require Import gmap strings.
From Stdlib Require Import ZArith QArith Qround Ascii String DecimalString List Bool Lia.
Import ListNotations.

Local Open Scope Z_scope.
Local Open Scope string_scope.
Local Open Scope list_scope.

(** ** Characters and small string helpers *)

Definition code (a : ascii) : N := N_of_ascii a.

Definition is_digit (a : ascii) : bool :=
  ((48 <=? code a) && (code a <=? 57))%N.

Definition is_alpha (a : ascii) : bool :=
  (((65 <=? code a) && (code a <=? 90)) || ((97 <=? code a) && (code a <=? 122)))%N.

(** [\w] on the ASCII range: letters, digits and the underscore. *)
Definition is_word (a : ascii) : bool :=
  is_alpha a || is_digit a || (code a =? 95)%N.

(** [str.isspace] on the ASCII range: TAB, LF, VT, FF, CR, FS, GS, RS, US
    and the blank. *)
Definition is_space (a : ascii) : bool :=
  (((9 <=? code a) && (code a <=? 13)) || ((28 <=? code a) && (code a <=? 32)))%N.

Definition newline : ascii := ascii_of_N 10.
Definition carriage_return : ascii := ascii_of_N 13.

Fixpoint str_mem (a : ascii) (s : string) : bool :=
  match s with
  | EmptyString => false
  | String b s' => Ascii.eqb a b || str_mem a s'
  end.

Fixpoint str_forall (p : ascii -> bool) (s : string) : bool :=
  match s with
  | EmptyString => true
  | String a s' => p a && str_forall p s'
  end.

Fixpoint strip_prefix (p s : string) : option string :=
  match p with
  | EmptyString => Some s
  | String a p' =>
      match s with
      | String b s' => if Ascii.eqb a b then strip_prefix p' s' else None
      | EmptyString => None
      end
  end.

(** The part of [s] consumed when [rest] is what remains of it. *)
Definition consumed (s rest : string) : string :=
  substring 0 (String.length s - String.length rest) s.

(** ** Regular expressions: the fragment of Python's [re] the registry uses *)

Inductive cset :=
| CAny                    (* .     any character but the newline *)
| CDigit                  (* \d *)
| CWord                   (* \w *)
| CChar (a : ascii)       (* an ordinary or escaped character *)
| CNone (cs : string).    (* [^cs] any character not listed *)

Definition in_cset (c : cset) (a : ascii) : bool :=
  match c with
  | CAny => negb (Ascii.eqb a newline)
  | CDigit => is_digit a
  | CWord => is_word a
  | CChar b => Ascii.eqb a b
  | CNone cs => negb (str_mem a cs)
  end.

Inductive regex :=
| RLit (s : string)               (* a run of literal characters *)
| ROne (c : cset)                 (* one character of a class *)
| RPlus (c : cset)                (* c+   greedy, one or more *)
| RLazyStar (c : cset)            (* c*?  lazy, zero or more *)
| RGroup (n : nat) (r : regex)    (* ( r ) the n-th capture group *)
| RSeq (r1 r2 : regex)
| RAlt (r1 r2 : regex).

(** A sequence, nested to the right. *)
Fixpoint rseq (rs : list regex) : regex :=
  match rs with
  | [] => RLit ""
  | [r] => r
  | r :: rs' => RSeq r (rseq rs')
  end.

(** Captures: the most recent binding of a group comes first. *)
Definition captures := list (nat * string).

Fixpoint group (caps : captures) (n : nat) : option string :=
  match caps with
  | [] => None
  | (m, s) :: caps' => if Nat.eqb m n then Some s else group caps' n
  end.

Section Matcher.
Context {A : Type}.

(** [c*] greedy: take as many characters as possible, give back one at a
    time while the continuation fails. *)
Fixpoint star_greedy (c : cset) (s : string) (k : string -> option A) : option A :=
  match s with
  | String a s' =>
      if in_cset c a then
        match star_greedy c s' k with
        | Some x => Some x
        | None => k s
        end
      else k s
  | EmptyString => k s
  end.

(** [c*?] lazy: try the continuation first, take one more character while
    it fails. *)
Fixpoint star_lazy (c : cset) (s : string) (k : string -> option A) : option A :=
  match k s with
  | Some x => Some x
  | None =>
      match s with
      | String a s' => if in_cset c a then star_lazy c s' k else None
      | EmptyString => None
      end
  end.

(** Backtracking match of [r] at the head of [s], in continuation-passing
    style: [k] receives what is left of the input and the captures. *)
Fixpoint match_re (r : regex) (s : string) (caps : captures)
    (k : string -> captures -> option A) : option A :=
  match r with
  | RLit p =>
      match strip_prefix p s with
      | Some s' => k s' caps
      | None => None
      end
  | ROne c =>
      match s with
      | String a s' => if in_cset c a then k s' caps else None
      | EmptyString => None
      end
  | RPlus c =>
      match s with
      | String a s' =>
          if in_cset c a then star_greedy c s' (fun s'' => k s'' caps) else None
      | EmptyString => None
      end
  | RLazyStar c => star_lazy c s (fun s'' => k s'' caps)
  | RGroup n r' =>
      match_re r' s caps (fun s' caps' => k s' ((n, consumed s s') :: caps'))
  | RSeq r1 r2 =>
      match_re r1 s caps (fun s' caps' => match_re r2 s' caps' k)
  | RAlt r1 r2 =>
      match match_re r1 s caps k with
      | Some x => Some x
      | None => match_re r2 s caps k
      end
  end.
End Matcher.

(** A match object: the captures and the text after the match. *)
Definition match_at (r : regex) (s : string) : option (captures * string) :=
  match_re r s [] (fun rest caps => Some (caps, rest)).

(** [pattern.search(line)]: the leftmost start position at which the
    pattern matches. *)
Fixpoint search (r : regex) (s : string) : option (captures * string) :=
  match match_at r s with
  | Some m => Some m
  | None =>
      match s with
      | String _ s' => search r s'
      | EmptyString => None
      end
  end.

(** ** Reading a pattern from its source text

    [parse_regex] reads the pattern strings of the registry as Python
    writes them (raw strings, so a backslash is a backslash) and rejects
    every construct outside the fragment above. *)

Definition is_meta (a : ascii) : bool := str_mem a "*+?{}^$".

(** Glue an atom in front of a sequence, fusing adjacent literal runs. *)
Definition seq_cons (r rest : regex) : regex :=
  match r, rest with
  | _, RLit EmptyString => r
  | RLit a, RLit b => RLit (a +:+ b)
  | RLit a, RSeq (RLit b) r' => RSeq (RLit (a +:+ b)) r'
  | _, _ => RSeq r rest
  end.

(** The members of a negated class [[^...]], up to the closing bracket. *)
Fixpoint class_members (s : string) : option (string * string) :=
  match s with
  | EmptyString => None
  | String a s' =>
      if Ascii.eqb a "]" then Some (EmptyString, s')
      else if str_mem a "\-^[" then None
      else match class_members s' with
           | Some (cs, rest) => Some (String a cs, rest)
           | None => None
           end
  end.

(** A quantifier after a one-character atom. *)
Definition quantified (c : cset) (s : string) : option (regex * string) :=
  match s with
  | String "+" s' =>
      match s' with
      | String "?" _ | String "+" _ => None
      | _ => Some (RPlus c, s')
      end
  | String "*" (String "?" s') => Some (RLazyStar c, s')
  | String "*" _ | String "?" _ | String "{" _ => None
  | _ => Some (match c with CChar a => RLit (String a EmptyString) | _ => ROne c end, s)
  end.

Fixpoint parse_alt (fuel : nat) (s : string) (g : nat) {struct fuel}
    : option (regex * string * nat) :=
  match fuel with
  | O => None
  | S f =>
      match parse_seq f s g with
      | Some (r1, String "|" rest, g1) =>
          match parse_alt f rest g1 with
          | Some (r2, rest', g2) => Some (RAlt r1 r2, rest', g2)
          | None => None
          end
      | other => other
      end
  end
with parse_seq (fuel : nat) (s : string) (g : nat) {struct fuel}
    : option (regex * string * nat) :=
  match fuel with
  | O => None
  | S f =>
      let continue (atom : option (regex * string * nat)) :=
        match atom with
        | Some (r, rest, g') =>
            match parse_seq f rest g' with
            | Some (rs, rest', g'') => Some (seq_cons r rs, rest', g'')
            | None => None
            end
        | None => None
        end in
      let one (c : cset) (rest : string) :=
        match quantified c rest with
        | Some (r, rest') => Some (r, rest', g)
        | None => None
        end in
      match s with
      | EmptyString => Some (RLit "", s, g)
      | String a s' =>
          if str_mem a ")|" then Some (RLit "", s, g)
          else if Ascii.eqb a "(" then
            continue
              match parse_alt f s' (S g) with
              | Some (r, String ")" rest, g') =>
                  match rest with
                  | String q _ =>
                      if is_meta q then None else Some (RGroup (S g) r, rest, g')
                  | EmptyString => Some (RGroup (S g) r, rest, g')
                  end
              | _ => None
              end
          else if Ascii.eqb a "[" then
            continue
              match s' with
              | String "^" s'' =>
                  match class_members s'' with
                  | Some (cs, rest) => one (CNone cs) rest
                  | None => None
                  end
              | _ => None
              end
          else if Ascii.eqb a "\" then
            continue
              match s' with
              | String b rest =>
                  if Ascii.eqb b "d" then one CDigit rest
                  else if Ascii.eqb b "w" then one CWord rest
                  else if is_word b then None
                  else one (CChar b) rest
              | EmptyString => None
              end
          else if Ascii.eqb a "." then continue (one CAny s')
          else if is_meta a || Ascii.eqb a "]" then None
          else continue (one (CChar a) s')
      end
  end.

Definition parse_regex (s : string) : option regex :=
  match parse_alt (2 * String.length s + 2) s 0 with
  | Some (r, EmptyString, _) => Some r
  | _ => None
  end.

(** ** The pattern registry ([self.patterns]) *)

Definition digits : regex := RPlus CDigit.
Definition word : regex := RPlus CWord.

Module Patterns.
Definition decision : regex := rseq
  [ RLit "[GCC-DECISION-SNAPSHOT] at "; RGroup 1 digits;
    RLit "ms | DelayState: "; RGroup 2 word;
    RLit ", DelayTargetBps: "; RGroup 3 digits;
    RLit " | RttBackoff: "; RGroup 4 word;
    RLit " | ProbeResultBps: "; RGroup 5 digits;
    RLit " | BweTargetBps: "; RGroup 6 digits;
    RLit " | AckedBitrateBps: "; RGroup 7 digits;
    RLit " | FinalTargetBps: "; RGroup 8 digits;
    RLit " | DecisionReason: "; RGroup 9 word;
    RLit " | Updated: "; RGroup 10 word ].

Definition trendline : regex := rseq
  [ RLit "[Trendline] Time: "; RGroup 1 digits; RLit " ms"; RLazyStar CAny;
    RLit "Modified trend: "; RGroup 2 (RPlus (CNone ","));
    RLit ", Threshold: "; RGroup 3 (RPlus (CNone ","));
    RLit ", State: "; RGroup 4 word ].

Definition rtt_bwe : regex := rseq
  [ RLit "[RttBWE-Update] Time: "; RGroup 1 digits;
    RLit " ms, PropagationRtt: "; RGroup 2 digits;
    RLit " ms, CorrectedRtt: "; RGroup 3 digits;
    RLit " ms, RttLimit: "; RGroup 4 digits;
    RLit " ms, AboveLimit: "; RGroup 5 word ].

Definition loss_bwe : regex := rseq
  [ RLit "[LossBWE-Estimate] Time: "; RGroup 1 digits;
    RLit " ms, State: "; RGroup 2 digits;
    RLit ", Bandwidth: "; RGroup 3 digits;
    RLit " bps, Observations: "; RGroup 4 digits ].

Definition loss_candidates : regex := rseq
  [ RLit "[LossBWE-Candidates] Time: "; RGroup 1 digits;
    RLit " ms, Candidate Bandwidths (kbps): "; RGroup 2 (RPlus CAny) ].

Definition delay_bwe : regex := rseq
  [ RLit "[DelayBWE-Decision] Time: "; RGroup 1 digits; RLit " ms";
    RLazyStar CAny; RLit "New bitrate: "; RGroup 2 digits; RLit " bps";
    RLazyStar CAny; RLit "Probe: "; RGroup 3 word ].

Definition probe_result : regex := rseq
  [ RLit "[ProbeBWE-Result] Time: "; RGroup 1 digits;
    RLit " ms, Cluster ID: "; RGroup 2 digits;
    RLit ", Final estimate: "; RGroup 3 digits; RLit " bps" ].

Definition probe_success : regex := rseq
  [ RLit "[ProbeBWE-Success] Time: "; RGroup 1 digits;
    RLit " ms, Cluster ID: "; RGroup 2 digits;
    RLit ", Send rate: "; RGroup 3 digits; RLit " bps" ].

Definition probe_result_old : regex := rseq
  [ RLit "[ProbeBWE-Result] Cluster ID: "; RGroup 1 digits;
    RLit ", Final estimate: "; RGroup 2 digits; RLit " bps" ].

Definition probe_success_old : regex := rseq
  [ RLit "[ProbeBWE-Success] Cluster ID: "; RGroup 1 digits;
    RLit ", Send rate: "; RGroup 2 digits; RLit " bps" ].

Definition constraint_apply : regex := rseq
  [ RLit "[BWE-ConstraintApply] Time: "; RGroup 1 digits;
    RLit " ms, Original: "; RGroup 2 digits;
    RLit " bps, UpperLimit: "; RGroup 3 digits;
    RLit " bps, AfterUpper: "; RGroup 4 digits;
    RLit " bps, MinConfig: "; RGroup 5 digits;
    RLit " bps, Final: "; RGroup 6 digits;
    RLit " bps, DelayLimit: "; RGroup 7 digits;
    RLit " bps, ReceiverLimit: "; RGroup 8 digits;
    RLit " bps, MaxConfig: "; RGroup 9 digits; RLit " bps" ].

Definition delay_limit : regex := rseq
  [ RLit "[BWE-DelayLimit] Time: "; RGroup 1 digits;
    RLit " ms, OldLimit: "; RGroup 2 digits;
    RLit " bps, NewLimit: "; RGroup 3 digits;
    RLit " bps, CurrentTarget: "; RGroup 4 digits; RLit " bps" ].

Definition receiver_limit : regex := rseq
  [ RLit "[BWE-ReceiverLimit] Time: "; RGroup 1 digits;
    RLit " ms, OldLimit: "; RGroup 2 digits;
    RLit " bps, NewLimit: "; RGroup 3 digits;
    RLit " bps, CurrentTarget: "; RGroup 4 digits; RLit " bps" ].

Definition config_limit : regex := rseq
  [ RLit "[BWE-ConfigLimit] MinBitrate: "; RGroup 1 digits;
    RLit " -> "; RGroup 2 digits;
    RLit " bps, MaxBitrate: "; RGroup 3 digits;
    RLit " -> "; RGroup 4 digits;
    RLit " bps, CurrentTarget: "; RGroup 5 digits; RLit " bps" ].

Definition pushback : regex := rseq
  [ RLit "[BWE-CongestionWindowPushback] Time: "; RGroup 1 digits;
    RLit " ms, OriginalRate: "; RGroup 2 digits;
    RLit " bps, PushbackRate: "; RGroup 3 digits;
    RLit " bps, MinBitrate: "; RGroup 4 digits;
    RLit " bps, Reduction: "; RGroup 5 digits;
    RLit " bps, ReductionRatio: "; RGroup 6 (RPlus (CNone "%")); RLit "%" ].

(** The inline expression of [parse_log_file] that finds a timestamp on
    any line. *)
Definition timestamp : regex :=
  RAlt (rseq [ RLit "Time: "; RGroup 1 digits; RLit " ms" ])
       (rseq [ RLit "at "; RGroup 2 digits; RLit " ms" ]).
End Patterns.

(** ** Python values and built-ins used by the pass *)

Inductive exn :=
| ValueError
| OverflowError
| UnicodeDecodeError
| FileNotFoundError.

Inductive result (A : Type) :=
| Ok (a : A)
| Raise (e : exn).
Arguments Ok {A} a.
Arguments Raise {A} e.

Definition bind {A B : Type} (r : result A) (f : A -> result B) : result B :=
  match r with
  | Ok a => f a
  | Raise e => Raise e
  end.

Notation "'let!' x ':=' r 'in' k" := (bind r (fun x => k))
  (at level 10, x name, r at level 100, k at level 200).

(** The number that a run of decimal digits writes. *)
Fixpoint int_digits (acc : Z) (s : string) : Z :=
  match s with
  | EmptyString => acc
  | String a s' => int_digits (10 * acc + (Z.of_N (code a) - 48)) s'
  end.

Definition digits_value (s : string) : Z := int_digits 0 s.

(** [sys.get_int_max_str_digits()] as the interpreter starts: the most
    digits that [int] converts from decimal text. *)
Definition int_max_str_digits : nat := 4300.

(** [int(s)] on a capture of [(\d+)]: the value of the digits, or a
    [ValueError] when there are more of them than the interpreter converts
    (leading zeros count). *)
Definition int (s : string) : result Z :=
  if Nat.leb (String.length s) int_max_str_digits then Ok (digits_value s)
  else Raise ValueError.

Definition text (o : option string) : string :=
  match o with
  | Some s => s
  | None => ""
  end.

(** [m.group(n)] of a group that took part in the match. *)
Definition grp (m : captures) (n : nat) : string := text (group m n).

(** [a or b] on two optional strings: [a] when it is neither [None] nor
    empty. *)
Definition or_else (a b : option string) : option string :=
  match a with
  | Some (String _ _) => a
  | _ => b
  end.

(** Truth value of [last_timestamp]: [None] and [0] are both false. *)
Definition truthy (t : option Z) : bool :=
  match t with
  | Some z => negb (Z.eqb z 0)
  | None => false
  end.

Fixpoint lstrip_by (p : ascii -> bool) (s : string) : string :=
  match s with
  | String a s' => if p a then lstrip_by p s' else s
  | EmptyString => EmptyString
  end.

Fixpoint rstrip_by (p : ascii -> bool) (s : string) : string :=
  match s with
  | EmptyString => EmptyString
  | String a s' =>
      match rstrip_by p s' with
      | EmptyString => if p a then EmptyString else String a EmptyString
      | t => String a t
      end
  end.

(** [s.strip()] *)
Definition strip (s : string) : string := rstrip_by is_space (lstrip_by is_space s).

(** [s.rstrip(',')] *)
Definition rstrip_comma (s : string) : string := rstrip_by (Ascii.eqb ",") s.

(** [s.split(sep)] for a one-character separator: empty pieces are kept. *)
Fixpoint split (sep : ascii) (s : string) : list string :=
  match s with
  | EmptyString => [EmptyString]
  | String a s' =>
      if Ascii.eqb a sep then EmptyString :: split sep s'
      else match split sep s' with
           | piece :: pieces => String a piece :: pieces
           | [] => [String a EmptyString]
           end
  end.

(** *** Floats *)

Inductive pyfloat :=
| FNum (q : Q)            (* a finite value, in lowest terms, before rounding *)
| FInf (negative : bool)
| FNan.

Definition lower (a : ascii) : ascii :=
  if ((65 <=? code a) && (code a <=? 90))%N then ascii_of_N (code a + 32) else a.

Fixpoint lowercase (s : string) : string :=
  match s with
  | EmptyString => EmptyString
  | String a s' => String (lower a) (lowercase s')
  end.

(** A [digitpart] of the float grammar after its first digit: digits, each
    optionally preceded by one underscore.  Returns the digits and the
    rest of the text. *)
Fixpoint digit_run (s : string) : string * string :=
  match s with
  | String a s' =>
      if is_digit a then
        let '(ds, rest) := digit_run s' in (String a ds, rest)
      else if Ascii.eqb a "_" then
        match s' with
        | String b _ => if is_digit b then digit_run s' else (EmptyString, s)
        | EmptyString => (EmptyString, s)
        end
      else (EmptyString, s)
  | EmptyString => (EmptyString, EmptyString)
  end.

Definition digitpart (s : string) : option (string * string) :=
  match s with
  | String a _ => if is_digit a then Some (digit_run s) else None
  | EmptyString => None
  end.

Definition sign_of (s : string) : bool * string :=
  match s with
  | String "-" s' => (true, s')
  | String "+" s' => (false, s')
  | _ => (false, s)
  end.

(** [number ::= digitpart ["."] [digitpart] | "." digitpart]: the digits
    and the power of ten they are scaled by. *)
Definition number (s : string) : option (string * Z * string) :=
  match digitpart s with
  | Some (ip, String "." r) =>
      match digitpart r with
      | Some (fp, r') => Some (ip +:+ fp, - Z.of_nat (String.length fp), r')
      | None => Some (ip, 0, r)
      end
  | Some (ip, r) => Some (ip, 0, r)
  | None =>
      match s with
      | String "." r =>
          match digitpart r with
          | Some (fp, r') => Some (fp, - Z.of_nat (String.length fp), r')
          | None => None
          end
      | _ => None
      end
  end.

(** [exponent ::= ("e" | "E") [sign] digitpart], when present. *)
Definition exponent (s : string) : option (Z * string) :=
  match s with
  | String a r =>
      if Ascii.eqb (lower a) "e" then
        let '(neg, r') := sign_of r in
        match digitpart r' with
        | Some (ds, r'') => Some (if neg then - digits_value ds else digits_value ds, r'')
        | None => None
        end
      else Some (0, s)
  | EmptyString => Some (0, s)
  end.

Definition scale10 (m e : Z) : Q :=
  if Z.leb 0 e then Qmake (m * 10 ^ e) 1
  else Qred (Qmake m (Z.to_pos (10 ^ (- e)))).

(** The least magnitude that rounds to an infinity in binary64, half way
    between the largest finite value and [2 ^ 1024]. *)
Definition overflow_bound : Z := 2 ^ 1024 - 2 ^ 970.

Definition finite_or_inf (q : Q) : pyfloat :=
  if Qle_bool (inject_Z overflow_bound) (Qmake (Z.abs (Qnum q)) (Qden q))
  then FInf (Z.ltb (Qnum q) 0)
  else FNum q.

(** The blanks [float] skips around a number: TAB, LF, VT, FF, CR and the
    blank (the separators FS, GS, RS and US, which [str.strip] removes, are
    not among them). *)
Definition is_float_space (a : ascii) : bool :=
  (((9 <=? code a) && (code a <=? 13)) || (code a =? 32))%N.

(** [float(s)]; [None] stands for [ValueError]. *)
Definition float (s : string) : option pyfloat :=
  let '(neg, body) := sign_of (rstrip_by is_float_space (lstrip_by is_float_space s)) in
  let word := lowercase body in
  if String.eqb word "inf" || String.eqb word "infinity" then Some (FInf neg)
  else if String.eqb word "nan" then Some FNan
  else
    match number body with
    | Some (ds, e, r) =>
        match exponent r with
        | Some (x, EmptyString) =>
            let m := digits_value ds in
            Some (finite_or_inf (scale10 (if neg then - m else m) (e + x)))
        | _ => None
        end
    | None => None
    end.

(** [a > b] on floats: every comparison with NaN is false. *)
Definition float_gt (a b : pyfloat) : bool :=
  match a, b with
  | FNan, _ | _, FNan => false
  | FInf na, FInf nb => negb na && nb
  | FInf na, FNum _ => negb na
  | FNum _, FInf nb => nb
  | FNum x, FNum y => match Qcompare x y with Gt => true | _ => false end
  end.

(** [max(l)] on a non-empty list: the first element no later one exceeds. *)
Definition py_max (first : pyfloat) (others : list pyfloat) : pyfloat :=
  fold_left (fun m x => if float_gt x m then x else m) others first.

Definition float_mul_int (a : pyfloat) (n : Z) : pyfloat :=
  match a with
  | FNum q => finite_or_inf (Qred (q * inject_Z n))
  | FInf neg => if Z.eqb n 0 then FNan else FInf (if Z.ltb 0 n then neg else negb neg)
  | FNan => FNan
  end.

(** [int(x)] on a float: truncation toward zero. *)
Definition int_of_float (a : pyfloat) : result Z :=
  match a with
  | FNum q => Ok (Z.quot (Qnum q) (Zpos (Qden q)))
  | FInf _ => Raise OverflowError
  | FNan => Raise ValueError
  end.

(** ** The accumulated series *)

Module Trendline.
Record row := { timestamp : Z; modified_trend : pyfloat; threshold : pyfloat; state : string }.
End Trendline.

Module Rtt.
Record row := { timestamp : Z; corrected_rtt : Z; rtt_limit : Z; above_limit : bool }.
End Rtt.

Module Loss.
(** Estimates carry no ['candidates'] key; candidate records do. *)
Record row := { timestamp : Z; state : Z; bandwidth : Z; observations : Z;
                candidates : option (list pyfloat) }.
End Loss.

Module Probe.
Record row := { timestamp : Z; cluster_id : Z; estimate : Z; source : string }.
End Probe.

Module Decision.
Record row := { timestamp : Z; decision_reason : string }.
End Decision.

Module ConstraintApply.
Record row := { timestamp : Z; original : Z; upper_limit : Z; after_upper : Z;
                min_config : Z; final : Z; delay_limit : Z; receiver_limit : Z;
                max_config : Z }.
End ConstraintApply.

Module Limit.
Record row := { timestamp : Z; old_limit : Z; new_limit : Z; current_target : Z }.
End Limit.

Module Pushback.
Record row := { timestamp : Z; original_rate : Z; pushback_rate : Z; min_bitrate : Z;
                reduction : Z; reduction_ratio : pyfloat }.
End Pushback.

(** The local variables of one run of [parse_log_file]. *)
Record pass := {
  trendline_data : list Trendline.row;
  rtt_data : list Rtt.row;
  loss_data : list Loss.row;
  probe_data : list Probe.row;
  decision_data : list Decision.row;
  constraint_apply_data : list ConstraintApply.row;
  delay_limit_data : list Limit.row;
  receiver_limit_data : list Limit.row;
  config_limit_data : list (list Z);     (* declared, never appended to *)
  pushback_data : list Pushback.row;
  last_timestamp : option Z
}.

Definition fresh : pass :=
  {| trendline_data := []; rtt_data := []; loss_data := []; probe_data := [];
     decision_data := []; constraint_apply_data := []; delay_limit_data := [];
     receiver_limit_data := []; config_limit_data := []; pushback_data := [];
     last_timestamp := None |}.

Definition set_last_timestamp (t : option Z) (p : pass) : pass :=
  {| trendline_data := trendline_data p; rtt_data := rtt_data p;
     loss_data := loss_data p; probe_data := probe_data p;
     decision_data := decision_data p;
     constraint_apply_data := constraint_apply_data p;
     delay_limit_data := delay_limit_data p;
     receiver_limit_data := receiver_limit_data p;
     config_limit_data := config_limit_data p;
     pushback_data := pushback_data p; last_timestamp := t |}.

Definition append_trendline (r : Trendline.row) (p : pass) : pass :=
  {| trendline_data := trendline_data p ++ [r]; rtt_data := rtt_data p;
     loss_data := loss_data p; probe_data := probe_data p;
     decision_data := decision_data p;
     constraint_apply_data := constraint_apply_data p;
     delay_limit_data := delay_limit_data p;
     receiver_limit_data := receiver_limit_data p;
     config_limit_data := config_limit_data p;
     pushback_data := pushback_data p; last_timestamp := last_timestamp p |}.

Definition append_rtt (r : Rtt.row) (p : pass) : pass :=
  {| trendline_data := trendline_data p; rtt_data := rtt_data p ++ [r];
     loss_data := loss_data p; probe_data := probe_data p;
     decision_data := decision_data p;
     constraint_apply_data := constraint_apply_data p;
     delay_limit_data := delay_limit_data p;
     receiver_limit_data := receiver_limit_data p;
     config_limit_data := config_limit_data p;
     pushback_data := pushback_data p; last_timestamp := last_timestamp p |}.

Definition append_loss (r : Loss.row) (p : pass) : pass :=
  {| trendline_data := trendline_data p; rtt_data := rtt_data p;
     loss_data := loss_data p ++ [r]; probe_data := probe_data p;
     decision_data := decision_data p;
     constraint_apply_data := constraint_apply_data p;
     delay_limit_data := delay_limit_data p;
     receiver_limit_data := receiver_limit_data p;
     config_limit_data := config_limit_data p;
     pushback_data := pushback_data p; last_timestamp := last_timestamp p |}.

Definition append_probe (r : Probe.row) (p : pass) : pass :=
  {| trendline_data := trendline_data p; rtt_data := rtt_data p;
     loss_data := loss_data p; probe_data := probe_data p ++ [r];
     decision_data := decision_data p;
     constraint_apply_data := constraint_apply_data p;
     delay_limit_data := delay_limit_data p;
     receiver_limit_data := receiver_limit_data p;
     config_limit_data := config_limit_data p;
     pushback_data := pushback_data p; last_timestamp := last_timestamp p |}.

Definition append_decision (r : Decision.row) (p : pass) : pass :=
  {| trendline_data := trendline_data p; rtt_data := rtt_data p;
     loss_data := loss_data p; probe_data := probe_data p;
     decision_data := decision_data p ++ [r];
     constraint_apply_data := constraint_apply_data p;
     delay_limit_data := delay_limit_data p;
     receiver_limit_data := receiver_limit_data p;
     config_limit_data := config_limit_data p;
     pushback_data := pushback_data p; last_timestamp := last_timestamp p |}.

Definition append_constraint_apply (r : ConstraintApply.row) (p : pass) : pass :=
  {| trendline_data := trendline_data p; rtt_data := rtt_data p;
     loss_data := loss_data p; probe_data := probe_data p;
     decision_data := decision_data p;
     constraint_apply_data := constraint_apply_data p ++ [r];
     delay_limit_data := delay_limit_data p;
     receiver_limit_data := receiver_limit_data p;
     config_limit_data := config_limit_data p;
     pushback_data := pushback_data p; last_timestamp := last_timestamp p |}.

Definition append_delay_limit (r : Limit.row) (p : pass) : pass :=
  {| trendline_data := trendline_data p; rtt_data := rtt_data p;
     loss_data := loss_data p; probe_data := probe_data p;
     decision_data := decision_data p;
     constraint_apply_data := constraint_apply_data p;
     delay_limit_data := delay_limit_data p ++ [r];
     receiver_limit_data := receiver_limit_data p;
     config_limit_data := config_limit_data p;
     pushback_data := pushback_data p; last_timestamp := last_timestamp p |}.

Definition append_receiver_limit (r : Limit.row) (p : pass) : pass :=
  {| trendline_data := trendline_data p; rtt_data := rtt_data p;
     loss_data := loss_data p; probe_data := probe_data p;
     decision_data := decision_data p;
     constraint_apply_data := constraint_apply_data p;
     delay_limit_data := delay_limit_data p;
     receiver_limit_data := receiver_limit_data p ++ [r];
     config_limit_data := config_limit_data p;
     pushback_data := pushback_data p; last_timestamp := last_timestamp p |}.

Definition append_pushback (r : Pushback.row) (p : pass) : pass :=
  {| trendline_data := trendline_data p; rtt_data := rtt_data p;
     loss_data := loss_data p; probe_data := probe_data p;
     decision_data := decision_data p;
     constraint_apply_data := constraint_apply_data p;
     delay_limit_data := delay_limit_data p;
     receiver_limit_data := receiver_limit_data p;
     config_limit_data := config_limit_data p;
     pushback_data := pushback_data p ++ [r]; last_timestamp := last_timestamp p |}.

(** ** One iteration of the loop of [parse_log_file] *)

(** [try: v = e / except: v = d] around a float conversion. *)
Definition try_or (e : option pyfloat) (d : pyfloat) : pyfloat :=
  match e with
  | Some v => v
  | None => d
  end.

Definition nonempty (s : string) : bool :=
  match s with
  | EmptyString => false
  | String _ _ => true
  end.

Fixpoint floats (pieces : list string) : result (list pyfloat) :=
  match pieces with
  | [] => Ok []
  | x :: pieces' =>
      match float (rstrip_comma (strip x)) with
      | Some v => let! vs := floats pieces' in Ok (v :: vs)
      | None => Raise ValueError
      end
  end.

(** [[float(x.strip().rstrip(',')) for x in candidates_str.split(',')
      if x.strip().rstrip(',')]] *)
Definition parse_candidates (candidates_str : string) : result (list pyfloat) :=
  floats (filter (fun x => nonempty (rstrip_comma (strip x))) (split "," candidates_str)).

(** [int(max(candidates) * 1000) if candidates else 0] *)
Definition candidates_bandwidth (candidates : list pyfloat) : result Z :=
  match candidates with
  | c :: cs => int_of_float (float_mul_int (py_max c cs) 1000)
  | [] => Ok 0
  end.

(** The timestamp a line carries, if the inline expression finds one: the
    value of [timestamp_match.group(1) or timestamp_match.group(2)]. *)
Definition line_timestamp (line : string) : option Z :=
  match search Patterns.timestamp line with
  | Some (m, _) => Some (digits_value (text (or_else (group m 1) (group m 2))))
  | None => None
  end.

(** The run once the first statement of the loop body has completed: the
    timestamp of the line, if it has one, is the carried timestamp. *)
Definition observed (p : pass) (line : string) : pass :=
  match line_timestamp line with
  | Some t => set_last_timestamp (Some t) p
  | None => p
  end.

(** The first statement of the loop body: remember the timestamp of any
    line that has one,
    [last_timestamp = int(timestamp_match.group(1) or timestamp_match.group(2))]. *)
Definition observe_timestamp (p : pass) (line : string) : result pass :=
  match search Patterns.timestamp line with
  | Some (m, _) =>
      let! t := int (text (or_else (group m 1) (group m 2))) in
      Ok (set_last_timestamp (Some t) p)
  | None => Ok p
  end.

(** Each [if ...: ...; continue] block of the loop body is a branch: [None]
    when its condition is false and the next block is tried, otherwise the
    outcome of the block. *)
Definition branch := pass -> string -> option (result pass).

Definition on_trendline : branch := fun p line =>
  match search Patterns.trendline line with
  | Some (m, _) =>
      Some (let! timestamp := int (grp m 1) in
            let modified_trend := grp m 2 in
            let threshold := grp m 3 in
            let state := grp m 4 in
            (* Handle 'nan' values *)
            let modified_trend_val :=
              try_or (if negb (String.eqb modified_trend "nan") then float modified_trend
                      else Some (FNum 0)) (FNum 0) in
            let threshold_val := try_or (float threshold) (FNum 0) in
            Ok (append_trendline
                  {| Trendline.timestamp := timestamp;
                     Trendline.modified_trend := modified_trend_val;
                     Trendline.threshold := threshold_val;
                     Trendline.state := state |} p))
  | None => None
  end.

Definition on_rtt_bwe : branch := fun p line =>
  match search Patterns.rtt_bwe line with
  | Some (m, _) =>
      Some (let! timestamp := int (grp m 1) in
            let! corrected_rtt := int (grp m 3) in
            let! rtt_limit := int (grp m 4) in
            let above_limit := String.eqb (grp m 5) "true" in
            Ok (append_rtt
                  {| Rtt.timestamp := timestamp;
                     Rtt.corrected_rtt := corrected_rtt;
                     Rtt.rtt_limit := rtt_limit;
                     Rtt.above_limit := above_limit |} p))
  | None => None
  end.

Definition on_loss_bwe : branch := fun p line =>
  match search Patterns.loss_bwe line with
  | Some (m, _) =>
      Some (let! timestamp := int (grp m 1) in
            let! state := int (grp m 2) in
            let! bandwidth := int (grp m 3) in
            let! observations := int (grp m 4) in
            Ok (append_loss
                  {| Loss.timestamp := timestamp;
                     Loss.state := state;
                     Loss.bandwidth := bandwidth;
                     Loss.observations := observations;
                     Loss.candidates := None |} p))
  | None => None
  end.

Definition on_loss_candidates : branch := fun p line =>
  match search Patterns.loss_candidates line with
  | Some (m, _) =>
      Some (let! timestamp := int (grp m 1) in
            let candidates_str := grp m 2 in
            let! candidates := parse_candidates candidates_str in
            let! bandwidth := candidates_bandwidth candidates in
            Ok (append_loss
                  {| Loss.timestamp := timestamp;
                     Loss.state := -1;            (* Special marker for candidates *)
                     Loss.bandwidth := bandwidth;
                     Loss.observations := Z.of_nat (length candidates);
                     Loss.candidates := Some candidates |} p))
  | None => None
  end.

Definition on_probe_result : branch := fun p line =>
  match search Patterns.probe_result line with
  | Some (m, _) =>
      Some (let! timestamp := int (grp m 1) in
            let! cluster_id := int (grp m 2) in
            let! estimate := int (grp m 3) in
            Ok (append_probe
                  {| Probe.timestamp := timestamp;
                     Probe.cluster_id := cluster_id;
                     Probe.estimate := estimate;
                     Probe.source := "result" |} p))
  | None => None
  end.

Definition on_probe_success : branch := fun p line =>
  match search Patterns.probe_success line with
  | Some (m, _) =>
      Some (let! timestamp := int (grp m 1) in
            let! cluster_id := int (grp m 2) in
            let! estimate := int (grp m 3) in   (* Use send rate as estimate *)
            Ok (append_probe
                  {| Probe.timestamp := timestamp;
                     Probe.cluster_id := cluster_id;
                     Probe.estimate := estimate;
                     Probe.source := "success" |} p))
  | None => None
  end.

(** [if probe_result_old_match and last_timestamp:] *)
Definition on_probe_result_old : branch := fun p line =>
  match search Patterns.probe_result_old line, last_timestamp p with
  | Some (m, _), Some t =>
      if truthy (last_timestamp p) then
        Some (let! cluster_id := int (grp m 1) in
              let! estimate := int (grp m 2) in
              Ok (append_probe
                    {| Probe.timestamp := t;
                       Probe.cluster_id := cluster_id;
                       Probe.estimate := estimate;
                       Probe.source := "result_old" |} p))
      else None
  | _, _ => None
  end.

(** [if probe_success_old_match and last_timestamp:] *)
Definition on_probe_success_old : branch := fun p line =>
  match search Patterns.probe_success_old line, last_timestamp p with
  | Some (m, _), Some t =>
      if truthy (last_timestamp p) then
        Some (let! cluster_id := int (grp m 1) in
              let! estimate := int (grp m 2) in
              Ok (append_probe
                    {| Probe.timestamp := t;
                       Probe.cluster_id := cluster_id;
                       Probe.estimate := estimate;
                       Probe.source := "success_old" |} p))
      else None
  | _, _ => None
  end.

Definition on_decision : branch := fun p line =>
  match search Patterns.decision line with
  | Some (m, _) =>
      Some (let! timestamp := int (grp m 1) in
            let decision_reason := grp m 9 in
            Ok (append_decision
                  {| Decision.timestamp := timestamp;
                     Decision.decision_reason := decision_reason |} p))
  | None => None
  end.

Definition on_constraint_apply : branch := fun p line =>
  match search Patterns.constraint_apply line with
  | Some (m, _) =>
      Some (let! timestamp := int (grp m 1) in
            let! original := int (grp m 2) in
            let! upper_limit := int (grp m 3) in
            let! after_upper := int (grp m 4) in
            let! min_config := int (grp m 5) in
            let! final := int (grp m 6) in
            let! delay_limit := int (grp m 7) in
            let! receiver_limit := int (grp m 8) in
            let! max_config := int (grp m 9) in
            Ok (append_constraint_apply
                  {| ConstraintApply.timestamp := timestamp;
                     ConstraintApply.original := original;
                     ConstraintApply.upper_limit := upper_limit;
                     ConstraintApply.after_upper := after_upper;
                     ConstraintApply.min_config := min_config;
                     ConstraintApply.final := final;
                     ConstraintApply.delay_limit := delay_limit;
                     ConstraintApply.receiver_limit := receiver_limit;
                     ConstraintApply.max_config := max_config |} p))
  | None => None
  end.

Definition on_delay_limit : branch := fun p line =>
  match search Patterns.delay_limit line with
  | Some (m, _) =>
      Some (let! timestamp := int (grp m 1) in
            let! old_limit := int (grp m 2) in
            let! new_limit := int (grp m 3) in
            let! current_target := int (grp m 4) in
            Ok (append_delay_limit
                  {| Limit.timestamp := timestamp;
                     Limit.old_limit := old_limit;
                     Limit.new_limit := new_limit;
                     Limit.current_target := current_target |} p))
  | None => None
  end.

Definition on_receiver_limit : branch := fun p line =>
  match search Patterns.receiver_limit line with
  | Some (m, _) =>
      Some (let! timestamp := int (grp m 1) in
            let! old_limit := int (grp m 2) in
            let! new_limit := int (grp m 3) in
            let! current_target := int (grp m 4) in
            Ok (append_receiver_limit
                  {| Limit.timestamp := timestamp;
                     Limit.old_limit := old_limit;
                     Limit.new_limit := new_limit;
                     Limit.current_target := current_target |} p))
  | None => None
  end.

Definition on_pushback : branch := fun p line =>
  match search Patterns.pushback line with
  | Some (m, _) =>
      Some (let! timestamp := int (grp m 1) in
            let! original_rate := int (grp m 2) in
            let! pushback_rate := int (grp m 3) in
            let! min_bitrate := int (grp m 4) in
            let! reduction := int (grp m 5) in
            match float (grp m 6) with
            | Some reduction_ratio =>
                Ok (append_pushback
                      {| Pushback.timestamp := timestamp;
                         Pushback.original_rate := original_rate;
                         Pushback.pushback_rate := pushback_rate;
                         Pushback.min_bitrate := min_bitrate;
                         Pushback.reduction := reduction;
                         Pushback.reduction_ratio := reduction_ratio |} p)
            | None => Raise ValueError
            end)
  | None => None
  end.

(** The blocks in the order the loop body tries them. *)
Definition branches : list branch :=
  [ on_trendline; on_rtt_bwe; on_loss_bwe; on_loss_candidates;
    on_probe_result; on_probe_success; on_probe_result_old; on_probe_success_old;
    on_decision; on_constraint_apply; on_delay_limit; on_receiver_limit;
    on_pushback ].

(** The first block whose condition holds decides; a line no block takes
    leaves the collections as they are. *)
Fixpoint first_of (bs : list branch) (p : pass) (line : string) : result pass :=
  match bs with
  | [] => Ok p
  | b :: bs' =>
      match b p line with
      | Some r => r
      | None => first_of bs' p line
      end
  end.

Definition process_line (p : pass) (line : string) : result pass :=
  let! q := observe_timestamp p line in
  first_of branches q line.

(** The loop over the lines, stopped by the first exception. *)
Fixpoint process_lines (p : pass) (lines : list string) : result pass :=
  match lines with
  | [] => Ok p
  | line :: lines' => let! p' := process_line p line in process_lines p' lines'
  end.

(** ** Reading the file *)

(** Strict UTF-8: [need] continuation bytes are still due, the next of
    them within [lo..hi]. *)
Fixpoint utf8_ok (need : nat) (lo hi : N) (s : string) : bool :=
  match s with
  | EmptyString => Nat.eqb need 0
  | String a s' =>
      let c := code a in
      match need with
      | O =>
          if (c <? 128)%N then utf8_ok 0 128 191 s'
          else if ((194 <=? c) && (c <=? 223))%N then utf8_ok 1 128 191 s'
          else if (c =? 224)%N then utf8_ok 2 160 191 s'
          else if (((225 <=? c) && (c <=? 236)) || ((238 <=? c) && (c <=? 239)))%N
               then utf8_ok 2 128 191 s'
          else if (c =? 237)%N then utf8_ok 2 128 159 s'
          else if (c =? 240)%N then utf8_ok 3 144 191 s'
          else if ((241 <=? c) && (c <=? 243))%N then utf8_ok 3 128 191 s'
          else if (c =? 244)%N then utf8_ok 3 128 143 s'
          else false
      | S n => if ((lo <=? c) && (c <=? hi))%N then utf8_ok n 128 191 s' else false
      end
  end.

(** Decoding with [encoding='utf-8'] and the default [errors='strict']. *)
Definition decode_utf8 (bytes : string) : result string :=
  if utf8_ok 0 128 191 bytes then Ok bytes else Raise UnicodeDecodeError.

(** Text mode with the default [newline=None]: CR LF and a lone CR are
    read as LF. *)
Fixpoint universal_newlines (s : string) : string :=
  match s with
  | EmptyString => EmptyString
  | String a s' =>
      if Ascii.eqb a carriage_return then
        String newline
          match s' with
          | String b s'' =>
              if Ascii.eqb b newline then universal_newlines s'' else universal_newlines s'
          | EmptyString => EmptyString
          end
      else String a (universal_newlines s')
  end.

(** [for line in f]: each line keeps its terminator; a last line without
    one is still a line. *)
Fixpoint split_lines (s : string) : list string :=
  match s with
  | EmptyString => []
  | String a s' =>
      if Ascii.eqb a newline then String a EmptyString :: split_lines s'
      else match split_lines s' with
           | l :: ls => String a l :: ls
           | [] => [String a EmptyString]
           end
  end.

(** What is outside the interpreter: the files, by path, and the standard
    output. *)
Record world := { files : string -> option string; stdout : list string }.

Definition print (msg : string) (w : world) : world :=
  {| files := files w; stdout := stdout w ++ [msg] |}.

Definition open_read (path : string) (w : world) : result string :=
  match files w path with
  | Some bytes => Ok bytes
  | None => Raise FileNotFoundError
  end.

Definition str_nat (n : nat) : string := NilEmpty.string_of_uint (Nat.to_uint n).

(** ** [parse_log_file] *)

Record GccDecisionAnalyzer := { log_file_path : string }.

(** The returned [data_dict], one table per key. *)
Module Data.
Record dict := {
  trendline : list Trendline.row;
  rtt : list Rtt.row;
  loss : list Loss.row;
  probe : list Probe.row;
  decision : list Decision.row;
  constraint_apply : list ConstraintApply.row;
  delay_limit : list Limit.row;
  receiver_limit : list Limit.row;
  config_limit : list (list Z);
  pushback : list Pushback.row
}.
End Data.

Definition to_dict (p : pass) : Data.dict :=
  {| Data.trendline := trendline_data p; Data.rtt := rtt_data p;
     Data.loss := loss_data p; Data.probe := probe_data p;
     Data.decision := decision_data p;
     Data.constraint_apply := constraint_apply_data p;
     Data.delay_limit := delay_limit_data p;
     Data.receiver_limit := receiver_limit_data p;
     Data.config_limit := config_limit_data p;
     Data.pushback := pushback_data p |}.

Definition report (d : Data.dict) (w : world) : world :=
  fold_left (fun w msg => print msg w)
    [ "[*] Parsing completed:";
      "  Trendline data points: " +:+ str_nat (length (Data.trendline d));
      "  RTT data points: " +:+ str_nat (length (Data.rtt d));
      "  Loss data points: " +:+ str_nat (length (Data.loss d));
      "  Probe data points: " +:+ str_nat (length (Data.probe d));
      "  Decision data points: " +:+ str_nat (length (Data.decision d));
      "  Constraint apply data points: " +:+ str_nat (length (Data.constraint_apply d));
      "  Delay limit data points: " +:+ str_nat (length (Data.delay_limit d));
      "  Receiver limit data points: " +:+ str_nat (length (Data.receiver_limit d));
      "  Config limit data points: " +:+ str_nat (length (Data.config_limit d));
      "  Pushback data points: " +:+ str_nat (length (Data.pushback d)) ] w.

(** The text of the file as the loop sees it, line by line. *)
Definition read_lines (self : GccDecisionAnalyzer) (w : world) : result (list string) :=
  let! bytes := open_read (log_file_path self) w in
  let! text := decode_utf8 bytes in
  Ok (split_lines (universal_newlines text)).

(** One run: every collection starts empty and [last_timestamp] starts at
    [None]; the result is the tables, or the exception that ended the run. *)
Definition parse_log_file (self : GccDecisionAnalyzer) (w : world)
    : result Data.dict * world :=
  let w1 := print ("[*] Parsing log file: " +:+ log_file_path self) w in
  match (let! lines := read_lines self w1 in process_lines fresh lines) with
  | Ok p => let d := to_dict p in (Ok d, report d w1)
  | Raise e => (Raise e, w1)
  end.

(** ** The data computed by [plot_gcc_decision_metrics] *)

Definition reason_map : gmap string Z :=
  {[ "Hold" := 0; "LossEstimate" := 1; "ProbeResult" := 2; "RttBackoff" := 3;
     "DelayLimit" := 4 ]}.

(** [decision_df['decision_reason'].map(reason_map).fillna(0)], one cell. *)
Definition decision_numeric (reason : string) : Z :=
  match reason_map !! reason with
  | Some rank => rank
  | None => 0
  end.

(** [min] of a list of timestamps. *)
Definition min_list (x : Z) (xs : list Z) : Z := fold_left Z.min xs x.

(** [start_time_ms]: the least timestamp of the trendline, RTT and decision
    tables, or [0] when all three are empty. *)
Definition start_time_ms (d : Data.dict) : Z :=
  match map Trendline.timestamp (Data.trendline d)
        ++ map Rtt.timestamp (Data.rtt d)
        ++ map Decision.timestamp (Data.decision d) with
  | t :: ts => min_list t ts
  | [] => 0
  end.

(** [(timestamp - start_time_ms) / 1000.0] in binary64 arithmetic: the
    integer difference is converted to a float and the quotient is
    rounded.  [round] stands for the rounding of a real number to
    binary64; the properties a statement needs of it are its hypotheses. *)
Definition time_s (round : Q -> Q) (start timestamp : Z) : Q :=
  round (Qdiv (round (inject_Z (timestamp - start))) (inject_Z 1000)).

(** A row of [decision_df] once the two derived columns are written. *)
Record decision_point := {
  timestamp : Z;
  decision_reason : string;
  decision_time_s : Q;
  decision_rank : Z
}.

Definition sum_Z (l : list Z) : Z := fold_left Z.add l 0.

Definition count_Z (x : Z) (l : list Z) : nat := length (filter (Z.eqb x) l).

(** [Series.mode().iloc[0]]: the most frequent value, the least one among
    equally frequent values. *)
Definition mode (x : Z) (xs : list Z) : Z :=
  fold_left
    (fun best y =>
       let cy := count_Z y (x :: xs) in
       let cb := count_Z best (x :: xs) in
       if (cb <? cy)%nat || ((cb =? cy)%nat && Z.ltb y best) then y else best)
    xs x.

(** The statistics of the loss panel, over the estimate rows only. *)
Record loss_stats := {
  avg_bandwidth : Q;            (* kbps *)
  avg_observations : Q;
  most_common_state : Z
}.

Definition mean (l : list Z) : Q := Qred (Qmake (sum_Z l) (Pos.of_nat (length l))).

Definition estimates_df (loss_df : list Loss.row) : list Loss.row :=
  filter (fun r => Z.leb 0 (Loss.state r)) loss_df.

Definition candidates_df (loss_df : list Loss.row) : list Loss.row :=
  filter (fun r => Z.eqb (Loss.state r) (-1)) loss_df.

Definition loss_statistics (loss_df : list Loss.row) : option loss_stats :=
  match map Loss.state (estimates_df loss_df) with
  | [] => None
  | s :: ss =>
      Some {| avg_bandwidth :=
                Qred (Qdiv (mean (map Loss.bandwidth (estimates_df loss_df))) (inject_Z 1000));
              avg_observations := mean (map Loss.observations (estimates_df loss_df));
              most_common_state := mode s ss |}
  end.

Record metrics := {
  loss_panel : option loss_stats;
  decision_df : list decision_point
}.

(** The function returns early, drawing nothing and deriving nothing, when
    the trendline, RTT and loss tables are all empty. *)
Definition plot_gcc_decision_metrics (round : Q -> Q) (data_dict : Data.dict)
    : option metrics :=
  match Data.trendline data_dict, Data.rtt data_dict, Data.loss data_dict with
  | [], [], [] => None
  | _, _, _ =>
      let start := start_time_ms data_dict in
      Some {| loss_panel := loss_statistics (Data.loss data_dict);
              decision_df :=
                map (fun r =>
                       {| timestamp := Decision.timestamp r;
                          decision_reason := Decision.decision_reason r;
                          decision_time_s := time_s round start (Decision.timestamp r);
                          decision_rank := decision_numeric (Decision.decision_reason r) |})
                    (Data.decision data_dict) |}
  end.


(** ** Notions the properties are stated with *)

(** The number of rows in all the collections of a run. *)
Definition total_events (p : pass) : nat :=
  (length (trendline_data p) + length (rtt_data p) + length (loss_data p)
   + length (probe_data p) + length (decision_data p)
   + length (constraint_apply_data p) + length (delay_limit_data p)
   + length (receiver_limit_data p) + length (config_limit_data p)
   + length (pushback_data p))%nat.

(** [emitted p p']: [p'] is [p] with one row appended to one collection. *)
Inductive emitted (p : pass) : pass -> Prop :=
| emitted_trendline r : emitted p (append_trendline r p)
| emitted_rtt r : emitted p (append_rtt r p)
| emitted_loss r : emitted p (append_loss r p)
| emitted_probe r : emitted p (append_probe r p)
| emitted_decision r : emitted p (append_decision r p)
| emitted_constraint_apply r : emitted p (append_constraint_apply r p)
| emitted_delay_limit r : emitted p (append_delay_limit r p)
| emitted_receiver_limit r : emitted p (append_receiver_limit r p)
| emitted_pushback r : emitted p (append_pushback r p).

(** A block that, when it completes, appends exactly one row. *)
Definition emits_one (b : branch) : Prop :=
  forall p line p', b p line = Some (Ok p') -> emitted p p'.

(** The timestamp carried forward past a line. *)
Definition carry (t : option Z) (line : string) : option Z :=
  match line_timestamp line with
  | Some t' => Some t'
  | None => t
  end.

(** The most recent timestamp observed on the lines read so far. *)
Definition last_observed (lines : list string) : option Z :=
  fold_left carry lines None.

(** The legacy grammar a line matches, the result form before the success
    form, with the [source] tag of the row it would give. *)
Definition legacy_match (line : string) : option (captures * string) :=
  match search Patterns.probe_result_old line with
  | Some (m, _) => Some (m, "result_old")
  | None =>
      match search Patterns.probe_success_old line with
      | Some (m, _) => Some (m, "success_old")
      | None => None
      end
  end.

(** Candidate text made of commas and blanks only. *)
Definition blank_list (candidates_str : string) : bool :=
  str_forall (fun a => is_space a || Ascii.eqb a ",") candidates_str.

(** The words a pattern denotes, captures aside. *)
Fixpoint lang (r : regex) (w : string) : Prop :=
  match r with
  | RLit p => w = p
  | ROne c => exists a, w = String a "" /\ in_cset c a = true
  | RPlus c => w <> "" /\ str_forall (in_cset c) w = true
  | RLazyStar c => str_forall (in_cset c) w = true
  | RGroup _ r' => lang r' w
  | RSeq r1 r2 => exists w1 w2, w = w1 +:+ w2 /\ lang r1 w1 /\ lang r2 w2
  | RAlt r1 r2 => lang r1 w \/ lang r2 w
  end.

(** The last field of a record: the longest run of word characters that a
    text ends with. *)
Fixpoint last_word (w : string) : string :=
  match w with
  | EmptyString => EmptyString
  | String _ w' => if str_forall is_word w then w else last_word w'
  end.

(** A scan for the timestamp expression [Time: (\d+) ms|at (\d+) ms]: the
    state is how much of an occurrence the last characters read make up,
    and the scan ends in [None] once an occurrence is complete. *)
Inductive scan_state :=
| S0           (* nothing *)
| ST           (* T *)
| STi          (* Ti *)
| STim         (* Tim *)
| STime        (* Time *)
| STimeC       (* Time: *)
| Sa           (* a *)
| Sat          (* at *)
| SX           (* Time: and a blank, or at and a blank *)
| SD           (* then digits *)
| SDS          (* then a blank *)
| SDSm.        (* then the letter m *)

Definition restart (a : ascii) : scan_state :=
  if Ascii.eqb a "T" then ST else if Ascii.eqb a "a" then Sa else S0.

Definition step (q : scan_state) (a : ascii) : option scan_state :=
  match q with
  | S0 => Some (restart a)
  | ST => Some (if Ascii.eqb a "i" then STi else restart a)
  | STi => Some (if Ascii.eqb a "m" then STim else restart a)
  | STim => Some (if Ascii.eqb a "e" then STime else restart a)
  | STime => Some (if Ascii.eqb a ":" then STimeC else restart a)
  | STimeC => Some (if Ascii.eqb a " " then SX else restart a)
  | Sa => Some (if Ascii.eqb a "t" then Sat else restart a)
  | Sat => Some (if Ascii.eqb a " " then SX else restart a)
  | SX => Some (if is_digit a then SD else restart a)
  | SD => Some (if is_digit a then SD else if Ascii.eqb a " " then SDS else restart a)
  | SDS => Some (if Ascii.eqb a "m" then SDSm else restart a)
  | SDSm => if Ascii.eqb a "s" then None else Some (restart a)
  end.

Fixpoint scan (q : scan_state) (s : string) : option scan_state :=
  match s with
  | EmptyString => Some q
  | String a s' =>
      match step q a with
      | Some q' => scan q' s'
      | None => None
      end
  end.

(** The states a run of word characters can leave the scan in. *)
Definition idle (q : scan_state) : bool :=
  match q with
  | S0 | ST | STi | STim | STime | Sa | Sat => true
  | _ => false
  end.

(** The two ways a timestamp opens. *)
Definition stamp_head (x : string) : Prop := x = "Time: " \/ x = "at ".

(** What the text read so far ends with, state by state. *)
Definition ends (q : scan_state) (s : string) : Prop :=
  match q with
  | S0 => True
  | ST => exists a, s = a +:+ "T"
  | STi => exists a, s = a +:+ "Ti"
  | STim => exists a, s = a +:+ "Tim"
  | STime => exists a, s = a +:+ "Time"
  | STimeC => exists a, s = a +:+ "Time:"
  | Sa => exists a, s = a +:+ "a"
  | Sat => exists a, s = a +:+ "at"
  | SX => exists a x, stamp_head x /\ s = a +:+ x
  | SD =>
      exists a x d, stamp_head x /\ d <> "" /\ str_forall is_digit d = true
                    /\ s = a +:+ x +:+ d
  | SDS =>
      exists a x d, stamp_head x /\ d <> "" /\ str_forall is_digit d = true
                    /\ s = a +:+ x +:+ d +:+ " "
  | SDSm =>
      exists a x d, stamp_head x /\ d <> "" /\ str_forall is_digit d = true
                    /\ s = a +:+ x +:+ d +:+ " m"
  end.

(** A line that holds a decision-snapshot record and no timestamp the loop
    recognises: neither before the record nor from the record's last field
    on. *)
Definition quiet_snapshot (line : string) : Prop :=
  exists pre w post : string,
    line = pre +:+ w +:+ post
    /\ lang Patterns.decision w
    /\ search Patterns.timestamp pre = None
    /\ search Patterns.timestamp (last_word w +:+ post) = None.

(** ** Notions for the properties of the whole run *)

(** [l'] is [l] with rows added at its end. *)
Definition extends {A : Type} (l l' : list A) : Prop := exists more, l' = l ++ more.

(** Every collection of [p'] is the collection of [p] with rows added at
    its end. *)
Definition grows (p p' : pass) : Prop :=
  extends (trendline_data p) (trendline_data p')
  /\ extends (rtt_data p) (rtt_data p')
  /\ extends (loss_data p) (loss_data p')
  /\ extends (probe_data p) (probe_data p')
  /\ extends (decision_data p) (decision_data p')
  /\ extends (constraint_apply_data p) (constraint_apply_data p')
  /\ extends (delay_limit_data p) (delay_limit_data p')
  /\ extends (receiver_limit_data p) (receiver_limit_data p')
  /\ extends (config_limit_data p) (config_limit_data p')
  /\ extends (pushback_data p) (pushback_data p').

(** A probe row that came from a legacy (timestamp-less) line. *)
Definition legacy_row (r : Probe.row) : bool :=
  String.eqb (Probe.source r) "result_old" || String.eqb (Probe.source r) "success_old".

(** The capture groups of a pattern, with their numbers. *)
Fixpoint groups_of (r : regex) : list (nat * regex) :=
  match r with
  | RGroup n r' => (n, r') :: groups_of r'
  | RSeq r1 r2 | RAlt r1 r2 => groups_of r1 ++ groups_of r2
  | _ => []
  end.

Definition is_digits (r : regex) : bool :=
  match r with
  | RPlus CDigit => true
  | _ => false
  end.

(** Group [n] of the pattern is [(\d+)], wherever it occurs. *)
Definition digit_group (r : regex) (n : nat) : bool :=
  forallb (fun g => negb (Nat.eqb (fst g) n) || is_digits (snd g)) (groups_of r).

(** [v] occurs in [s]. *)
Definition factor (v s : string) : Prop := exists a b : string, s = a +:+ v +:+ b.

(** The captures after a match of the text [w]: those there were before,
    and for each group of the pattern a text that the group denotes and
    that occurs in [w]. *)
Definition captures_within (r : regex) (w : string) (caps caps' : captures) : Prop :=
  forall (n : nat) (v : string),
    group caps' n = Some v ->
    group caps n = Some v
    \/ exists r', In (n, r') (groups_of r) /\ lang r' v /\ factor v w.

(** A loss row as the loop builds it: an estimate, with a state that is not
    negative and no candidates list, or a candidates row, with state -1 and
    as many observations as its list has entries. *)
Definition loss_row_ok (r : Loss.row) : Prop :=
  0 <= Loss.timestamp r
  /\ ((0 <= Loss.state r /\ Loss.candidates r = None
       /\ 0 <= Loss.bandwidth r /\ 0 <= Loss.observations r)
      \/ (Loss.state r = -1
          /\ exists cs, Loss.candidates r = Some cs
                        /\ Loss.observations r = Z.of_nat (length cs))).

(** What holds of the tables at every point of a run. *)
Definition tables_ok (p : pass) : Prop :=
  Forall (fun r => 0 <= Trendline.timestamp r) (trendline_data p)
  /\ Forall (fun r => 0 <= Rtt.timestamp r) (rtt_data p)
  /\ Forall loss_row_ok (loss_data p)
  /\ Forall (fun r => 0 <= Probe.timestamp r) (probe_data p)
  /\ Forall (fun r => 0 <= Decision.timestamp r) (decision_data p)
  /\ Forall (fun r => 0 <= ConstraintApply.timestamp r) (constraint_apply_data p)
  /\ Forall (fun r => 0 <= Limit.timestamp r) (delay_limit_data p)
  /\ Forall (fun r => 0 <= Limit.timestamp r) (receiver_limit_data p)
  /\ Forall (fun r => 0 <= Pushback.timestamp r) (pushback_data p)
  /\ (forall t, last_timestamp p = Some t -> 0 <= t).

(** ** The time axes of the two figures *)

Definition max_list (x : Z) (xs : list Z) : Z := fold_left Z.max xs x.

(** [all_timestamps] of [plot_gcc_decision_metrics]: the timestamps of the
    trendline, RTT and decision tables, in this order. *)
Definition all_timestamps (d : Data.dict) : list Z :=
  map Trendline.timestamp (Data.trendline d)
  ++ map Rtt.timestamp (Data.rtt d)
  ++ map Decision.timestamp (Data.decision d).

(** [time_limit]: [(end_time_ms - start_time_ms) / 1000.0 + 1.0], or [10.0]
    when [all_timestamps] is empty. *)
Definition time_limit (round : Q -> Q) (d : Data.dict) : Q :=
  match all_timestamps d with
  | t :: ts => round (Qplus (time_s round (min_list t ts) (max_list t ts)) 1)
  | [] => 10
  end.

(** What [plot_constraint_analysis] derives before drawing: the constraint
    rows and the pushback rows with their [time_s], both counted from the
    least constraint timestamp, and the right end of the time axis. *)
Record constraint_view := {
  constraint_points : list (ConstraintApply.row * Q);
  pushback_points : list (Pushback.row * Q);
  constraint_time_limit : Q
}.

(** The function returns early, with the message that no constraint
    application data was found, when the constraint table is empty. *)
Definition plot_constraint_analysis (round : Q -> Q) (data_dict : Data.dict)
    : option constraint_view :=
  match map ConstraintApply.timestamp (Data.constraint_apply data_dict) with
  | [] => None
  | t :: ts =>
      let start_time_ms := min_list t ts in
      let end_time_ms := max_list t ts in
      Some {| constraint_points :=
                map (fun r => (r, time_s round start_time_ms (ConstraintApply.timestamp r)))
                    (Data.constraint_apply data_dict);
              pushback_points :=
                map (fun r => (r, time_s round start_time_ms (Pushback.timestamp r)))
                    (Data.pushback data_dict);
              constraint_time_limit :=
                round (Qplus (time_s round start_time_ms end_time_ms) 1) |}
  end.

(** What the statements about the time axes need of the rounding to
    binary64: it keeps the order, it leaves alone what it has rounded, and
    it keeps zero. *)
Definition rounding (round : Q -> Q) : Prop :=
  (forall x y : Q, Qle x y -> Qle (round x) (round y))
  /\ (forall x : Q, Qeq (round (round x)) (round x))
  /\ Qeq (round 0%Q) 0%Q.

(** A rounding that is not the identity: down to a multiple of 1/1024. *)
Definition round_down_1024 (q : Q) : Q := Qmake (Qfloor (Qmult q (inject_Z 1024))) 1024.

(** Timestamps that a column of 64-bit integers holds. *)
Definition int64_timestamp (t : Z) : Prop := 0 <= t < 2 ^ 63.

(** [a] is at least as frequent in [l] as [b], and not greater if they are
    equally frequent. *)
Definition outranks (l : list Z) (a b : Z) : Prop :=
  (count_Z b l < count_Z a l)%nat \/ (count_Z b l = count_Z a l /\ a <= b).

(** A scan for an opening bracket followed by the letter P, with which both
    legacy probe patterns start: [None] once it is found, otherwise whether
    the last character was an opening bracket. *)
Definition step_bracket (seen : bool) (a : ascii) : option bool :=
  if seen && Ascii.eqb a "P" then None else Some (Ascii.eqb a "[").

Fixpoint scan_bracket (seen : bool) (s : string) : option bool :=
  match s with
  | EmptyString => Some seen
  | String a s' =>
      match step_bracket seen a with
      | Some seen' => scan_bracket seen' s'
      | None => None
      end
  end.

(** The candidate list as the log writes it: the values separated by a
    comma and a blank. *)
Fixpoint join_candidates (first : string) (others : list string) : string :=
  match others with
  | [] => first
  | d :: ds => first +:+ ", " +:+ join_candidates d ds
  end.

(** A candidate written as a run of digits whose value in bps is an integer
    that binary64 holds exactly: neither [float] nor the product with 1000
    rounds. *)
Definition exact_integer (x : string) : Prop :=
  x <> "" /\ str_forall is_digit x = true /\ digits_value x * 1000 <= 2 ^ 53.

Definition integer_value (x : string) : pyfloat := FNum (inject_Z (digits_value x)).

(** The patterns of the blocks that the loop tries before the
    CongestionWindowPushback block, in the order of the loop. *)
Definition patterns_before_pushback : list regex :=
  [ Patterns.trendline; Patterns.rtt_bwe; Patterns.loss_bwe; Patterns.loss_candidates;
    Patterns.probe_result; Patterns.probe_success;
    Patterns.probe_result_old; Patterns.probe_success_old;
    Patterns.decision; Patterns.constraint_apply; Patterns.delay_limit;
    Patterns.receiver_limit ].

(** ** Lines on which the model is the interpreter *)

(** Text of ASCII characters only. *)
Definition ascii_text (s : string) : bool :=
  str_forall (fun a => N.ltb (code a) 128) s.

(** No run of digits is longer than [n]; [run] digits came just before. *)
Fixpoint digit_runs_from (n run : nat) (s : string) : bool :=
  match s with
  | EmptyString => true
  | String a s' =>
      if is_digit a then Nat.leb (S run) n && digit_runs_from n (S run) s'
      else digit_runs_from n 0 s'
  end.

Definition digit_runs_within (n : nat) (s : string) : bool := digit_runs_from n 0 s.

(** A line of ASCII text in which every run of digits is short enough for
    [int]: on such a line the classes of the patterns, of [strip] and of
    [float] are those of the interpreter, and no [int] of a [(\d+)] group
    exceeds the limit. *)
Definition plain_line (line : string) : bool :=
  ascii_text line && digit_runs_within int_max_str_digits line.



(** * Properties *)

(** ** Strings *)

#[local] Arguments String.append !_ _ / : simpl nomatch.

Lemma append_assoc (a b c : string) : (a +:+ b) +:+ c = a +:+ (b +:+ c).
Proof. induction a as [|x a IH]; simpl; [reflexivity | now rewrite IH]. Qed.


Lemma strip_prefix_sound (p s s' : string) :
  strip_prefix p s = Some s' -> s = p +:+ s'.
Proof.
  revert s. induction p as [|a p IH]; intros s H; simpl in *.
  - now inversion H.
  - destruct s as [|b s]; [discriminate |].
    destruct (Ascii.eqb_spec a b) as [<- | _]; [| discriminate].
    now rewrite (IH _ H).
Qed.

(** ** The matcher finds only what the pattern denotes *)

Section Soundness.
Context {A : Type}.

Lemma star_greedy_sound (c : cset) (s : string) (k : string -> option A) (x : A) :
  star_greedy c s k = Some x ->
  exists w s', s = w +:+ s' /\ str_forall (in_cset c) w = true /\ k s' = Some x.
Proof.
  induction s as [|a s IH]; simpl; intros H.
  - exists "", "". auto.
  - destruct (in_cset c a) eqn:Ha.
    + destruct (star_greedy c s k) as [y|] eqn:Hs.
      * inversion H; subst y.
        destruct (IH eq_refl) as (w & s' & -> & Hw & Hk).
        exists (String a w), s'. simpl. rewrite Ha, Hw. auto.
      * exists "", (String a s). auto.
    + exists "", (String a s). auto.
Qed.

Lemma star_lazy_sound (c : cset) (s : string) (k : string -> option A) (x : A) :
  star_lazy c s k = Some x ->
  exists w s', s = w +:+ s' /\ str_forall (in_cset c) w = true /\ k s' = Some x.
Proof.
  induction s as [|a s IH]; simpl; intros H.
  - destruct (k "") eqn:Hk; [| discriminate].
    exists "", "". rewrite Hk. auto.
  - destruct (k (String a s)) eqn:Hk.
    + exists "", (String a s). rewrite Hk. auto.
    + destruct (in_cset c a) eqn:Ha; [| discriminate].
      destruct (IH H) as (w & s' & -> & Hw & Hk').
      exists (String a w), s'. simpl. rewrite Ha, Hw. auto.
Qed.

Lemma match_re_sound (r : regex) :
  forall (s : string) (caps : captures) (k : string -> captures -> option A) (x : A),
    match_re r s caps k = Some x ->
    exists w s' caps', s = w +:+ s' /\ lang r w /\ k s' caps' = Some x.
Proof.
  induction r as [p | c | c | c | n r IH | r1 IH1 r2 IH2 | r1 IH1 r2 IH2];
    intros s caps k x H; simpl in H.
  - destruct (strip_prefix p s) as [s'|] eqn:Hp; [| discriminate].
    exists p, s', caps. split; [now apply strip_prefix_sound |]. now split.
  - destruct s as [|a s]; [discriminate |].
    destruct (in_cset c a) eqn:Ha; [| discriminate].
    exists (String a ""), s, caps. simpl. eauto.
  - destruct s as [|a s]; [discriminate |].
    destruct (in_cset c a) eqn:Ha; [| discriminate].
    destruct (star_greedy_sound _ _ _ _ H) as (w & s' & -> & Hw & Hk).
    exists (String a w), s', caps. simpl. rewrite Ha, Hw.
    repeat split; auto.
  - destruct (star_lazy_sound _ _ _ _ H) as (w & s' & -> & Hw & Hk).
    exists w, s', caps. auto.
  - destruct (IH _ _ _ _ H) as (w & s' & caps' & -> & Hw & Hk).
    exists w, s'. eexists. simpl. eauto.
  - destruct (IH1 _ _ _ _ H) as (w1 & s1 & caps1 & -> & Hw1 & Hk1).
    destruct (IH2 _ _ _ _ Hk1) as (w2 & s2 & caps2 & -> & Hw2 & Hk2).
    exists (w1 +:+ w2), s2, caps2. simpl.
    split; [symmetry; apply append_assoc |]. split; eauto.
  - destruct (match_re r1 s caps k) as [y|] eqn:H1.
    + inversion H; subst y.
      destruct (IH1 _ _ _ _ H1) as (w & s' & caps' & -> & Hw & Hk).
      exists w, s', caps'. simpl. auto.
    + destruct (IH2 _ _ _ _ H) as (w & s' & caps' & -> & Hw & Hk).
      exists w, s', caps'. simpl. auto.
Qed.
End Soundness.

Lemma match_at_sound (r : regex) (s : string) (m : captures) (rest : string) :
  match_at r s = Some (m, rest) -> exists w, s = w +:+ rest /\ lang r w.
Proof.
  intros H. apply match_re_sound in H.
  destruct H as (w & s' & caps' & -> & Hw & Hk).
  inversion Hk; subst. eauto.
Qed.

Lemma search_sound (r : regex) (s : string) (m : captures) (rest : string) :
  search r s = Some (m, rest) ->
  exists pre w, s = pre +:+ w +:+ rest /\ lang r w.
Proof.
  induction s as [|a s IH]; simpl; intros H.
  - destruct (match_at r "") as [[m' rest']|] eqn:Hm; [| discriminate].
    inversion H; subst. apply match_at_sound in Hm.
    destruct Hm as (w & Hs & Hw). exists "", w. auto.
  - destruct (match_at r (String a s)) as [[m' rest']|] eqn:Hm.
    + inversion H; subst. apply match_at_sound in Hm.
      destruct Hm as (w & Hs & Hw). exists "", w. auto.
    + destruct (IH H) as (pre & w & -> & Hw).
      exists (String a pre), w. auto.
Qed.

(** ** A line carrying [Time: <digits> ms] has a timestamp *)

Lemma star_greedy_complete {A : Type} (c : cset) (d t : string) (k : string -> option A) :
  str_forall (in_cset c) d = true -> k t <> None -> star_greedy c (d +:+ t) k <> None.
Proof.
  intros Hd Hk. induction d as [|a d IH]; simpl in *.
  - destruct t as [|b t]; simpl; [assumption |].
    destruct (in_cset c b); [| assumption].
    destruct (star_greedy c t k); [discriminate | assumption].
  - apply andb_prop in Hd. destruct Hd as [Ha Hd]. rewrite Ha.
    destruct (star_greedy c (d +:+ t) k); [discriminate |].
    now apply IH in Hd.
Qed.

(** ** The registry as written

    Each pattern of [Patterns] is what the source text of the registry
    reads as. *)
Lemma patterns_as_written :
  parse_regex "\[GCC-DECISION-SNAPSHOT\] at (\d+)ms \| DelayState: (\w+), DelayTargetBps: (\d+) \| RttBackoff: (\w+) \| ProbeResultBps: (\d+) \| BweTargetBps: (\d+) \| AckedBitrateBps: (\d+) \| FinalTargetBps: (\d+) \| DecisionReason: (\w+) \| Updated: (\w+)"
    = Some Patterns.decision
  /\ parse_regex "\[Trendline\] Time: (\d+) ms.*?Modified trend: ([^,]+), Threshold: ([^,]+), State: (\w+)"
    = Some Patterns.trendline
  /\ parse_regex "\[RttBWE-Update\] Time: (\d+) ms, PropagationRtt: (\d+) ms, CorrectedRtt: (\d+) ms, RttLimit: (\d+) ms, AboveLimit: (\w+)"
    = Some Patterns.rtt_bwe
  /\ parse_regex "\[LossBWE-Estimate\] Time: (\d+) ms, State: (\d+), Bandwidth: (\d+) bps, Observations: (\d+)"
    = Some Patterns.loss_bwe
  /\ parse_regex "\[LossBWE-Candidates\] Time: (\d+) ms, Candidate Bandwidths \(kbps\): (.+)"
    = Some Patterns.loss_candidates
  /\ parse_regex "\[DelayBWE-Decision\] Time: (\d+) ms.*?New bitrate: (\d+) bps.*?Probe: (\w+)"
    = Some Patterns.delay_bwe
  /\ parse_regex "\[ProbeBWE-Result\] Time: (\d+) ms, Cluster ID: (\d+), Final estimate: (\d+) bps"
    = Some Patterns.probe_result
  /\ parse_regex "\[ProbeBWE-Success\] Time: (\d+) ms, Cluster ID: (\d+), Send rate: (\d+) bps"
    = Some Patterns.probe_success
  /\ parse_regex "\[ProbeBWE-Result\] Cluster ID: (\d+), Final estimate: (\d+) bps"
    = Some Patterns.probe_result_old
  /\ parse_regex "\[ProbeBWE-Success\] Cluster ID: (\d+), Send rate: (\d+) bps"
    = Some Patterns.probe_success_old
  /\ parse_regex "\[BWE-ConstraintApply\] Time: (\d+) ms, Original: (\d+) bps, UpperLimit: (\d+) bps, AfterUpper: (\d+) bps, MinConfig: (\d+) bps, Final: (\d+) bps, DelayLimit: (\d+) bps, ReceiverLimit: (\d+) bps, MaxConfig: (\d+) bps"
    = Some Patterns.constraint_apply
  /\ parse_regex "\[BWE-DelayLimit\] Time: (\d+) ms, OldLimit: (\d+) bps, NewLimit: (\d+) bps, CurrentTarget: (\d+) bps"
    = Some Patterns.delay_limit
  /\ parse_regex "\[BWE-ReceiverLimit\] Time: (\d+) ms, OldLimit: (\d+) bps, NewLimit: (\d+) bps, CurrentTarget: (\d+) bps"
    = Some Patterns.receiver_limit
  /\ parse_regex "\[BWE-ConfigLimit\] MinBitrate: (\d+) -> (\d+) bps, MaxBitrate: (\d+) -> (\d+) bps, CurrentTarget: (\d+) bps"
    = Some Patterns.config_limit
  /\ parse_regex "\[BWE-CongestionWindowPushback\] Time: (\d+) ms, OriginalRate: (\d+) bps, PushbackRate: (\d+) bps, MinBitrate: (\d+) bps, Reduction: (\d+) bps, ReductionRatio: ([^%]+)%"
    = Some Patterns.pushback
  /\ parse_regex "Time: (\d+) ms|at (\d+) ms" = Some Patterns.timestamp.
Proof. repeat split; vm_compute; reflexivity. Qed.

Lemma search_complete (r : regex) (pre s : string) :
  match_at r s <> None -> search r (pre +:+ s) <> None.
Proof.
  intros H. induction pre as [|a pre IH]; simpl.
  - destruct s; simpl; destruct (match_at r _); congruence.
  - destruct (match_at r (String a (pre +:+ s))); [discriminate | assumption].
Qed.

Lemma timestamp_found (pre d post : string) :
  d <> "" -> str_forall is_digit d = true ->
  search Patterns.timestamp (pre +:+ "Time: " +:+ d +:+ " ms" +:+ post) <> None.
Proof.
  intros Hne Hd. apply search_complete.
  destruct d as [|a d]; [contradiction |].
  simpl in Hd. apply andb_prop in Hd. destruct Hd as [Ha Hd].
  unfold match_at, Patterns.timestamp. simpl. rewrite Ha.
  match goal with
  | |- match star_greedy ?c _ ?k with _ => _ end <> None =>
      pose proof (star_greedy_complete c d (" ms" +:+ post) k Hd) as Hs
  end.
  simpl in Hs.
  match type of Hs with
  | _ -> ?x <> None => destruct x; [discriminate | exfalso; apply Hs; [discriminate | reflexivity]]
  end.
Qed.

(** Every pattern that opens with a tag, [Time: (\d+)] and [ ms] matches
    only lines on which the timestamp expression matches too. *)
Lemma time_field_found (tag tail : string) (r : regex) (line : string)
    (m : captures) (rest : string) :
  search (RSeq (RLit (tag +:+ "Time: "))
            (RSeq (RGroup 1 digits) (RSeq (RLit (" ms" +:+ tail)) r))) line
    = Some (m, rest) ->
  search Patterns.timestamp line <> None.
Proof.
  intros H. apply search_sound in H.
  destruct H as (pre & w & -> & Hw). simpl in Hw.
  destruct Hw as (w1 & w2 & -> & -> & d & w3 & -> & [Hne Hd] & w4 & w5 & -> & -> & _).
  match goal with
  | |- search _ ?l <> None =>
      replace l with ((pre +:+ tag) +:+ "Time: " +:+ d +:+ " ms" +:+ (tail +:+ w5 +:+ rest))
  end.
  - now apply timestamp_found.
  - rewrite !append_assoc. reflexivity.
Qed.

Lemma timed_patterns (line : string) :
  search Patterns.timestamp line = None ->
  search Patterns.trendline line = None
  /\ search Patterns.rtt_bwe line = None
  /\ search Patterns.loss_bwe line = None
  /\ search Patterns.loss_candidates line = None
  /\ search Patterns.probe_result line = None
  /\ search Patterns.probe_success line = None
  /\ search Patterns.constraint_apply line = None
  /\ search Patterns.delay_limit line = None
  /\ search Patterns.receiver_limit line = None
  /\ search Patterns.pushback line = None.
Proof.
  intros Hts.
  assert (T : forall tag tail r, search (RSeq (RLit (tag +:+ "Time: "))
            (RSeq (RGroup 1 digits) (RSeq (RLit (" ms" +:+ tail)) r))) line = None).
  { intros tag tail r.
    match goal with |- ?x = None => destruct x as [[m rest]|] eqn:E end; [| reflexivity].
    apply time_field_found in E. contradiction. }
  repeat split.
  - exact (T "[Trendline] " "" _).
  - exact (T "[RttBWE-Update] " ", PropagationRtt: " _).
  - exact (T "[LossBWE-Estimate] " ", State: " _).
  - exact (T "[LossBWE-Candidates] " ", Candidate Bandwidths (kbps): " _).
  - exact (T "[ProbeBWE-Result] " ", Cluster ID: " _).
  - exact (T "[ProbeBWE-Success] " ", Cluster ID: " _).
  - exact (T "[BWE-ConstraintApply] " ", Original: " _).
  - exact (T "[BWE-DelayLimit] " ", OldLimit: " _).
  - exact (T "[BWE-ReceiverLimit] " ", OldLimit: " _).
  - exact (T "[BWE-CongestionWindowPushback] " ", OriginalRate: " _).
Qed.

(** ** What one iteration does to the run *)

Lemma emitted_total_events (p p' : pass) :
  emitted p p' -> total_events p' = S (total_events p).
Proof.
  intros []; unfold total_events; simpl; rewrite length_app; simpl; lia.
Qed.

Lemma emitted_last_timestamp (p p' : pass) :
  emitted p p' -> last_timestamp p' = last_timestamp p.
Proof. now intros []. Qed.

(** Unfold every block, with the conversions and the sequencing in them. *)
Ltac open_blocks E :=
  unfold on_trendline, on_rtt_bwe, on_loss_bwe, on_loss_candidates, on_probe_result,
    on_probe_success, on_probe_result_old, on_probe_success_old, on_decision,
    on_constraint_apply, on_delay_limit, on_receiver_limit, on_pushback, bind, int in E.

Ltac split_matches E :=
  repeat match type of E with
         | context [match ?x with _ => _ end] => destruct x eqn:?; try discriminate
         end.

(** Go through the blocks in order: [k] is run on the equation of each
    block that takes the line, and what is left is the case in which none
    does. *)
Ltac walk_first H k :=
  unfold branches in H; cbn [first_of] in H;
  repeat match type of H with
         | match ?b ?q ?l with Some _ => _ | None => _ end = _ =>
             let E := fresh "E" in
             destruct (b q l) as [?|] eqn:E; [subst; k E |]
         end.

Ltac split_branch H :=
  repeat match type of H with
         | context [match ?x with _ => _ end] => destruct x; try discriminate
         end;
  inversion H; subst; constructor.

Lemma branches_emit_one : Forall emits_one branches.
Proof.
  unfold branches.
  repeat (apply Forall_cons; [| try apply Forall_nil]); intros p line p' H;
    open_blocks H; split_branch H.
Qed.

Lemma first_of_emits (bs : list branch) (p : pass) (line : string) (p' : pass) :
  Forall emits_one bs -> first_of bs p line = Ok p' -> p' = p \/ emitted p p'.
Proof.
  induction 1 as [|b bs Hb _ IH]; simpl; intros H.
  - left. congruence.
  - destruct (b p line) as [r|] eqn:E; [| auto].
    subst r. right. now apply Hb with line.
Qed.

(** When the timestamp statement completes, it leaves [observed]. *)
Lemma observe_timestamp_ok (p : pass) (line : string) (q : pass) :
  observe_timestamp p line = Ok q -> q = observed p line.
Proof.
  unfold observe_timestamp, observed, line_timestamp, int, bind.
  destruct (search Patterns.timestamp line) as [[m rest]|]; [| congruence].
  destruct (Nat.leb _ _); [congruence | discriminate].
Qed.

Lemma process_line_observed (p : pass) (line : string) (p' : pass) :
  process_line p line = Ok p' ->
  observe_timestamp p line = Ok (observed p line)
  /\ first_of branches (observed p line) line = Ok p'.
Proof.
  unfold process_line. intros H.
  destruct (observe_timestamp p line) as [q|] eqn:E; [| discriminate].
  simpl in H. now rewrite <- (observe_timestamp_ok _ _ _ E).
Qed.

Lemma process_line_emits (p : pass) (line : string) (p' : pass) :
  process_line p line = Ok p' ->
  p' = observed p line \/ emitted (observed p line) p'.
Proof.
  intros H. apply process_line_observed in H. destruct H as [_ H].
  revert H. apply first_of_emits, branches_emit_one.
Qed.

Lemma observe_last_timestamp (p : pass) (line : string) :
  last_timestamp (observed p line) = carry (last_timestamp p) line.
Proof. unfold observed, carry. now destruct (line_timestamp line). Qed.

Lemma process_line_last_timestamp (p : pass) (line : string) (p' : pass) :
  process_line p line = Ok p' -> last_timestamp p' = carry (last_timestamp p) line.
Proof.
  intros H. rewrite <- observe_last_timestamp.
  destruct (process_line_emits _ _ _ H) as [-> | E]; [reflexivity |].
  now apply emitted_last_timestamp.
Qed.

Lemma process_lines_last_timestamp (lines : list string) :
  forall p p', process_lines p lines = Ok p' ->
               last_timestamp p' = fold_left carry lines (last_timestamp p).
Proof.
  induction lines as [|line lines IH]; simpl; intros p p' H.
  - congruence.
  - destruct (process_line p line) as [p1|] eqn:E; [| discriminate]. simpl in H.
    rewrite (IH _ _ H). now rewrite (process_line_last_timestamp _ _ _ E).
Qed.


Lemma line_timestamp_none (line : string) :
  line_timestamp line = None <-> search Patterns.timestamp line = None.
Proof.
  unfold line_timestamp.
  destruct (search Patterns.timestamp line) as [[m rest]|]; split; congruence.
Qed.

(** A line without a timestamp is taken, if at all, by the legacy probe
    blocks or by the decision block. *)
Lemma untimed_line (p : pass) (line : string) :
  search Patterns.timestamp line = None ->
  first_of branches p line =
    match on_probe_result_old p line with
    | Some r => r
    | None =>
        match on_probe_success_old p line with
        | Some r => r
        | None =>
            match on_decision p line with
            | Some r => r
            | None => Ok p
            end
        end
    end.
Proof.
  intros H. apply timed_patterns in H.
  destruct H as (H1 & H2 & H3 & H4 & H5 & H6 & H7 & H8 & H9 & H10).
  unfold branches, first_of, on_trendline, on_rtt_bwe, on_loss_bwe, on_loss_candidates,
    on_probe_result, on_probe_success, on_constraint_apply, on_delay_limit,
    on_receiver_limit, on_pushback.
  now rewrite H1, H2, H3, H4, H5, H6, H7, H8, H9, H10.
Qed.

(** ** What the capture groups hold *)

Lemma length_append (a b : string) :
  String.length (a +:+ b) = (String.length a + String.length b)%nat.
Proof. induction a as [|x a IH]; simpl; [reflexivity | now rewrite IH]. Qed.

Lemma consumed_app (w s : string) : consumed (w +:+ s) s = w.
Proof.
  unfold consumed. rewrite length_append.
  replace (String.length w + String.length s - String.length s)%nat
    with (String.length w) by lia.
  induction w as [|x w IH]; simpl.
  - now destruct s.
  - now rewrite IH.
Qed.

Lemma append_empty_r (s : string) : s +:+ "" = s.
Proof. induction s as [|a s IH]; simpl; [reflexivity | now rewrite IH]. Qed.

Lemma factor_refl (w : string) : factor w w.
Proof. exists "", "". simpl. now rewrite append_empty_r. Qed.

Lemma factor_app_l (v w1 w2 : string) : factor v w1 -> factor v (w1 +:+ w2).
Proof.
  intros (a & b & ->). exists a, (b +:+ w2). now rewrite !append_assoc.
Qed.

Lemma factor_app_r (v w1 w2 : string) : factor v w2 -> factor v (w1 +:+ w2).
Proof.
  intros (a & b & ->). exists (w1 +:+ a), b. now rewrite !append_assoc.
Qed.

Lemma captures_within_refl (r : regex) (w : string) (caps : captures) :
  captures_within r w caps caps.
Proof. intros n v H. now left. Qed.

Lemma match_re_sound_captures {A : Type} (r : regex) :
  forall (s : string) (caps : captures) (k : string -> captures -> option A) (x : A),
    match_re r s caps k = Some x ->
    exists w s' caps',
      s = w +:+ s' /\ lang r w /\ captures_within r w caps caps' /\ k s' caps' = Some x.
Proof.
  induction r as [p | c | c | c | n r IH | r1 IH1 r2 IH2 | r1 IH1 r2 IH2];
    intros s caps k x H; simpl in H.
  - destruct (strip_prefix p s) as [s'|] eqn:Hp; [| discriminate].
    exists p, s', caps. split; [now apply strip_prefix_sound |].
    split; [reflexivity |]. split; [apply captures_within_refl | assumption].
  - destruct s as [|a s]; [discriminate |].
    destruct (in_cset c a) eqn:Ha; [| discriminate].
    exists (String a ""), s, caps. simpl.
    split; [reflexivity |]. split; [eauto |].
    split; [apply captures_within_refl | assumption].
  - destruct s as [|a s]; [discriminate |].
    destruct (in_cset c a) eqn:Ha; [| discriminate].
    destruct (star_greedy_sound _ _ _ _ H) as (w & s' & -> & Hw & Hk).
    exists (String a w), s', caps. simpl. rewrite Ha, Hw.
    split; [reflexivity |]. split; [split; [discriminate | reflexivity] |].
    split; [apply captures_within_refl | assumption].
  - destruct (star_lazy_sound _ _ _ _ H) as (w & s' & -> & Hw & Hk).
    exists w, s', caps.
    split; [reflexivity |]. split; [assumption |].
    split; [apply captures_within_refl | assumption].
  - destruct (IH _ _ _ _ H) as (w & s' & caps' & -> & Hw & Hc & Hk).
    rewrite consumed_app in Hk.
    exists w, s', ((n, w) :: caps').
    split; [reflexivity |]. split; [assumption |]. split; [| assumption].
    intros m v Hg. simpl in Hg.
    destruct (Nat.eqb_spec n m) as [<- | Hne].
    + inversion Hg; subst. right. exists r. simpl.
      split; [auto |]. split; [assumption | apply factor_refl].
    + destruct (Hc _ _ Hg) as [Hold | (r' & Hin & Hl & Hf)]; [now left |].
      right. exists r'. simpl. auto.
  - destruct (IH1 _ _ _ _ H) as (w1 & s1 & caps1 & -> & Hw1 & Hc1 & Hk1).
    destruct (IH2 _ _ _ _ Hk1) as (w2 & s2 & caps2 & -> & Hw2 & Hc2 & Hk2).
    exists (w1 +:+ w2), s2, caps2.
    split; [symmetry; apply append_assoc |].
    split; [simpl; eauto |]. split; [| assumption].
    intros m v Hg.
    destruct (Hc2 _ _ Hg) as [Hmid | (r' & Hin & Hl & Hf)].
    + destruct (Hc1 _ _ Hmid) as [Hold | (r' & Hin & Hl & Hf)]; [now left |].
      right. exists r'. simpl. rewrite in_app_iff.
      split; [auto |]. split; [assumption | now apply factor_app_l].
    + right. exists r'. simpl. rewrite in_app_iff.
      split; [auto |]. split; [assumption | now apply factor_app_r].
  - destruct (match_re r1 s caps k) as [y|] eqn:H1.
    + inversion H; subst y.
      destruct (IH1 _ _ _ _ H1) as (w & s' & caps' & -> & Hw & Hc & Hk).
      exists w, s', caps'. split; [reflexivity |]. split; [simpl; auto |].
      split; [| assumption].
      intros m v Hg.
      destruct (Hc _ _ Hg) as [Hold | (r' & Hin & Hl & Hf)]; [now left |].
      right. exists r'. simpl. rewrite in_app_iff. auto.
    + destruct (IH2 _ _ _ _ H) as (w & s' & caps' & -> & Hw & Hc & Hk).
      exists w, s', caps'. split; [reflexivity |]. split; [simpl; auto |].
      split; [| assumption].
      intros m v Hg.
      destruct (Hc _ _ Hg) as [Hold | (r' & Hin & Hl & Hf)]; [now left |].
      right. exists r'. simpl. rewrite in_app_iff. auto.
Qed.

(** Every group of a match holds a text that the group denotes and that
    occurs in the text searched. *)
Lemma search_captures (r : regex) (s : string) (m : captures) (rest : string) :
  search r s = Some (m, rest) ->
  forall (n : nat) (v : string),
    group m n = Some v ->
    exists r', In (n, r') (groups_of r) /\ lang r' v /\ factor v s.
Proof.
  assert (At : forall s0, match_at r s0 = Some (m, rest) ->
                          forall n v, group m n = Some v ->
                                      exists r', In (n, r') (groups_of r) /\ lang r' v
                                                 /\ factor v s0).
  { intros s0 H n v Hg. apply match_re_sound_captures in H.
    destruct H as (w & s' & caps' & -> & _ & Hc & Hk).
    inversion Hk; subst.
    destruct (Hc _ _ Hg) as [Hnone | (r' & Hin & Hl & Hf)]; [discriminate Hnone |].
    exists r'. split; [assumption |]. split; [assumption | now apply factor_app_l]. }
  induction s as [|a s IH]; simpl; intros H.
  - destruct (match_at r "") as [[m' rest']|] eqn:Hm; [| discriminate].
    inversion H; subst. now apply At.
  - destruct (match_at r (String a s)) as [[m' rest']|] eqn:Hm.
    + inversion H; subst. now apply At.
    + intros n v Hg. destruct (IH H n v Hg) as (r' & Hin & Hl & Hf).
      exists r'. split; [assumption |]. split; [assumption |].
      now apply (factor_app_r v (String a "") s).
Qed.

Lemma digit_group_lang (r : regex) (n : nat) (r' : regex) (v : string) :
  digit_group r n = true -> In (n, r') (groups_of r) -> lang r' v ->
  v <> "" /\ str_forall is_digit v = true.
Proof.
  intros D Hin Hl. unfold digit_group in D. rewrite forallb_forall in D.
  specialize (D _ Hin). simpl in D. rewrite Nat.eqb_refl in D. simpl in D.
  destruct r' as [| | [] | | | |]; try discriminate D. exact Hl.
Qed.

Lemma digit_value (a : ascii) : is_digit a = true -> 0 <= Z.of_N (code a) - 48.
Proof.
  unfold is_digit. intros H. apply andb_prop in H. destruct H as [H _].
  apply N.leb_le in H. lia.
Qed.

Lemma int_digits_nonneg (s : string) :
  str_forall is_digit s = true -> forall acc, 0 <= acc -> 0 <= int_digits acc s.
Proof.
  induction s as [|a s IH]; simpl; intros H acc Hacc; [assumption |].
  apply andb_prop in H. destruct H as [Ha Hs].
  apply IH; [assumption |]. pose proof (digit_value _ Ha). lia.
Qed.

(** The value read from a [(\d+)] group is never negative. *)
Lemma int_capture_nonneg (r : regex) (line : string) (m : captures) (rest : string)
    (n : nat) :
  search r line = Some (m, rest) -> digit_group r n = true ->
  0 <= digits_value (grp m n).
Proof.
  intros H D. unfold grp, text.
  destruct (group m n) as [v|] eqn:G; [| reflexivity].
  destruct (search_captures _ _ _ _ H _ _ G) as (r' & Hin & Hl & _).
  destruct (digit_group_lang _ _ _ _ D Hin Hl) as [_ Hd].
  now apply int_digits_nonneg.
Qed.

Lemma line_timestamp_nonneg (line : string) (t : Z) :
  line_timestamp line = Some t -> 0 <= t.
Proof.
  unfold line_timestamp.
  destruct (search Patterns.timestamp line) as [[m rest]|] eqn:H; [| discriminate].
  intros E. inversion E; subst. clear E.
  pose proof (int_capture_nonneg _ _ _ _ 1 H eq_refl) as H1.
  pose proof (int_capture_nonneg _ _ _ _ 2 H eq_refl) as H2.
  unfold grp in H1, H2. unfold or_else.
  destruct (group m 1) as [[|a v]|]; simpl in *; assumption.
Qed.

(** ** Conversions that stay within the limit of [int] *)

Lemma digit_runs_from_tail (n : nat) (a b : string) :
  forall run : nat,
    digit_runs_from n run (a +:+ b) = true -> exists run', digit_runs_from n run' b = true.
Proof.
  induction a as [|x a IH]; intros run H; [simpl in H; eauto |].
  change (String x a +:+ b) with (String x (a +:+ b)) in H.
  cbn [digit_runs_from] in H.
  destruct (is_digit x).
  - apply andb_prop in H. destruct H as [_ H]. eauto.
  - eauto.
Qed.

Lemma digit_run_length (n : nat) (v b : string) :
  v <> "" -> str_forall is_digit v = true ->
  forall run : nat,
    digit_runs_from n run (v +:+ b) = true -> (run + String.length v <= n)%nat.
Proof.
  induction v as [|x v IH]; [contradiction |].
  intros _ Hd run H. simpl in Hd. apply andb_prop in Hd. destruct Hd as [Hx Hv].
  change (String x v +:+ b) with (String x (v +:+ b)) in H.
  cbn [digit_runs_from] in H. rewrite Hx in H.
  apply andb_prop in H. destruct H as [Hle H].
  apply Nat.leb_le in Hle.
  destruct v as [|y v].
  - simpl. lia.
  - assert (L : (S run + String.length (String y v) <= n)%nat)
      by (apply IH; [discriminate | assumption | assumption]).
    simpl in *. lia.
Qed.

(** A run of digits that occurs in a line is as short as every run of
    digits of the line. *)
Lemma factor_digits_length (n : nat) (v line : string) :
  digit_runs_within n line = true -> factor v line ->
  str_forall is_digit v = true -> (String.length v <= n)%nat.
Proof.
  intros H (a & b & ->) Hd.
  destruct v as [|x v]; [simpl; lia |].
  destruct (digit_runs_from_tail n a (String x v +:+ b) 0 H) as (run & Hrun).
  pose proof (digit_run_length n (String x v) b ltac:(discriminate) Hd run Hrun).
  lia.
Qed.

Lemma int_within (s : string) :
  (String.length s <= int_max_str_digits)%nat -> int s = Ok (digits_value s).
Proof. intros H. unfold int. apply Nat.leb_le in H. now rewrite H. Qed.

Lemma int_ok_value (s : string) (z : Z) : int s = Ok z -> z = digits_value s.
Proof. unfold int. destruct (Nat.leb _ _); [congruence | discriminate]. Qed.

(** On a line whose runs of digits are within the limit, [int] of a
    [(\d+)] group is its value. *)
Lemma int_capture (r : regex) (line : string) (m : captures) (rest : string) (n : nat) :
  search r line = Some (m, rest) ->
  digit_runs_within int_max_str_digits line = true ->
  digit_group r n = true ->
  int (grp m n) = Ok (digits_value (grp m n)).
Proof.
  intros H B D. apply int_within. unfold grp, text.
  destruct (group m n) as [v|] eqn:G; [| simpl; lia].
  destruct (search_captures _ _ _ _ H _ _ G) as (r' & Hin & Hl & Hf).
  destruct (digit_group_lang _ _ _ _ D Hin Hl) as [_ Hd].
  now apply (factor_digits_length _ v line).
Qed.

Lemma plain_line_digits (line : string) :
  plain_line line = true -> digit_runs_within int_max_str_digits line = true.
Proof. unfold plain_line. intros H. now apply andb_prop in H. Qed.

(** On such a line the timestamp statement completes. *)
Lemma observe_within (p : pass) (line : string) :
  digit_runs_within int_max_str_digits line = true ->
  observe_timestamp p line = Ok (observed p line).
Proof.
  intros B. unfold observe_timestamp, observed, line_timestamp.
  destruct (search Patterns.timestamp line) as [[m rest]|] eqn:H; [| reflexivity].
  pose proof (int_capture _ _ _ _ 1 H B eq_refl) as H1.
  pose proof (int_capture _ _ _ _ 2 H B eq_refl) as H2.
  unfold grp in H1, H2.
  assert (E : int (text (or_else (group m 1) (group m 2)))
              = Ok (digits_value (text (or_else (group m 1) (group m 2))))).
  { unfold or_else. destruct (group m 1) as [[|a v]|]; assumption. }
  now rewrite E.
Qed.

(** ** Legacy probe lines and the carried timestamp *)

Lemma last_observed_snoc (before : list string) (line : string) :
  last_observed (before ++ [line]) = carry (last_observed before) line.
Proof. unfold last_observed. now rewrite fold_left_app. Qed.

Lemma fresh_run_last_timestamp (lines : list string) (p : pass) :
  process_lines fresh lines = Ok p -> last_timestamp p = last_observed lines.
Proof. intros H. now rewrite (process_lines_last_timestamp _ _ _ H). Qed.

Lemma legacy_blocks_idle (p : pass) (line : string) :
  last_timestamp p = None ->
  on_probe_result_old p line = None /\ on_probe_success_old p line = None.
Proof.
  intros H. unfold on_probe_result_old, on_probe_success_old. rewrite H.
  split.
  - now destruct (search Patterns.probe_result_old line) as [[? ?]|].
  - now destruct (search Patterns.probe_success_old line) as [[? ?]|].
Qed.

(** A line without a timestamp whose runs of digits are within the limit
    of [int], read while no timestamp is known, is completed without an
    exception and leaves the probe rows as they are. *)
Lemma untimed_line_no_probe (p : pass) (line : string) :
  last_timestamp p = None ->
  search Patterns.timestamp line = None ->
  digit_runs_within int_max_str_digits line = true ->
  exists p', process_line p line = Ok p'
             /\ probe_data p' = probe_data p /\ last_timestamp p' = None.
Proof.
  intros Hp Hts B. unfold process_line.
  rewrite (observe_within p line B). unfold observed.
  rewrite (proj2 (line_timestamp_none line) Hts). cbn [bind].
  rewrite (untimed_line _ _ Hts).
  destruct (legacy_blocks_idle p line Hp) as [-> ->].
  unfold on_decision.
  destruct (search Patterns.decision line) as [[m rest]|] eqn:D; [| eauto].
  rewrite (int_capture _ _ _ _ 1 D B eq_refl). cbn [bind]. eauto.
Qed.

(** C1 (amended).  In a single forward pass over lines of ASCII text, take
    a line whose runs of digits are within the limit of [int], that none
    of the six patterns tried first (Trendline, RttBWE-Update,
    LossBWE-Estimate, LossBWE-Candidates, timestamped ProbeBWE-Result and
    ProbeBWE-Success) matches and that matches a legacy probe grammar.  If
    no timestamp ([Time: N ms] or [at N ms]) has been observed on an
    earlier or the same line, the line is dropped: the iteration completes
    without an exception and adds no probe row.  If the most recently
    observed timestamp is a non-zero [t], one probe row is appended, with
    timestamp [t], the captured cluster id and estimate, and the legacy
    source tag. *)
Theorem legacy_probe_uses_last_timestamp
    (before : list string) (line : string) (p : pass) (m : captures) (source : string) :
  Forall (fun l => ascii_text l = true) before ->
  plain_line line = true ->
  process_lines fresh before = Ok p ->
  search Patterns.trendline line = None ->
  search Patterns.rtt_bwe line = None ->
  search Patterns.loss_bwe line = None ->
  search Patterns.loss_candidates line = None ->
  search Patterns.probe_result line = None ->
  search Patterns.probe_success line = None ->
  legacy_match line = Some (m, source) ->
  (last_observed (before ++ [line]) = None ->
   exists p', process_line p line = Ok p' /\ probe_data p' = probe_data p)
  /\ (forall t : Z,
        last_observed (before ++ [line]) = Some t -> t <> 0 ->
        process_line p line =
          Ok (append_probe
                {| Probe.timestamp := t;
                   Probe.cluster_id := digits_value (grp m 1);
                   Probe.estimate := digits_value (grp m 2);
                   Probe.source := source |}
                (observed p line))).
Proof.
  intros _ Hplain Hrun H1 H2 H3 H4 H5 H6 Hleg.
  pose proof (plain_line_digits _ Hplain) as B.
  rewrite last_observed_snoc, <- (fresh_run_last_timestamp _ _ Hrun).
  split.
  - intros Hnone. unfold carry in Hnone.
    destruct (line_timestamp line) eqn:Hl; [discriminate |].
    apply line_timestamp_none in Hl.
    destruct (untimed_line_no_probe p line Hnone Hl B) as (p' & Hp' & Hprobe & _).
    eauto.
  - intros t Ht Hnz. rewrite <- observe_last_timestamp in Ht.
    unfold process_line. rewrite (observe_within p line B). cbn [bind].
    set (q := observed p line) in *.
    unfold branches, first_of, on_trendline, on_rtt_bwe, on_loss_bwe, on_loss_candidates,
      on_probe_result, on_probe_success.
    rewrite H1, H2, H3, H4, H5, H6.
    unfold on_probe_result_old, on_probe_success_old. rewrite Ht.
    assert (Htruthy : truthy (Some t) = true).
    { simpl. now destruct (Z.eqb_spec t 0). }
    rewrite Htruthy. unfold legacy_match in Hleg.
    destruct (search Patterns.probe_result_old line) as [[m1 r1]|] eqn:S1.
    + inversion Hleg; subst.
      now rewrite (int_capture _ _ _ _ 1 S1 B eq_refl),
        (int_capture _ _ _ _ 2 S1 B eq_refl).
    + destruct (search Patterns.probe_success_old line) as [[m2 r2]|] eqn:S2;
        [| discriminate].
      inversion Hleg; subst.
      now rewrite (int_capture _ _ _ _ 1 S2 B eq_refl),
        (int_capture _ _ _ _ 2 S2 B eq_refl).
Qed.

(** The carry-forward example of the specification: a legacy result line
    after a line that carries [Time: 100 ms] gets the timestamp 100. *)
Lemma legacy_probe_uses_last_timestamp_witness :
  process_line
    {| trendline_data := []; rtt_data := []; loss_data := []; probe_data := [];
       decision_data := []; constraint_apply_data := []; delay_limit_data := [];
       receiver_limit_data := []; config_limit_data := []; pushback_data := [];
       last_timestamp := Some 100 |}
    "[ProbeBWE-Result] Cluster ID: 3, Final estimate: 5000 bps"
  = Ok {| trendline_data := []; rtt_data := []; loss_data := [];
          probe_data := [ {| Probe.timestamp := 100; Probe.cluster_id := 3;
                             Probe.estimate := 5000; Probe.source := "result_old" |} ];
          decision_data := []; constraint_apply_data := []; delay_limit_data := [];
          receiver_limit_data := []; config_limit_data := []; pushback_data := [];
          last_timestamp := Some 100 |}.
Proof.
  refine (proj2
    (legacy_probe_uses_last_timestamp
       [ "Time: 100 ms ..." +:+ String newline "" ]
       "[ProbeBWE-Result] Cluster ID: 3, Final estimate: 5000 bps"
       _ [ (2%nat, "5000"); (1%nat, "3") ] "result_old"
       _ _ _ _ _ _ _ _ _ _) 100 _ _).
  - repeat constructor.
  - vm_compute. reflexivity.
  - vm_compute. reflexivity.
  - vm_compute. reflexivity.
  - vm_compute. reflexivity.
  - vm_compute. reflexivity.
  - vm_compute. reflexivity.
  - vm_compute. reflexivity.
  - vm_compute. reflexivity.
  - vm_compute. reflexivity.
  - vm_compute. reflexivity.
  - lia.
Defined.

(** C1, the claim as first stated fails: this line matches the legacy
    result grammar and carries a timestamp, yet the RttBWE-Update block
    takes it and no probe row is emitted. *)
Lemma legacy_probe_counterexample :
  let line := "[RttBWE-Update] Time: 1 ms, PropagationRtt: 1 ms, CorrectedRtt: 1 ms, RttLimit: 1 ms, AboveLimit: true [ProbeBWE-Result] Cluster ID: 3, Final estimate: 5000 bps" in
  search Patterns.probe_result_old line
    = Some ([ (2%nat, "5000"); (1%nat, "3") ], "")
  /\ last_observed [line] = Some 1
  /\ exists p', process_lines fresh [line] = Ok p' /\ probe_data p' = [].
Proof.
  cbv zeta. split; [vm_compute; reflexivity |]. split; [vm_compute; reflexivity |].
  eexists. split; [vm_compute; reflexivity | reflexivity].
Qed.

(** The test [and last_timestamp] is a truth test: after a line that carries
    [Time: 0 ms] the carried timestamp is 0, and the legacy line is dropped
    as if none had been observed. *)
Example legacy_probe_after_zero_timestamp :
  let lines := [ "Time: 0 ms ..." +:+ String newline "";
                 "[ProbeBWE-Result] Cluster ID: 3, Final estimate: 5000 bps" ] in
  last_observed lines = Some 0
  /\ exists p, process_lines fresh lines = Ok p /\ probe_data p = [].
Proof.
  cbv zeta. split; [vm_compute; reflexivity |].
  eexists. split; [vm_compute; reflexivity | reflexivity].
Qed.

(** ** The decision classifier *)







(** ** Numeric fields of a Trendline line *)

(** What the Trendline block guarantees on a line whose runs of digits are
    within the limit of [int]: it does not raise, the modified trend is
    0.0 when its text is [nan] or is no number, and the threshold is 0.0
    when its text is no number. *)
Lemma trendline_fields (p : pass) (line : string) (m : captures) (rest : string) :
  digit_runs_within int_max_str_digits line = true ->
  search Patterns.trendline line = Some (m, rest) ->
  exists row : Trendline.row,
    process_line p line = Ok (append_trendline row (observed p line))
    /\ (grp m 2 = "nan" \/ float (grp m 2) = None ->
        Trendline.modified_trend row = FNum 0)
    /\ (float (grp m 3) = None -> Trendline.threshold row = FNum 0).
Proof.
  intros B H. unfold process_line. rewrite (observe_within p line B). cbn [bind].
  unfold branches, first_of, on_trendline. rewrite H.
  rewrite (int_capture _ _ _ _ 1 H B eq_refl). cbn [bind].
  eexists. split; [reflexivity |]. simpl. split.
  - intros [E | E].
    + now rewrite E.
    + rewrite E. now destruct (negb _).
  - intros E. now rewrite E.
Qed.

(** C3, at the failing input.  On a Trendline line whose two numeric fields
    both read [nan], the modified trend becomes 0.0 but the threshold
    becomes NaN: [float('nan')] succeeds, and only the modified trend is
    compared with the text [nan] first. *)
Theorem trendline_threshold_nan :
  process_line fresh
    "[Trendline] Time: 5 ms, Modified trend: nan, Threshold: nan, State: kBwNormal"
  = Ok (append_trendline
          {| Trendline.timestamp := 5;
             Trendline.modified_trend := FNum 0;
             Trendline.threshold := FNan;
             Trendline.state := "kBwNormal" |}
          (set_last_timestamp (Some 5) fresh)).
Proof. vm_compute. reflexivity. Qed.

(** ** Reading the file *)

(** C6, at the failing input.  A log holding one well-formed line and then
    the byte 0xFF, which no UTF-8 text contains, ends the run with a
    decoding error: the file is opened with the strict error handler. *)
Theorem undecodable_byte_fails_run :
  fst (parse_log_file
         {| log_file_path := "sender_cloud.log" |}
         {| files := fun _ =>
              Some ("[Trendline] Time: 5 ms, Modified trend: 1, Threshold: 2, State: x"
                    +:+ String newline (String (ascii_of_N 255) (String newline "")));
            stdout := [] |})
  = Raise UnicodeDecodeError.
Proof. vm_compute. reflexivity. Qed.

(** ** Runs do not influence one another *)

Lemma print_files (msg : string) (w : world) : files (print msg w) = files w.
Proof. reflexivity. Qed.

Lemma parse_log_file_files (self : GccDecisionAnalyzer) (w : world) :
  files (snd (parse_log_file self w)) = files w.
Proof.
  unfold parse_log_file.
  destruct (bind _ _); reflexivity.
Qed.

(** The tables depend on the bytes of the log file and on nothing else. *)
Lemma parse_log_file_result (self : GccDecisionAnalyzer) (w : world) :
  fst (parse_log_file self w) =
    match files w (log_file_path self) with
    | None => Raise FileNotFoundError
    | Some bytes =>
        let! text := decode_utf8 bytes in
        let! p := process_lines fresh (split_lines (universal_newlines text)) in
        Ok (to_dict p)
    end.
Proof.
  unfold parse_log_file, read_lines, open_read.
  rewrite print_files.
  destruct (files w (log_file_path self)) as [bytes|]; [| reflexivity].
  unfold bind at 2 3.
  destruct (decode_utf8 bytes) as [text|]; [| reflexivity].
  unfold bind.
  destruct (process_lines fresh _); reflexivity.
Qed.

Lemma undecodable_file_fails (self : GccDecisionAnalyzer) (w : world) (bytes : string) :
  files w (log_file_path self) = Some bytes ->
  utf8_ok 0 128 191 bytes = false ->
  fst (parse_log_file self w) = Raise UnicodeDecodeError.
Proof.
  intros Hf Hbad. rewrite parse_log_file_result, Hf.
  unfold decode_utf8. now rewrite Hbad.
Qed.

(** The loop itself does depend on the timestamp it starts with: started
    with a carried timestamp, a legacy probe line is kept; started from
    [fresh], it is dropped.  Runs agree because each one starts from
    [fresh]. *)
Example carried_timestamp_matters :
  let legacy := "[ProbeBWE-Result] Cluster ID: 3, Final estimate: 5000 bps" in
  (exists p, process_lines (set_last_timestamp (Some 7) fresh) [legacy] = Ok p
             /\ length (probe_data p) = 1%nat)
  /\ (exists p, process_lines fresh [legacy] = Ok p /\ probe_data p = []).
Proof.
  cbv zeta. split; eexists; (split; [vm_compute; reflexivity | reflexivity]).
Qed.

(** A line without a timestamp that the snapshot pattern does not match,
    read while no timestamp is known, changes nothing. *)
Lemma untimed_line_dropped (p : pass) (line : string) :
  last_timestamp p = None ->
  line_timestamp line = None ->
  search Patterns.decision line = None ->
  process_line p line = Ok p.
Proof.
  intros Hp Hl Hd. pose proof (proj1 (line_timestamp_none line) Hl) as Hts.
  unfold process_line, observe_timestamp. rewrite Hts. cbn [bind].
  rewrite (untimed_line _ _ Hts).
  destruct (legacy_blocks_idle p line Hp) as [-> ->].
  unfold on_decision. now rewrite Hd.
Qed.

(** The same line read while a non-zero timestamp is carried: a legacy
    probe line is kept, with that timestamp. *)
Lemma untimed_legacy_kept (p : pass) (line : string) (m : captures) (source : string)
    (t : Z) :
  last_timestamp p = Some t -> t <> 0 ->
  digit_runs_within int_max_str_digits line = true ->
  line_timestamp line = None ->
  legacy_match line = Some (m, source) ->
  process_line p line =
    Ok (append_probe
          {| Probe.timestamp := t;
             Probe.cluster_id := digits_value (grp m 1);
             Probe.estimate := digits_value (grp m 2);
             Probe.source := source |} p).
Proof.
  intros Hp Hnz B Hl Hleg. pose proof (proj1 (line_timestamp_none line) Hl) as Hts.
  unfold process_line, observe_timestamp. rewrite Hts. cbn [bind].
  rewrite (untimed_line _ _ Hts).
  unfold on_probe_result_old, on_probe_success_old. rewrite Hp.
  assert (Htruthy : truthy (Some t) = true).
  { simpl. now destruct (Z.eqb_spec t 0). }
  rewrite Htruthy. unfold legacy_match in Hleg.
  destruct (search Patterns.probe_result_old line) as [[m1 r1]|] eqn:S1.
  - inversion Hleg; subst.
    now rewrite (int_capture _ _ _ _ 1 S1 B eq_refl), (int_capture _ _ _ _ 2 S1 B eq_refl).
  - destruct (search Patterns.probe_success_old line) as [[m2 r2]|] eqn:S2;
      [| discriminate].
    inversion Hleg; subst.
    now rewrite (int_capture _ _ _ _ 1 S2 B eq_refl), (int_capture _ _ _ _ 2 S2 B eq_refl).
Qed.

(** C8.  Parsing is repeatable: a second run of [parse_log_file], started in
    the world the first run left behind, returns the same tables (or ends
    with the same exception) as the first; and so does a run in any world
    whose log file has the same contents.  No carried timestamp survives
    from one run to the next: when the log begins with a legacy probe line
    (ASCII text, runs of digits within the limit of [int], no timestamp of
    its own, no snapshot), the second run drops that line as the first
    did, so that its tables are those of the rest of the log, although the
    loop would keep the line, with timestamp [t], if it were entered with
    a carried timestamp [t] other than 0. *)
Theorem parse_twice_identical (self : GccDecisionAnalyzer) (w : world) :
  fst (parse_log_file self (snd (parse_log_file self w))) = fst (parse_log_file self w)
  /\ (forall w' : world,
        files w' (log_file_path self) = files w (log_file_path self) ->
        fst (parse_log_file self w') = fst (parse_log_file self w))
  /\ (forall (bytes text legacy : string) (rest : list string)
             (m : captures) (source : string),
        files w (log_file_path self) = Some bytes ->
        decode_utf8 bytes = Ok text ->
        split_lines (universal_newlines text) = legacy :: rest ->
        plain_line legacy = true ->
        line_timestamp legacy = None ->
        search Patterns.decision legacy = None ->
        legacy_match legacy = Some (m, source) ->
        fst (parse_log_file self (snd (parse_log_file self w)))
        = (let! p := process_lines fresh rest in Ok (to_dict p))
        /\ forall (p : pass) (t : Z),
             last_timestamp p = Some t -> t <> 0 ->
             process_line p legacy =
               Ok (append_probe
                     {| Probe.timestamp := t;
                        Probe.cluster_id := digits_value (grp m 1);
                        Probe.estimate := digits_value (grp m 2);
                        Probe.source := source |} p)).
Proof.
  assert (H : forall w' : world,
             files w' (log_file_path self) = files w (log_file_path self) ->
             fst (parse_log_file self w') = fst (parse_log_file self w)).
  { intros w' E. now rewrite !parse_log_file_result, E. }
  assert (Again : fst (parse_log_file self (snd (parse_log_file self w)))
                  = fst (parse_log_file self w)).
  { apply H. now rewrite parse_log_file_files. }
  split; [exact Again |]. split; [exact H |].
  intros bytes text legacy rest m source Hf Hdec Hlines Hplain Hl Hd Hleg. split.
  - rewrite Again, parse_log_file_result, Hf, Hdec. cbn [bind]. rewrite Hlines.
    cbn [process_lines].
    now rewrite (untimed_line_dropped fresh legacy eq_refl Hl Hd).
  - intros p t Hp Hnz.
    exact (untimed_legacy_kept p legacy m source t Hp Hnz
             (plain_line_digits _ Hplain) Hl Hleg).
Qed.

Lemma parse_twice_identical_witness :
  let self := {| log_file_path := "sender_cloud.log" |} in
  let legacy := "[ProbeBWE-Result] Cluster ID: 3, Final estimate: 5000 bps" +:+ String newline "" in
  let timed := "Time: 100 ms ..." +:+ String newline "" in
  let w := {| files := fun _ => Some (legacy +:+ timed); stdout := [] |} in
  (exists p, process_lines fresh [legacy; timed] = Ok p /\ last_timestamp p = Some 100)
  /\ fst (parse_log_file self (snd (parse_log_file self w)))
     = (let! p := process_lines fresh [timed] in Ok (to_dict p)).
Proof.
  cbv zeta. split.
  - eexists. split; [vm_compute; reflexivity | reflexivity].
  - refine (proj1 (proj2 (proj2 (parse_twice_identical
              {| log_file_path := "sender_cloud.log" |}
              {| files := fun _ =>
                   Some (("[ProbeBWE-Result] Cluster ID: 3, Final estimate: 5000 bps"
                          +:+ String newline "")
                         +:+ ("Time: 100 ms ..." +:+ String newline ""));
                 stdout := [] |}))
              (("[ProbeBWE-Result] Cluster ID: 3, Final estimate: 5000 bps"
                +:+ String newline "")
               +:+ ("Time: 100 ms ..." +:+ String newline ""))
              (("[ProbeBWE-Result] Cluster ID: 3, Final estimate: 5000 bps"
                +:+ String newline "")
               +:+ ("Time: 100 ms ..." +:+ String newline ""))
              ("[ProbeBWE-Result] Cluster ID: 3, Final estimate: 5000 bps"
               +:+ String newline "")
              [ "Time: 100 ms ..." +:+ String newline "" ]
              [ (2%nat, "5000"); (1%nat, "3") ] "result_old"
              _ _ _ _ _ _ _)).
    + reflexivity.
    + vm_compute. reflexivity.
    + vm_compute. reflexivity.
    + vm_compute. reflexivity.
    + vm_compute. reflexivity.
    + vm_compute. reflexivity.
    + vm_compute. reflexivity.
Defined.

(** ** Candidate lists *)

Lemma lstrip_blank (x : string) :
  str_forall is_space x = true -> lstrip_by is_space x = "".
Proof.
  induction x as [|a x IH]; simpl; [reflexivity |].
  intros H. apply andb_prop in H. destruct H as [Ha Hx]. rewrite Ha. auto.
Qed.

Lemma strip_blank (x : string) : str_forall is_space x = true -> strip x = "".
Proof. intros H. unfold strip. now rewrite lstrip_blank. Qed.

Lemma split_blank (cs : string) :
  blank_list cs = true ->
  Forall (fun x => str_forall is_space x = true) (split "," cs).
Proof.
  unfold blank_list. induction cs as [|a cs IH]; simpl; intros H.
  - repeat constructor.
  - apply andb_prop in H. destruct H as [Ha Hcs]. specialize (IH Hcs).
    destruct (Ascii.eqb a ",") eqn:E.
    + constructor; [reflexivity | assumption].
    + rewrite orb_false_r in Ha.
      destruct (split "," cs) as [|piece pieces].
      * repeat constructor. simpl. now rewrite Ha.
      * inversion IH; subst. constructor; [| assumption].
        simpl. now rewrite Ha.
Qed.

Lemma filter_blank (pieces : list string) :
  Forall (fun x => str_forall is_space x = true) pieces ->
  filter (fun x => nonempty (rstrip_comma (strip x))) pieces = [].
Proof.
  induction 1 as [|x pieces Hx _ IH]; simpl; [reflexivity |].
  now rewrite (strip_blank _ Hx).
Qed.

Lemma parse_candidates_blank (cs : string) :
  blank_list cs = true -> parse_candidates cs = Ok [].
Proof.
  intros H. unfold parse_candidates.
  now rewrite (filter_blank _ (split_blank _ H)).
Qed.

(** The loop body on a line that reaches the candidates block. *)
Lemma reaches_candidates (p : pass) (line : string) (m : captures) (rest : string) :
  search Patterns.trendline line = None ->
  search Patterns.rtt_bwe line = None ->
  search Patterns.loss_bwe line = None ->
  search Patterns.loss_candidates line = Some (m, rest) ->
  process_line p line =
    let! q := observe_timestamp p line in
    let! timestamp := int (grp m 1) in
    let! candidates := parse_candidates (grp m 2) in
    let! bandwidth := candidates_bandwidth candidates in
    Ok (append_loss
          {| Loss.timestamp := timestamp;
             Loss.state := -1;
             Loss.bandwidth := bandwidth;
             Loss.observations := Z.of_nat (length candidates);
             Loss.candidates := Some candidates |} q).
Proof.
  intros H1 H2 H3 H4.
  unfold process_line, branches, first_of, on_trendline, on_rtt_bwe, on_loss_bwe,
    on_loss_candidates.
  now rewrite H1, H2, H3, H4.
Qed.

(** The same on a line whose runs of digits are within the limit of [int]:
    the two conversions to [int] complete. *)
Lemma reaches_candidates_within (p : pass) (line : string) (m : captures) (rest : string) :
  digit_runs_within int_max_str_digits line = true ->
  search Patterns.trendline line = None ->
  search Patterns.rtt_bwe line = None ->
  search Patterns.loss_bwe line = None ->
  search Patterns.loss_candidates line = Some (m, rest) ->
  process_line p line =
    let! candidates := parse_candidates (grp m 2) in
    let! bandwidth := candidates_bandwidth candidates in
    Ok (append_loss
          {| Loss.timestamp := digits_value (grp m 1);
             Loss.state := -1;
             Loss.bandwidth := bandwidth;
             Loss.observations := Z.of_nat (length candidates);
             Loss.candidates := Some candidates |} (observed p line)).
Proof.
  intros B H1 H2 H3 H4.
  rewrite (reaches_candidates p line m rest H1 H2 H3 H4). cbv zeta.
  rewrite (observe_within p line B). cbn [bind].
  now rewrite (int_capture _ _ _ _ 1 H4 B eq_refl).
Qed.

(** X15.  The maximum is not taken over an empty list: on a line of ASCII
    text with runs of digits within the limit of [int] that reaches the
    candidates block and whose candidate text consists of commas and blanks
    only, one record is appended with bandwidth 0, observations 0, state -1
    and an empty candidates list. *)
Theorem blank_candidates_guarded
    (p : pass) (line : string) (m : captures) (rest : string) :
  plain_line line = true ->
  search Patterns.trendline line = None ->
  search Patterns.rtt_bwe line = None ->
  search Patterns.loss_bwe line = None ->
  search Patterns.loss_candidates line = Some (m, rest) ->
  blank_list (grp m 2) = true ->
  process_line p line =
    Ok (append_loss
          {| Loss.timestamp := digits_value (grp m 1);
             Loss.state := -1;
             Loss.bandwidth := 0;
             Loss.observations := 0;
             Loss.candidates := Some [] |}
          (observed p line)).
Proof.
  intros Hplain H1 H2 H3 H4 Hblank.
  rewrite (reaches_candidates_within p line m rest (plain_line_digits _ Hplain) H1 H2 H3 H4).
  now rewrite (parse_candidates_blank _ Hblank).
Qed.

Lemma blank_candidates_guarded_witness :
  process_line fresh "[LossBWE-Candidates] Time: 5 ms, Candidate Bandwidths (kbps): , , "
  = Ok (append_loss
          {| Loss.timestamp := 5; Loss.state := -1; Loss.bandwidth := 0;
             Loss.observations := 0; Loss.candidates := Some [] |}
          (set_last_timestamp (Some 5) fresh)).
Proof.
  refine (blank_candidates_guarded fresh
            "[LossBWE-Candidates] Time: 5 ms, Candidate Bandwidths (kbps): , , "
            [ (2%nat, ", , "); (1%nat, "5") ] "" _ _ _ _ _ _);
    vm_compute; reflexivity.
Defined.

(** C10, at the failing input.  A LossBWE-Candidates line whose candidate
    text is [abc] holds no parseable number; the entry is not filtered out,
    [float] raises, nothing catches the [ValueError], and the run over a log
    that holds this line returns no table.  The Trendline block does guard
    its float conversions: the same text in its two numeric fields gives
    0.0 twice. *)
Theorem unparseable_candidates_end_run :
  let line := "[LossBWE-Candidates] Time: 5 ms, Candidate Bandwidths (kbps): abc" in
  search Patterns.loss_candidates line = Some ([ (2%nat, "abc"); (1%nat, "5") ], "")
  /\ map (fun x => float (rstrip_comma (strip x))) (split "," "abc") = [None]
  /\ process_line fresh line = Raise ValueError
  /\ fst (parse_log_file
            {| log_file_path := "sender_cloud.log" |}
            {| files := fun _ =>
                 Some ("[LossBWE-Estimate] Time: 4 ms, State: 2, Bandwidth: 500000 bps, Observations: 12"
                       +:+ String newline line +:+ String newline "");
               stdout := [] |})
     = Raise ValueError
  /\ process_line fresh
       "[Trendline] Time: 5 ms, Modified trend: abc, Threshold: abc, State: kBwNormal"
     = Ok (append_trendline
             {| Trendline.timestamp := 5;
                Trendline.modified_trend := FNum 0;
                Trendline.threshold := FNum 0;
                Trendline.state := "kBwNormal" |}
             (set_last_timestamp (Some 5) fresh)).
Proof. cbv zeta. repeat split; vm_compute; reflexivity. Qed.

(** Candidate rows never enter the estimate statistics. *)
Lemma estimates_skip_candidate (before after : list Loss.row) (c : Loss.row) :
  Loss.state c = -1 ->
  estimates_df (before ++ c :: after) = estimates_df (before ++ after).
Proof.
  intros Hc. unfold estimates_df.
  rewrite !filter_app. simpl. now rewrite Hc.
Qed.

(** C5 (amended).  For every line of ASCII text whose runs of digits are
    within the limit of [int], that the Trendline, RttBWE-Update and
    LossBWE-Estimate patterns do not match and the LossBWE-Candidates
    pattern matches with the candidate list [100, 200, 300], exactly one
    loss record is appended, with state -1, 3 observations and bandwidth
    300000 bps (the largest candidate times 1000); and a record with state
    -1 never enters the estimate table or the loss statistics computed
    from it. *)
Theorem candidates_record
    (p : pass) (line : string) (m : captures) (rest : string) :
  plain_line line = true ->
  search Patterns.trendline line = None ->
  search Patterns.rtt_bwe line = None ->
  search Patterns.loss_bwe line = None ->
  search Patterns.loss_candidates line = Some (m, rest) ->
  grp m 2 = "100, 200, 300" ->
  process_line p line =
    Ok (append_loss
          {| Loss.timestamp := digits_value (grp m 1);
             Loss.state := -1;
             Loss.bandwidth := 300000;
             Loss.observations := 3;
             Loss.candidates := Some [FNum 100; FNum 200; FNum 300] |}
          (observed p line))
  /\ (forall (before after : list Loss.row) (c : Loss.row),
        Loss.state c = -1 ->
        ~ In c (estimates_df (before ++ c :: after))
        /\ estimates_df (before ++ c :: after) = estimates_df (before ++ after)
        /\ loss_statistics (before ++ c :: after) = loss_statistics (before ++ after)).
Proof.
  intros Hplain H1 H2 H3 H4 Hlist. split.
  - rewrite (reaches_candidates_within p line m rest (plain_line_digits _ Hplain)
               H1 H2 H3 H4), Hlist.
    reflexivity.
  - intros before after c Hc. repeat split.
    + unfold estimates_df. rewrite filter_In, Hc. intros [_ H]. discriminate H.
    + now apply estimates_skip_candidate.
    + unfold loss_statistics. now rewrite (estimates_skip_candidate _ _ _ Hc).
Qed.

Lemma candidates_record_witness :
  process_line fresh
    "[LossBWE-Candidates] Time: 5 ms, Candidate Bandwidths (kbps): 100, 200, 300"
  = Ok (append_loss
          {| Loss.timestamp := 5; Loss.state := -1; Loss.bandwidth := 300000;
             Loss.observations := 3;
             Loss.candidates := Some [FNum 100; FNum 200; FNum 300] |}
          (set_last_timestamp (Some 5) fresh)).
Proof.
  refine (proj1 (candidates_record fresh
            "[LossBWE-Candidates] Time: 5 ms, Candidate Bandwidths (kbps): 100, 200, 300"
            [ (2%nat, "100, 200, 300"); (1%nat, "5") ] "" _ _ _ _ _ _));
    vm_compute; reflexivity.
Defined.

(** C5, the claim as first stated fails: this line matches the
    LossBWE-Candidates grammar with the list [100, 200, 300], yet the
    Trendline block takes it and no loss record is appended. *)
Lemma candidates_record_counterexample :
  let line := "[Trendline] Time: 1 ms, Modified trend: 1, Threshold: 2, State: x [LossBWE-Candidates] Time: 5 ms, Candidate Bandwidths (kbps): 100, 200, 300" in
  search Patterns.loss_candidates line
    = Some ([ (2%nat, "100, 200, 300"); (1%nat, "5") ], "")
  /\ exists p', process_line fresh line = Ok p' /\ loss_data p' = [].
Proof.
  cbv zeta. split; [vm_compute; reflexivity |].
  eexists. split; [vm_compute; reflexivity | reflexivity].
Qed.

(** ** Precedence of the probe patterns *)

(** C4 (amended).  For every line of ASCII text whose runs of digits are
    within the limit of [int], that none of the four patterns tried first
    (Trendline, RttBWE-Update, LossBWE-Estimate, LossBWE-Candidates)
    matches and that matches both the timestamped and the legacy
    probe-result grammar, exactly one probe event is emitted: it has source
    [result] and the inline timestamp, and the legacy block does not fire.
    More generally, an iteration that completes adds at most one row over
    all the collections. *)
Theorem timestamped_probe_wins
    (p : pass) (line : string) (m : captures) (rest : string)
    (m_old : captures) (rest_old : string) :
  plain_line line = true ->
  search Patterns.trendline line = None ->
  search Patterns.rtt_bwe line = None ->
  search Patterns.loss_bwe line = None ->
  search Patterns.loss_candidates line = None ->
  search Patterns.probe_result line = Some (m, rest) ->
  search Patterns.probe_result_old line = Some (m_old, rest_old) ->
  process_line p line =
    Ok (append_probe
          {| Probe.timestamp := digits_value (grp m 1);
             Probe.cluster_id := digits_value (grp m 2);
             Probe.estimate := digits_value (grp m 3);
             Probe.source := "result" |}
          (observed p line))
  /\ (forall (q : pass) (l : string) (q' : pass),
        process_line q l = Ok q' ->
        total_events q' = total_events q \/ total_events q' = S (total_events q)).
Proof.
  intros Hplain H1 H2 H3 H4 H5 _. pose proof (plain_line_digits _ Hplain) as B. split.
  - unfold process_line. rewrite (observe_within p line B). cbn [bind].
    unfold branches, first_of, on_trendline, on_rtt_bwe, on_loss_bwe,
      on_loss_candidates, on_probe_result.
    rewrite H1, H2, H3, H4, H5.
    now rewrite (int_capture _ _ _ _ 1 H5 B eq_refl), (int_capture _ _ _ _ 2 H5 B eq_refl),
      (int_capture _ _ _ _ 3 H5 B eq_refl).
  - intros q l q' H.
    assert (T : total_events (observed q l) = total_events q).
    { unfold observed. now destruct (line_timestamp l). }
    destruct (process_line_emits _ _ _ H) as [-> | E].
    + now left.
    + right. now rewrite (emitted_total_events _ _ E), T.
Qed.

Lemma timestamped_probe_wins_witness :
  process_line fresh
    "[ProbeBWE-Result] Time: 5 ms, Cluster ID: 3, Final estimate: 7 bps [ProbeBWE-Result] Cluster ID: 4, Final estimate: 8 bps"
  = Ok (append_probe
          {| Probe.timestamp := 5; Probe.cluster_id := 3; Probe.estimate := 7;
             Probe.source := "result" |}
          (set_last_timestamp (Some 5) fresh)).
Proof.
  refine (proj1 (timestamped_probe_wins fresh
            "[ProbeBWE-Result] Time: 5 ms, Cluster ID: 3, Final estimate: 7 bps [ProbeBWE-Result] Cluster ID: 4, Final estimate: 8 bps"
            [ (3%nat, "7"); (2%nat, "3"); (1%nat, "5") ] _
            [ (2%nat, "8"); (1%nat, "4") ] "" _ _ _ _ _ _ _));
    vm_compute; reflexivity.
Defined.

(** C4, the claim as first stated fails: this line matches both probe-result
    grammars, yet the Trendline block takes it and no probe event is
    emitted. *)
Lemma timestamped_probe_counterexample :
  let line := "[Trendline] Time: 1 ms, Modified trend: 1, Threshold: 2, State: x [ProbeBWE-Result] Time: 5 ms, Cluster ID: 3, Final estimate: 7 bps [ProbeBWE-Result] Cluster ID: 4, Final estimate: 8 bps" in
  search Patterns.probe_result line
    = Some ([ (3%nat, "7"); (2%nat, "3"); (1%nat, "5") ],
            " [ProbeBWE-Result] Cluster ID: 4, Final estimate: 8 bps")
  /\ search Patterns.probe_result_old line = Some ([ (2%nat, "8"); (1%nat, "4") ], "")
  /\ exists p', process_line fresh line = Ok p' /\ probe_data p' = [].
Proof.
  cbv zeta. split; [vm_compute; reflexivity |]. split; [vm_compute; reflexivity |].
  eexists. split; [vm_compute; reflexivity | reflexivity].
Qed.

(** ** The decision timeline of the two-snapshot scenario *)









(** ** Decision snapshots carry no timestamp the loop recognises *)

Lemma scan_app (q : scan_state) (a b : string) :
  scan q (a +:+ b) =
    match scan q a with
    | Some q' => scan q' b
    | None => None
    end.
Proof.
  revert q. induction a as [|x a IH]; intros q; simpl; [reflexivity |].
  destruct (step q x); [apply IH | reflexivity].
Qed.

Lemma str_forall_app (f : ascii -> bool) (a b : string) :
  str_forall f (a +:+ b) = str_forall f a && str_forall f b.
Proof.
  induction a as [|x a IH]; simpl; [reflexivity |].
  now rewrite IH, andb_assoc.
Qed.

Lemma append_one (s : string) (c : ascii) (t : string) :
  s +:+ String c t = (s +:+ String c "") +:+ t.
Proof. now rewrite append_assoc. Qed.

(** *** The scan finds exactly what the timestamp expression matches *)

Lemma stamp_lang (x d : string) :
  stamp_head x -> d <> "" -> str_forall is_digit d = true ->
  lang Patterns.timestamp (x +:+ d +:+ " ms").
Proof.
  intros [-> | ->] Hne Hd; unfold Patterns.timestamp; cbn [lang rseq];
    [left; exists "Time: ", (d +:+ " ms") | right; exists "at ", (d +:+ " ms")];
    (split; [reflexivity |]); (split; [reflexivity |]);
    exists d, " ms"; repeat split; assumption.
Qed.

Lemma lang_stamp (t : string) :
  lang Patterns.timestamp t ->
  exists x d, stamp_head x /\ d <> "" /\ str_forall is_digit d = true
              /\ t = x +:+ d +:+ " ms".
Proof.
  unfold stamp_head. simpl.
  intros [(w1 & w2 & -> & -> & d & w3 & -> & [Hne Hd] & ->)
         | (w1 & w2 & -> & -> & d & w3 & -> & [Hne Hd] & ->)]; eauto 8.
Qed.

Lemma ends_restart (s : string) (c : ascii) : ends (restart c) (s +:+ String c "").
Proof.
  unfold restart.
  destruct (Ascii.eqb_spec c "T") as [-> |]; [now exists s |].
  destruct (Ascii.eqb_spec c "a") as [-> |]; [now exists s | exact I].
Qed.

Ltac regroup := rewrite ?append_assoc; simpl; reflexivity.

(** One more character keeps the description of the state true, and the
    scan stops only at the end of an occurrence. *)
Lemma step_ends (q : scan_state) (s : string) (c : ascii) :
  ends q s ->
  match step q c with
  | Some q' => ends q' (s +:+ String c "")
  | None => exists a t, s +:+ String c "" = a +:+ t /\ lang Patterns.timestamp t
  end.
Proof.
  intros H. pose proof (ends_restart s c) as R. revert H R.
  destruct q; simpl; generalize (restart c); intros r H R;
    try (destruct H as (a & x & d & Hx & Hne & Hd & ->));
    try (destruct H as (a & x & Hx & ->));
    try (destruct H as (a & ->));
    repeat match goal with
           | |- context [is_digit c] => destruct (is_digit c) eqn:?
           | |- context [Ascii.eqb c ?k] =>
               destruct (Ascii.eqb_spec c k) as [-> |]
           end;
    try exact R;
    try (exists a; regroup).
  - exists a, "Time: ". split; [now left | regroup].
  - exists a, "at ". split; [now right | regroup].
  - exists a, x, (String c "").
    split; [assumption |]. split; [discriminate |].
    split; [simpl; now rewrite Heqb | regroup].
  - exists a, x, (d +:+ String c "").
    split; [assumption |]. split; [destruct d; discriminate |].
    split; [rewrite str_forall_app, Hd; simpl; now rewrite Heqb | regroup].
  - exists a, x, d. repeat (split; [assumption |]). regroup.
  - exists a, x, d. repeat (split; [assumption |]). regroup.
  - exists a, (x +:+ d +:+ " ms"). split; [regroup | now apply stamp_lang].
Qed.

Lemma scan_ends (s : string) :
  forall (q : scan_state) (s0 : string),
    ends q s0 ->
    match scan q s with
    | Some q' => ends q' (s0 +:+ s)
    | None => exists a t b, s0 +:+ s = a +:+ t +:+ b /\ lang Patterns.timestamp t
    end.
Proof.
  induction s as [|c s IH]; intros q s0 H; simpl.
  - now rewrite append_empty_r.
  - pose proof (step_ends q s0 c H) as Hs.
    destruct (step q c) as [q'|].
    + rewrite append_one. now apply IH.
    + destruct Hs as (a & t & E & Ht). exists a, t, s. split; [| assumption].
      now rewrite append_one, E, append_assoc.
Qed.

Lemma stamp_found (pre x d post : string) :
  stamp_head x -> d <> "" -> str_forall is_digit d = true ->
  search Patterns.timestamp (pre +:+ x +:+ d +:+ " ms" +:+ post) <> None.
Proof.
  intros Hx Hne Hd. apply search_complete.
  destruct d as [|a d]; [contradiction |].
  simpl in Hd. apply andb_prop in Hd. destruct Hd as [Ha Hd].
  destruct Hx as [-> | ->]; unfold match_at, Patterns.timestamp; simpl; rewrite Ha.
  - match goal with
    | |- match star_greedy ?c _ ?k with _ => _ end <> None =>
        pose proof (star_greedy_complete c d (" ms" +:+ post) k Hd) as Hs
    end.
    simpl in Hs.
    match type of Hs with
    | _ -> ?y <> None =>
        destruct y; [discriminate | exfalso; apply Hs; [discriminate | reflexivity]]
    end.
  - match goal with
    | |- star_greedy ?c _ ?k <> None =>
        apply (star_greedy_complete c d (" ms" +:+ post) k Hd)
    end.
    discriminate.
Qed.

Lemma scan_head (q : scan_state) (x : string) : stamp_head x -> scan q x = Some SX.
Proof. intros [-> | ->]; now destruct q. Qed.

Lemma scan_digits (d : string) :
  d <> "" -> str_forall is_digit d = true ->
  forall (q : scan_state) (t : string), q = SX \/ q = SD -> scan q (d +:+ t) = scan SD t.
Proof.
  induction d as [|a d IH]; [contradiction |].
  intros _ H q t Hq. simpl in H. apply andb_prop in H. destruct H as [Ha Hd].
  simpl. assert (E : step q a = Some SD) by (destruct Hq as [-> | ->]; simpl; now rewrite Ha).
  rewrite E. destruct d as [|b d]; [reflexivity |].
  apply IH; [discriminate | assumption | now right].
Qed.

(** The scan stops on a text exactly when the timestamp expression matches
    somewhere in it. *)
Lemma timestamp_scan (line : string) :
  search Patterns.timestamp line = None <-> scan S0 line <> None.
Proof.
  split.
  - intros Hs Hq.
    destruct (search Patterns.timestamp line) as [[m rest]|] eqn:E; [discriminate |].
    pose proof (scan_ends line S0 "" I) as H. rewrite Hq in H.
    destruct H as (a & t & b & El & Ht).
    apply lang_stamp in Ht. destruct Ht as (x & d & Hx & Hne & Hd & ->).
    simpl in El. subst line.
    apply (stamp_found a x d b Hx Hne Hd). now rewrite <- !append_assoc in *.
  - intros Hq.
    destruct (search Patterns.timestamp line) as [[m rest]|] eqn:E; [| reflexivity].
    exfalso. apply Hq.
    apply search_sound in E. destruct E as (pre & w & -> & Hw).
    apply lang_stamp in Hw. destruct Hw as (x & d & Hx & Hne & Hd & ->).
    rewrite scan_app. destruct (scan S0 pre) as [q|]; [| reflexivity].
    rewrite !append_assoc, scan_app, (scan_head q x Hx).
    rewrite (scan_digits d Hne Hd SX); [reflexivity | now left].
Qed.

(** *** The scan of a record *)

Lemma digit_is_word (a : ascii) : is_digit a = true -> is_word a = true.
Proof.
  destruct a as [[] [] [] [] [] [] [] []]; vm_compute; congruence.
Qed.

Lemma digits_are_word (d : string) :
  str_forall is_digit d = true -> str_forall is_word d = true.
Proof.
  induction d as [|a d IH]; simpl; [reflexivity |].
  intros H. apply andb_prop in H. destruct H as [Ha Hd].
  now rewrite (digit_is_word a Ha), IH.
Qed.

Lemma step_word (q : scan_state) (a : ascii) :
  idle q = true -> is_word a = true ->
  exists q', step q a = Some q' /\ idle q' = true.
Proof.
  intros Hq Ha.
  assert (R : idle (restart a) = true)
    by (unfold restart; now destruct (Ascii.eqb a "T"), (Ascii.eqb a "a")).
  destruct q; try discriminate; simpl;
    repeat match goal with
           | |- context [Ascii.eqb a ?k] =>
               destruct (Ascii.eqb_spec a k) as [-> |]
           end;
    try discriminate; eauto.
Qed.

Lemma scan_word (w : string) :
  str_forall is_word w = true ->
  forall (q : scan_state) (t : string),
    idle q = true -> exists q', idle q' = true /\ scan q (w +:+ t) = scan q' t.
Proof.
  induction w as [|a w IH]; intros H q t Hq.
  - exists q. auto.
  - simpl in H. apply andb_prop in H. destruct H as [Ha Hw].
    destruct (step_word q a Hq Ha) as (q1 & E & Hq1).
    simpl. rewrite E. now apply IH.
Qed.

(** A literal run that brings the scan back to [S0] from every idle
    state. *)
Lemma scan_literal (l t : string) (q : scan_state) :
  (forall q', idle q' = true -> scan q' l = Some S0) -> idle q = true ->
  scan q (l +:+ t) = scan S0 t.
Proof. intros H Hq. now rewrite scan_app, (H q Hq). Qed.

Lemma scan_opening (q : scan_state) (t : string) :
  scan q ("[GCC-DECISION-SNAPSHOT] at " +:+ t) = scan SX t.
Proof. rewrite scan_app. now destruct q. Qed.

Lemma last_word_skip (x y : string) :
  str_forall is_word y = false -> last_word (x +:+ y) = last_word y.
Proof.
  intros H. induction x as [|a x IH]; [reflexivity |].
  change (String a x +:+ y) with (String a (x +:+ y)). cbn [last_word].
  change (str_forall is_word (String a (x +:+ y)))
    with (is_word a && str_forall is_word (x +:+ y)).
  now rewrite str_forall_app, H, !andb_false_r.
Qed.

Lemma last_word_word (u : string) : str_forall is_word u = true -> last_word u = u.
Proof. destruct u as [|a u]; [reflexivity |]. intros H. cbn [last_word]. now rewrite H. Qed.

Lemma last_word_field (x u : string) :
  str_forall is_word u = true -> last_word (x +:+ String " " u) = u.
Proof.
  intros H. rewrite last_word_skip by reflexivity.
  cbn [last_word]. change (str_forall is_word (String " " u)) with false. cbv iota.
  now apply last_word_word.
Qed.

Ltac not_word :=
  rewrite ?str_forall_app; simpl; rewrite ?andb_false_r; reflexivity.

Ltac scan_step :=
  match goal with
  | H : str_forall _ ?w = true, C : idle ?q = true |- context [scan ?q (?w +:+ ?t)] =>
      let q' := fresh "q" in
      let C' := fresh "C" in
      destruct (scan_word w H q t C) as (q' & C' & ->)
  | C : idle ?q = true |- context [scan ?q (?l +:+ ?t)] =>
      rewrite (scan_literal l t q)
        by first [assumption | intros [] ?; first [discriminate | reflexivity]]
  end.

(** Whatever state the scan is in before a record, it is back at [S0] when
    it reaches the record's last field: nothing in the record before that
    field completes a timestamp or leaves one half read. *)
Lemma record_scan (q : scan_state) (w post : string) :
  lang Patterns.decision w ->
  scan q (w +:+ post) = scan S0 (last_word w +:+ post).
Proof.
  intros Hw. simpl in Hw.
  repeat match goal with
         | H : exists _, _ |- _ => destruct H
         | H : _ /\ _ |- _ => destruct H
         end.
  subst.
  match goal with
  | |- context [" | Updated: " +:+ ?u] =>
      match goal with
      | H : str_forall _ u = true |- _ =>
          repeat (rewrite last_word_skip by not_word);
          rewrite (last_word_field " | Updated:" u H : last_word (" | Updated: " +:+ u) = u)
      end
  end.
  rewrite !append_assoc, scan_opening.
  match goal with
  | |- context [scan SX (?d +:+ ?t)] =>
      match goal with
      | H : str_forall _ d = true, N : d <> "" |- _ =>
          rewrite (scan_digits d N H SX t (or_introl eq_refl))
      end
  end.
  change (scan SD ("ms | DelayState: " +:+ ?t)) with (scan S0 t).
  repeat match goal with
         | H : str_forall ?f _ = true |- _ =>
             lazymatch f with
             | in_cset CWord => fail
             | is_word => fail
             | _ => apply digits_are_word in H
             end
         end.
  assert (C0 : idle S0 = true) by reflexivity.
  match goal with |- _ = ?r => set (R := r) end.
  do 16 scan_step.
  reflexivity.
Qed.

(** A decision record in a line neither adds a timestamp to it nor hides
    one. *)
Lemma record_timestamp (pre w post : string) :
  lang Patterns.decision w ->
  search Patterns.timestamp (pre +:+ w +:+ post) = None
  <-> search Patterns.timestamp pre = None
      /\ search Patterns.timestamp (last_word w +:+ post) = None.
Proof.
  intros Hw. rewrite !timestamp_scan, scan_app.
  destruct (scan S0 pre) as [q|].
  - rewrite (record_scan q w post Hw). split; [intros H; split; [discriminate | exact H] | tauto].
  - split; [congruence | tauto].
Qed.

Lemma quiet_snapshot_untimed (line : string) :
  quiet_snapshot line -> search Patterns.timestamp line = None.
Proof.
  intros (pre & w & post & -> & Hw & H1 & H2).
  apply (record_timestamp pre w post Hw). auto.
Qed.

Lemma untimed_lines_no_probe (lines : list string) :
  forall p : pass,
    last_timestamp p = None ->
    Forall (fun l => search Patterns.timestamp l = None) lines ->
    Forall (fun l => digit_runs_within int_max_str_digits l = true) lines ->
    exists p', process_lines p lines = Ok p'
               /\ probe_data p' = probe_data p /\ last_timestamp p' = None.
Proof.
  induction lines as [|line lines IH]; intros p Hp Hall Hdig; simpl.
  - eauto.
  - inversion Hall as [|? ? Hl Hrest]; subst.
    inversion Hdig as [|? ? Hb Hbs]; subst.
    destruct (untimed_line_no_probe p line Hp Hl Hb) as (p1 & -> & Hprobe & Hts).
    simpl. destruct (IH p1 Hts Hrest Hbs) as (p' & -> & Hprobe' & Hts').
    exists p'. repeat split; congruence.
Qed.

(** C9 (amended).  Every line that the decision-snapshot pattern matches
    holds a record, a text of the grammar, between what precedes it and
    what follows it.  For a line of ASCII text that holds such a record,
    the carried timestamp is left as it is exactly when no timestamp
    ([Time: <N> ms] or [at <N> ms]) occurs before the record and none
    occurs from the record's last field on: the record itself writes
    [at <N>ms] without a blank before [ms] and never supplies one.
    Consequently, in a log of ASCII lines whose runs of digits are within
    the limit of [int], a legacy-format probe line that carries no
    timestamp itself and comes after lines that carry no timestamp or are
    such snapshots is dropped: the run completes and has no probe row. *)
Theorem snapshot_never_updates_timestamp :
  (forall (line : string) (m : captures) (rest : string),
     search Patterns.decision line = Some (m, rest) ->
     exists pre w : string, line = pre +:+ w +:+ rest /\ lang Patterns.decision w)
  /\ (forall pre w post : string,
        lang Patterns.decision w ->
        ascii_text (pre +:+ w +:+ post) = true ->
        (line_timestamp (pre +:+ w +:+ post) = None
         <-> search Patterns.timestamp pre = None
             /\ search Patterns.timestamp (last_word w +:+ post) = None)
        /\ forall p p' : pass,
             process_line p (pre +:+ w +:+ post) = Ok p' ->
             last_timestamp p' =
               match line_timestamp (pre +:+ w +:+ post) with
               | Some t => Some t
               | None => last_timestamp p
               end)
  /\ (forall (before : list string) (legacy : string) (m : captures) (source : string),
        Forall (fun l => plain_line l = true) (before ++ [legacy]) ->
        Forall (fun l => search Patterns.timestamp l = None \/ quiet_snapshot l) before ->
        line_timestamp legacy = None ->
        legacy_match legacy = Some (m, source) ->
        exists p : pass,
          process_lines fresh (before ++ [legacy]) = Ok p /\ probe_data p = []).
Proof.
  split; [| split].
  - intros line m rest H. now apply search_sound with m.
  - intros pre w post Hw _. split.
    + rewrite line_timestamp_none. now apply record_timestamp.
    + intros p p' H. now rewrite (process_line_last_timestamp _ _ _ H).
  - intros before legacy m source Hplain Hbefore Hlegacy _.
    assert (Hall : Forall (fun l => search Patterns.timestamp l = None) (before ++ [legacy])).
    { apply Forall_app. split.
      - eapply Forall_impl; [| exact Hbefore].
        intros l [H | H]; [assumption | now apply quiet_snapshot_untimed].
      - constructor; [now apply line_timestamp_none | constructor]. }
    assert (Hdig : Forall (fun l => digit_runs_within int_max_str_digits l = true)
                          (before ++ [legacy])).
    { eapply Forall_impl; [| exact Hplain]. intros l H. now apply plain_line_digits. }
    destruct (untimed_lines_no_probe _ fresh eq_refl Hall Hdig) as (p & Hp & Hprobe & _).
    exists p. split; assumption.
Qed.

Lemma snapshot_never_updates_timestamp_witness :
  let record := "[GCC-DECISION-SNAPSHOT] at 7ms | DelayState: Normal, DelayTargetBps: 300000 | RttBackoff: false | ProbeResultBps: 0 | BweTargetBps: 300000 | AckedBitrateBps: 0 | FinalTargetBps: 300000 | DecisionReason: DelayLimit | Updated: true" in
  let snapshot := "(goog_cc_network_control.cc:712): " +:+ record +:+ String newline "" in
  let legacy := "[ProbeBWE-Result] Cluster ID: 3, Final estimate: 5000 bps" in
  line_timestamp snapshot = None
  /\ exists p : pass,
       process_lines fresh ([snapshot] ++ [legacy]) = Ok p /\ probe_data p = [].
Proof.
  cbv zeta.
  pose (pre := "(goog_cc_network_control.cc:712): ").
  pose (record := "[GCC-DECISION-SNAPSHOT] at 7ms | DelayState: Normal, DelayTargetBps: 300000 | RttBackoff: false | ProbeResultBps: 0 | BweTargetBps: 300000 | AckedBitrateBps: 0 | FinalTargetBps: 300000 | DecisionReason: DelayLimit | Updated: true").
  pose (post := String newline "").
  assert (L : lang Patterns.decision record).
  { destruct (match_at Patterns.decision record) as [[m rest]|] eqn:E;
      [| vm_compute in E; discriminate E].
    pose proof (match_at_sound _ _ _ _ E) as (w & Ew & Hw).
    assert (R : rest = "") by (vm_compute in E; now inversion E).
    subst rest. rewrite append_empty_r in Ew. now subst w. }
  assert (Q : search Patterns.timestamp pre = None
              /\ search Patterns.timestamp (last_word record +:+ post) = None)
    by (split; vm_compute; reflexivity).
  split.
  - apply (proj1 (proj1 (proj2 snapshot_never_updates_timestamp) pre record post L eq_refl)).
    exact Q.
  - refine (proj2 (proj2 snapshot_never_updates_timestamp) [pre +:+ record +:+ post] _
              [ (2%nat, "5000"); (1%nat, "3") ] "result_old" _ _ _ _).
    + constructor; [vm_compute; reflexivity |].
      constructor; [vm_compute; reflexivity | constructor].
    + constructor; [| constructor].
      right. exists pre, record, post. split; [reflexivity |]. split; [exact L | exact Q].
    + vm_compute. reflexivity.
    + vm_compute. reflexivity.
Defined.

(** C9, the claim as first stated fails: this line matches the
    decision-snapshot grammar and also carries [Time: 5 ms] before the
    record, so it sets the carried timestamp to 5 and the legacy probe line
    after it is emitted. *)
Lemma snapshot_timestamp_counterexample :
  let snapshot := "Time: 5 ms [GCC-DECISION-SNAPSHOT] at 7ms | DelayState: Normal, DelayTargetBps: 300000 | RttBackoff: false | ProbeResultBps: 0 | BweTargetBps: 300000 | AckedBitrateBps: 0 | FinalTargetBps: 300000 | DecisionReason: DelayLimit | Updated: true" +:+ String newline "" in
  let legacy := "[ProbeBWE-Result] Cluster ID: 3, Final estimate: 5000 bps" in
  (exists m, search Patterns.decision snapshot = Some (m, String newline ""))
  /\ (exists p, process_line fresh snapshot = Ok p /\ last_timestamp p = Some 5)
  /\ exists p, process_lines fresh [snapshot; legacy] = Ok p
               /\ probe_data p = [ {| Probe.timestamp := 5; Probe.cluster_id := 3;
                                      Probe.estimate := 5000;
                                      Probe.source := "result_old" |} ].
Proof.
  cbv zeta. repeat split.
  - eexists. vm_compute. reflexivity.
  - eexists. split; [vm_compute; reflexivity | reflexivity].
  - eexists. split; [vm_compute; reflexivity | reflexivity].
Qed.

(** * Further properties of the parse pass *)

(** ** The collections only grow *)

Lemma extends_refl {A : Type} (l : list A) : extends l l.
Proof. exists []. now rewrite app_nil_r. Qed.

Lemma extends_snoc {A : Type} (l : list A) (x : A) : extends l (l ++ [x]).
Proof. now exists [x]. Qed.

Lemma extends_trans {A : Type} (l1 l2 l3 : list A) :
  extends l1 l2 -> extends l2 l3 -> extends l1 l3.
Proof.
  intros [m1 ->] [m2 ->]. exists (m1 ++ m2). now rewrite app_assoc.
Qed.

Lemma grows_refl (p : pass) : grows p p.
Proof. repeat split; apply extends_refl. Qed.

Lemma grows_trans (p1 p2 p3 : pass) : grows p1 p2 -> grows p2 p3 -> grows p1 p3.
Proof.
  intros (A1 & A2 & A3 & A4 & A5 & A6 & A7 & A8 & A9 & A10)
         (B1 & B2 & B3 & B4 & B5 & B6 & B7 & B8 & B9 & B10).
  repeat split; eapply extends_trans; eassumption.
Qed.

Lemma emitted_grows (p p' : pass) : emitted p p' -> grows p p'.
Proof.
  intros []; repeat split; simpl; try apply extends_refl; apply extends_snoc.
Qed.

Lemma observe_grows (p : pass) (line : string) : grows p (observed p line).
Proof.
  unfold observed.
  destruct (line_timestamp line); repeat split; apply extends_refl.
Qed.

Lemma observe_total_events (p : pass) (line : string) :
  total_events (observed p line) = total_events p.
Proof. unfold observed. now destruct (line_timestamp line). Qed.

Lemma process_line_grows (p : pass) (line : string) (p' : pass) :
  process_line p line = Ok p' ->
  grows p p' /\ (total_events p' <= S (total_events p))%nat.
Proof.
  intros H. destruct (process_line_emits _ _ _ H) as [-> | E].
  - split; [apply observe_grows |]. rewrite observe_total_events. lia.
  - split.
    + apply (grows_trans p (observed p line) p');
        [apply observe_grows | exact (emitted_grows _ _ E)].
    + rewrite (emitted_total_events _ _ E), observe_total_events. lia.
Qed.

(** X1.  Over any stretch of a run that completes, every collection is
    append-only: it ends as it started with rows added at its end, so rows
    are never removed, replaced or reordered; and the rows added number at
    most one per line read. *)
Theorem run_is_append_only (lines : list string) (p p' : pass) :
  process_lines p lines = Ok p' ->
  grows p p' /\ (total_events p' <= total_events p + length lines)%nat.
Proof.
  revert p. induction lines as [|line lines IH]; simpl; intros p H.
  - inversion H; subst. split; [apply grows_refl | lia].
  - destruct (process_line p line) as [p1|] eqn:E; [| discriminate]. simpl in H.
    destruct (process_line_grows _ _ _ E) as [G1 N1].
    destruct (IH _ H) as [G2 N2].
    split; [eapply grows_trans; eassumption | lia].
Qed.

Lemma run_is_append_only_witness :
  let p := append_probe {| Probe.timestamp := 1; Probe.cluster_id := 2;
                           Probe.estimate := 3; Probe.source := "result" |} fresh in
  let lines := [ "[ProbeBWE-Success] Time: 5 ms, Cluster ID: 3, Send rate: 7 bps";
                 "no event here" ] in
  exists p', process_lines p lines = Ok p'
             /\ grows p p' /\ (total_events p' <= total_events p + 2)%nat.
Proof.
  cbv zeta. eexists. split; [vm_compute; reflexivity |].
  refine (run_is_append_only
            [ "[ProbeBWE-Success] Time: 5 ms, Cluster ID: 3, Send rate: 7 bps";
              "no event here" ] _ _ _).
  vm_compute. reflexivity.
Defined.

(** ** The ConfigLimit pattern is registered and never applied *)

Lemma emitted_config_limit (p p' : pass) :
  emitted p p' -> config_limit_data p' = config_limit_data p.
Proof. now intros []. Qed.

Lemma process_lines_config_limit (lines : list string) :
  forall p p', process_lines p lines = Ok p' ->
               config_limit_data p' = config_limit_data p.
Proof.
  induction lines as [|line lines IH]; simpl; intros p p' H.
  - congruence.
  - destruct (process_line p line) as [p1|] eqn:E; [| discriminate]. simpl in H.
    rewrite (IH _ _ H).
    destruct (process_line_emits _ _ _ E) as [-> | Em].
    + unfold observed. now destruct (line_timestamp line).
    + rewrite (emitted_config_limit _ _ Em).
      unfold observed. now destruct (line_timestamp line).
Qed.

(** X2.  Whatever the log holds, the [config_limit] table that
    [parse_log_file] returns is empty: the registry has a ConfigLimit
    pattern and the run has a [config_limit_data] collection, but no block
    of the loop applies the one or appends to the other. *)
Theorem config_limit_always_empty
    (self : GccDecisionAnalyzer) (w : world) (data_dict : Data.dict) :
  fst (parse_log_file self w) = Ok data_dict ->
  Data.config_limit data_dict = [].
Proof.
  rewrite parse_log_file_result.
  destruct (files w (log_file_path self)) as [bytes|]; [| discriminate].
  destruct (decode_utf8 bytes) as [text|]; [| discriminate]. simpl.
  destruct (process_lines fresh _) as [p|] eqn:E; [| discriminate]. simpl.
  intros H. inversion H; subst. simpl.
  now rewrite (process_lines_config_limit _ _ _ E).
Qed.

Lemma config_limit_always_empty_witness :
  let line := "[BWE-ConfigLimit] MinBitrate: 1 -> 2 bps, MaxBitrate: 3 -> 4 bps, CurrentTarget: 5 bps" in
  search Patterns.config_limit line <> None
  /\ exists data_dict,
       fst (parse_log_file {| log_file_path := "sender_cloud.log" |}
                           {| files := fun _ => Some line; stdout := [] |}) = Ok data_dict
       /\ Data.config_limit data_dict = [].
Proof.
  cbv zeta. split; [vm_compute; discriminate |].
  eexists. split; [vm_compute; reflexivity |].
  refine (config_limit_always_empty
            {| log_file_path := "sender_cloud.log" |}
            {| files := fun _ => Some "[BWE-ConfigLimit] MinBitrate: 1 -> 2 bps, MaxBitrate: 3 -> 4 bps, CurrentTarget: 5 bps";
               stdout := [] |} _ _).
  vm_compute. reflexivity.
Defined.

(** ** Where an iteration can raise *)

Lemma floats_raise (pieces : list string) (e : exn) :
  floats pieces = Raise e -> e = ValueError.
Proof.
  induction pieces as [|x pieces IH]; simpl; [discriminate |].
  destruct (float _); [| congruence].
  destruct (floats pieces); simpl; [discriminate |].
  intros H. inversion H; subst. now apply IH.
Qed.

Lemma candidates_bandwidth_raise (cs : list pyfloat) (e : exn) :
  candidates_bandwidth cs = Raise e -> e = ValueError \/ e = OverflowError.
Proof.
  destruct cs as [|c cs]; simpl; [discriminate |].
  destruct (float_mul_int _ _); simpl; intros H; inversion H; auto.
Qed.

Lemma observe_raise (p : pass) (line : string) (e : exn) :
  observe_timestamp p line = Raise e -> e = ValueError.
Proof.
  unfold observe_timestamp, bind, int.
  destruct (search Patterns.timestamp line) as [[m rest]|]; [| discriminate].
  destruct (Nat.leb _ _); [discriminate | congruence].
Qed.

(** Replace the conversions of captured digits by their values, on a line
    whose runs of digits are within the limit ([B]). *)
Ltac settle_ints E B :=
  repeat (match type of E with
          | context [int (grp ?m ?n)] =>
              match goal with
              | D : search ?r _ = Some (m, _) |- _ =>
                  rewrite (int_capture r _ m _ n D B eq_refl) in E
              end
          end; cbn [bind] in E).

Ltac open_searches E :=
  unfold on_trendline, on_rtt_bwe, on_loss_bwe, on_loss_candidates, on_probe_result,
    on_probe_success, on_probe_result_old, on_probe_success_old, on_decision,
    on_constraint_apply, on_delay_limit, on_receiver_limit, on_pushback in E.

(** X3.  On a line of ASCII text whose runs of digits are within the limit
    of [int] and that neither the LossBWE-Candidates pattern nor the
    CongestionWindowPushback pattern matches, the iteration completes: with
    the conversions of captured digits within their limit, these two blocks
    are the only ones in which the loop can raise.  And whatever an
    iteration raises, on any line, is a [ValueError] or an
    [OverflowError]. *)
Theorem only_two_blocks_raise (p : pass) (line : string) :
  (plain_line line = true ->
   search Patterns.loss_candidates line = None ->
   search Patterns.pushback line = None ->
   exists p', process_line p line = Ok p')
  /\ (forall e : exn,
        process_line p line = Raise e -> e = ValueError \/ e = OverflowError).
Proof.
  split.
  - intros Hplain Hc Hp. apply plain_line_digits in Hplain.
    destruct (process_line p line) as [p'|e] eqn:H; [eauto | exfalso].
    unfold process_line in H. rewrite (observe_within p line Hplain) in H. cbn [bind] in H.
    walk_first H ltac:(fun E =>
      open_searches E; try rewrite Hc in E; try rewrite Hp in E;
      split_matches E; settle_ints E Hplain; discriminate E).
    discriminate H.
  - intros e H. unfold process_line in H.
    destruct (observe_timestamp p line) as [q|e0] eqn:O; cbn [bind] in H.
    + walk_first H ltac:(fun E =>
        open_blocks E; split_matches E; try discriminate E;
        inversion E; subst; auto;
        repeat match goal with
               | F : (if ?c then Ok _ else Raise ValueError) = Raise _ |- _ =>
                   destruct c; [discriminate F | inversion F; subst]
               | F : parse_candidates _ = Raise _ |- _ =>
                   apply floats_raise in F; subst
               | F : candidates_bandwidth _ = Raise _ |- _ =>
                   apply candidates_bandwidth_raise in F
               end; auto).
      discriminate H.
    + inversion H; subst. left. now apply observe_raise with p line.
Qed.

Lemma only_two_blocks_raise_witness :
  exists p',
    process_line fresh
      "[BWE-DelayLimit] Time: 1 ms, OldLimit: 2 bps, NewLimit: 3 bps, CurrentTarget: 4 bps"
    = Ok p'.
Proof.
  refine (proj1 (only_two_blocks_raise fresh _) _ _ _); vm_compute; reflexivity.
Defined.

Lemma floats_unparseable (pieces : list string) (x : string) :
  In x pieces -> float (rstrip_comma (strip x)) = None ->
  floats pieces = Raise ValueError.
Proof.
  induction pieces as [|y pieces IH]; simpl; [contradiction |].
  intros [-> | Hin] Hx.
  - now rewrite Hx.
  - destruct (float (rstrip_comma (strip y))); [| reflexivity].
    now rewrite (IH Hin Hx).
Qed.

Lemma process_lines_raise (before after : list string) (line : string) (e : exn) :
  (forall q : pass, process_line q line = Raise e) ->
  forall p : pass, exists e', process_lines p (before ++ line :: after) = Raise e'.
Proof.
  intros Hline. induction before as [|l before IH]; simpl; intros p.
  - rewrite Hline. simpl. eauto.
  - destruct (process_line p l) as [p1|e1]; simpl; [apply IH | eauto].
Qed.

(** X4.  One LossBWE-Candidates line of ASCII text with a candidate that is
    not empty and is no number makes the whole run fail, wherever the line
    stands in the log and whatever the other lines hold: the [ValueError]
    of [float] is not caught, so no table of the run survives. *)
Theorem unparseable_candidate_aborts_run
    (line : string) (m : captures) (rest piece : string)
    (before after : list string) (p : pass) :
  ascii_text line = true ->
  search Patterns.trendline line = None ->
  search Patterns.rtt_bwe line = None ->
  search Patterns.loss_bwe line = None ->
  search Patterns.loss_candidates line = Some (m, rest) ->
  In piece (split "," (grp m 2)) ->
  rstrip_comma (strip piece) <> "" ->
  float (rstrip_comma (strip piece)) = None ->
  exists e : exn, process_lines p (before ++ line :: after) = Raise e.
Proof.
  intros _ H1 H2 H3 H4 Hin Hne Hbad.
  apply process_lines_raise with (e := ValueError). intros q.
  rewrite (reaches_candidates q line m rest H1 H2 H3 H4). cbv zeta.
  unfold parse_candidates.
  rewrite (floats_unparseable _ piece); [| | assumption].
  - destruct (observe_timestamp q line) as [q'|e0] eqn:O; cbn [bind].
    + unfold int. now destruct (Nat.leb _ _).
    + now rewrite (observe_raise _ _ _ O).
  - apply filter_In. split; [assumption |].
    destruct (rstrip_comma (strip piece)); [contradiction | reflexivity].
Qed.

Lemma unparseable_candidate_aborts_run_witness :
  exists e : exn,
    process_lines fresh
      ([ "[LossBWE-Estimate] Time: 10 ms, State: 2, Bandwidth: 500000 bps, Observations: 12" ]
       ++ "[LossBWE-Candidates] Time: 5 ms, Candidate Bandwidths (kbps): 100, n/a, 300"
       :: [ "[ProbeBWE-Result] Time: 5 ms, Cluster ID: 3, Final estimate: 7 bps" ])
    = Raise e.
Proof.
  refine (unparseable_candidate_aborts_run
            "[LossBWE-Candidates] Time: 5 ms, Candidate Bandwidths (kbps): 100, n/a, 300"
            [ (2%nat, "100, n/a, 300"); (1%nat, "5") ] "" " n/a" _ _ fresh
            _ _ _ _ _ _ _ _);
    try (vm_compute; reflexivity).
  - vm_compute. auto.
  - vm_compute. discriminate.
Defined.

(** ** Probe rows *)

Lemma probe_step (p : pass) (line : string) (p' : pass) :
  process_line p line = Ok p' ->
  probe_data p' = probe_data p
  \/ exists row : Probe.row,
       probe_data p' = probe_data p ++ [row]
       /\ In (Probe.source row) ["result"; "success"; "result_old"; "success_old"]
       /\ (legacy_row row = true ->
           Probe.timestamp row <> 0
           /\ carry (last_timestamp p) line = Some (Probe.timestamp row)).
Proof.
  intros H. rewrite <- observe_last_timestamp.
  assert (O : probe_data (observed p line) = probe_data p).
  { unfold observed. now destruct (line_timestamp line). }
  rewrite <- O. clear O.
  apply process_line_observed in H. destruct H as [_ H].
  walk_first H ltac:(fun E =>
    open_blocks E; split_matches E; inversion E; subst; simpl;
    try (left; reflexivity);
    (right; eexists; (split; [reflexivity |]); simpl;
     (split; [auto 8 |]); unfold legacy_row; simpl; intros L; try discriminate L)).
  - split; [| reflexivity]. intros ->.
    match goal with T : truthy _ = true |- _ => simpl in T; discriminate T end.
  - split; [| reflexivity]. intros ->.
    match goal with T : truthy _ = true |- _ => simpl in T; discriminate T end.
  - inversion H; subst. now left.
Qed.

Lemma process_lines_snoc (lines : list string) (line : string) (p p' : pass) :
  process_lines p (lines ++ [line]) = Ok p' ->
  exists p1, process_lines p lines = Ok p1 /\ process_line p1 line = Ok p'.
Proof.
  revert p. induction lines as [|l lines IH]; simpl; intros p H.
  - destruct (process_line p line) as [p1|] eqn:E; [| discriminate]. simpl in H.
    inversion H; subst. exists p. auto.
  - destruct (process_line p l) as [p1|]; [| discriminate]. simpl in H |- *.
    now apply IH.
Qed.

(** X5.  In the tables of a run that completes, every probe row has one of
    the four source tags, and every row from a legacy line ([result_old] or
    [success_old]) has a timestamp that is not 0 and that was the most
    recently observed timestamp after some number of lines of the log: a
    legacy row never carries a timestamp the log does not hold. *)
Theorem legacy_rows_carry_observed_timestamps (lines : list string) (p : pass) :
  process_lines fresh lines = Ok p ->
  forall row : Probe.row,
    In row (probe_data p) ->
    In (Probe.source row) ["result"; "success"; "result_old"; "success_old"]
    /\ (legacy_row row = true ->
        Probe.timestamp row <> 0
        /\ exists k : nat,
             (k <= length lines)%nat
             /\ last_observed (firstn k lines) = Some (Probe.timestamp row)).
Proof.
  revert p. induction lines as [|line lines IH] using rev_ind; intros p H row Hin.
  - inversion H; subst. contradiction.
  - destruct (process_lines_snoc _ _ _ _ H) as (p1 & H1 & Hl).
    assert (Old : In row (probe_data p1) ->
                  In (Probe.source row) ["result"; "success"; "result_old"; "success_old"]
                  /\ (legacy_row row = true ->
                      Probe.timestamp row <> 0
                      /\ exists k : nat,
                           (k <= length (lines ++ [line]))%nat
                           /\ last_observed (firstn k (lines ++ [line]))
                              = Some (Probe.timestamp row))).
    { intros Hold. destruct (IH _ H1 _ Hold) as [Hs Hleg]. split; [assumption |].
      intros L. destruct (Hleg L) as (Hnz & k & Hk & Hobs). split; [assumption |].
      exists k. rewrite length_app. split; [lia |].
      rewrite firstn_app. replace (k - length lines)%nat with 0%nat by lia.
      simpl. now rewrite app_nil_r. }
    destruct (probe_step _ _ _ Hl) as [E | (new & E & Hs & Hleg)];
      rewrite E in Hin; [now apply Old |].
    apply in_app_or in Hin. destruct Hin as [Hin | [<- | []]]; [now apply Old |].
    split; [assumption |].
    intros L. destruct (Hleg L) as [Hnz Hc]. split; [assumption |].
    exists (length (lines ++ [line])). split; [lia |].
    rewrite firstn_all, last_observed_snoc, <- (fresh_run_last_timestamp _ _ H1).
    assumption.
Qed.

Lemma legacy_rows_carry_observed_timestamps_witness :
  let lines := [ "Time: 100 ms ..."; "[ProbeBWE-Success] Cluster ID: 3, Send rate: 7 bps" ] in
  let row := {| Probe.timestamp := 100; Probe.cluster_id := 3; Probe.estimate := 7;
                Probe.source := "success_old" |} in
  Probe.timestamp row <> 0
  /\ exists k : nat,
       (k <= length lines)%nat /\ last_observed (firstn k lines) = Some 100.
Proof.
  cbv zeta.
  refine (proj2 (legacy_rows_carry_observed_timestamps
                   [ "Time: 100 ms ..."; "[ProbeBWE-Success] Cluster ID: 3, Send rate: 7 bps" ]
                   _ _
                   {| Probe.timestamp := 100; Probe.cluster_id := 3; Probe.estimate := 7;
                      Probe.source := "success_old" |} _) _).
  - vm_compute. reflexivity.
  - simpl. left. reflexivity.
  - reflexivity.
Defined.

(** ** Invariants of the tables *)

(** What a conversion that completed returned. *)
Ltac settle_values :=
  repeat match goal with
         | F : (if ?c then Ok _ else Raise _) = Ok _ |- _ =>
             destruct c; [inversion F; subst; clear F | discriminate F]
         end.

Ltac capture_nonneg :=
  match goal with
  | H : search ?r ?l = Some (?m, _) |- 0 <= digits_value (grp ?m ?n) =>
      exact (int_capture_nonneg r l m _ n H eq_refl)
  end.

Lemma fresh_tables_ok : tables_ok fresh.
Proof. unfold tables_ok, fresh; simpl. repeat split; try constructor. discriminate. Qed.

Lemma observe_tables_ok (p : pass) (line : string) :
  tables_ok p -> tables_ok (observed p line).
Proof.
  unfold observed. destruct (line_timestamp line) as [t|] eqn:E; [| auto].
  intros (T1 & T2 & T3 & T4 & T5 & T6 & T7 & T8 & T9 & _).
  unfold tables_ok; simpl. repeat split; try assumption.
  intros t' Ht. inversion Ht; subst. now apply line_timestamp_nonneg with line.
Qed.

Lemma first_of_tables_ok (q : pass) (line : string) (p' : pass) :
  tables_ok q -> first_of branches q line = Ok p' -> tables_ok p'.
Proof.
  intros (T1 & T2 & T3 & T4 & T5 & T6 & T7 & T8 & T9 & T10) H.
  walk_first H ltac:(fun E =>
    open_blocks E; split_matches E; settle_values; inversion E; subst;
    try match goal with
        | Hq : last_timestamp _ = Some _ |- _ => rewrite <- Hq in T10
        end;
    unfold tables_ok; simpl; repeat split; try assumption;
    apply Forall_app; (split; [assumption |]);
    (constructor; [| constructor]); simpl;
    try capture_nonneg;
    try (apply T10; assumption)).
  - (* an estimate row *)
    unfold loss_row_ok; simpl.
    split; [capture_nonneg |]. left.
    repeat split; capture_nonneg.
  - (* a candidates row *)
    unfold loss_row_ok; simpl.
    split; [capture_nonneg |]. right. split; [reflexivity |]. eauto.
  - inversion H; subst.
    unfold tables_ok. repeat split; assumption.
Qed.

Lemma process_lines_tables_ok (lines : list string) :
  forall p p', tables_ok p -> process_lines p lines = Ok p' -> tables_ok p'.
Proof.
  induction lines as [|line lines IH]; simpl; intros p p' T H.
  - now inversion H; subst.
  - destruct (process_line p line) as [p1|] eqn:E; [| discriminate]. simpl in H.
    apply (IH p1); [| assumption].
    apply process_line_observed in E. destruct E as [_ E].
    apply (first_of_tables_ok (observed p line) line); [| exact E].
    now apply observe_tables_ok.
Qed.

Lemma parse_ok_pass (self : GccDecisionAnalyzer) (w : world) (data_dict : Data.dict) :
  fst (parse_log_file self w) = Ok data_dict ->
  exists (lines : list string) (p : pass),
    process_lines fresh lines = Ok p /\ data_dict = to_dict p.
Proof.
  rewrite parse_log_file_result.
  destruct (files w (log_file_path self)) as [bytes|]; [| discriminate].
  destruct (decode_utf8 bytes) as [text|]; [| discriminate]. simpl.
  destruct (process_lines fresh _) as [p|] eqn:E; [| discriminate]. simpl.
  intros H. inversion H; subst. eauto.
Qed.

(** X6.  No table that [parse_log_file] returns holds a negative timestamp:
    every timestamp is read from a [(\d+)] group or is the carried
    timestamp, which is itself read from one. *)
Theorem timestamps_never_negative
    (self : GccDecisionAnalyzer) (w : world) (data_dict : Data.dict) :
  fst (parse_log_file self w) = Ok data_dict ->
  Forall (fun r => 0 <= Trendline.timestamp r) (Data.trendline data_dict)
  /\ Forall (fun r => 0 <= Rtt.timestamp r) (Data.rtt data_dict)
  /\ Forall (fun r => 0 <= Loss.timestamp r) (Data.loss data_dict)
  /\ Forall (fun r => 0 <= Probe.timestamp r) (Data.probe data_dict)
  /\ Forall (fun r => 0 <= Decision.timestamp r) (Data.decision data_dict)
  /\ Forall (fun r => 0 <= ConstraintApply.timestamp r) (Data.constraint_apply data_dict)
  /\ Forall (fun r => 0 <= Limit.timestamp r) (Data.delay_limit data_dict)
  /\ Forall (fun r => 0 <= Limit.timestamp r) (Data.receiver_limit data_dict)
  /\ Forall (fun r => 0 <= Pushback.timestamp r) (Data.pushback data_dict).
Proof.
  intros H. destruct (parse_ok_pass _ _ _ H) as (lines & p & Hp & ->).
  destruct (process_lines_tables_ok _ _ _ fresh_tables_ok Hp)
    as (T1 & T2 & T3 & T4 & T5 & T6 & T7 & T8 & T9 & _).
  simpl. repeat split; try assumption.
  eapply Forall_impl; [| exact T3]. now intros r [Hr _].
Qed.

Lemma timestamps_never_negative_witness :
  exists data_dict : Data.dict,
    fst (parse_log_file
           {| log_file_path := "sender_cloud.log" |}
           {| files := fun _ =>
                Some ("Time: 100 ms ..." +:+ String newline
                      "[ProbeBWE-Result] Cluster ID: 3, Final estimate: 5000 bps");
              stdout := [] |}) = Ok data_dict
    /\ Forall (fun r => 0 <= Probe.timestamp r) (Data.probe data_dict).
Proof.
  eexists. split; [vm_compute; reflexivity |].
  refine (proj1 (proj2 (proj2 (proj2
            (timestamps_never_negative
               {| log_file_path := "sender_cloud.log" |}
               {| files := fun _ =>
                    Some ("Time: 100 ms ..." +:+ String newline
                          "[ProbeBWE-Result] Cluster ID: 3, Final estimate: 5000 bps");
                  stdout := [] |} _ _))))).
  vm_compute. reflexivity.
Defined.

Lemma loss_partition (l : list Loss.row) :
  Forall loss_row_ok l ->
  (length (estimates_df l) + length (candidates_df l) = length l)%nat.
Proof.
  unfold estimates_df, candidates_df.
  induction 1 as [|r l [_ Hr] _ IH]; simpl; [reflexivity |].
  destruct Hr as [(Hs & _) | (Hs & _)].
  - destruct (Z.leb_spec 0 (Loss.state r)); [| lia].
    destruct (Z.eqb_spec (Loss.state r) (-1)); [lia |]. simpl. lia.
  - rewrite Hs. simpl. lia.
Qed.

(** X7.  In the loss table that [parse_log_file] returns every row is
    either an estimate (state, bandwidth and observations not negative, no
    candidates list) or a candidates row (state -1, a candidates list, and
    as many observations as the list has entries); so the two filters of
    the loss panel, [state >= 0] and [state == -1], split the table: no row
    is in both and none is left out. *)
Theorem loss_table_splits
    (self : GccDecisionAnalyzer) (w : world) (data_dict : Data.dict) :
  fst (parse_log_file self w) = Ok data_dict ->
  Forall loss_row_ok (Data.loss data_dict)
  /\ (length (estimates_df (Data.loss data_dict))
      + length (candidates_df (Data.loss data_dict))
      = length (Data.loss data_dict))%nat.
Proof.
  intros H. destruct (parse_ok_pass _ _ _ H) as (lines & p & Hp & ->).
  destruct (process_lines_tables_ok _ _ _ fresh_tables_ok Hp) as (_ & _ & T3 & _).
  simpl. split; [assumption | now apply loss_partition].
Qed.

Lemma loss_table_splits_witness :
  exists data_dict : Data.dict,
    fst (parse_log_file
           {| log_file_path := "sender_cloud.log" |}
           {| files := fun _ =>
                Some ("[LossBWE-Estimate] Time: 10 ms, State: 2, Bandwidth: 500000 bps, Observations: 12"
                      +:+ String newline
                      "[LossBWE-Candidates] Time: 11 ms, Candidate Bandwidths (kbps): 100, 200, ");
              stdout := [] |}) = Ok data_dict
    /\ (length (estimates_df (Data.loss data_dict))
        + length (candidates_df (Data.loss data_dict))
        = length (Data.loss data_dict))%nat.
Proof.
  eexists. split; [vm_compute; reflexivity |].
  refine (proj2 (loss_table_splits
                   {| log_file_path := "sender_cloud.log" |}
                   {| files := fun _ =>
                        Some ("[LossBWE-Estimate] Time: 10 ms, State: 2, Bandwidth: 500000 bps, Observations: 12"
                              +:+ String newline
                              "[LossBWE-Candidates] Time: 11 ms, Candidate Bandwidths (kbps): 100, 200, ");
                      stdout := [] |} _ _)).
  vm_compute. reflexivity.
Defined.

(** ** Candidate lists compose *)

Lemma split_not_nil (sep : ascii) (s : string) : split sep s <> [].
Proof.
  destruct s as [|a s]; simpl; [discriminate |].
  destruct (Ascii.eqb a sep); [discriminate |].
  destruct (split sep s); discriminate.
Qed.

Lemma split_app (sep : ascii) (a b : string) :
  split sep (a +:+ String sep b) = split sep a ++ split sep b.
Proof.
  induction a as [|x a IH]; simpl.
  - now rewrite Ascii.eqb_refl.
  - destruct (Ascii.eqb x sep); [now rewrite IH |].
    rewrite IH. pose proof (split_not_nil sep a) as N.
    destruct (split sep a); [contradiction | reflexivity].
Qed.

Lemma floats_app (l1 l2 : list string) :
  floats (l1 ++ l2) =
    let! v1 := floats l1 in let! v2 := floats l2 in Ok (v1 ++ v2).
Proof.
  induction l1 as [|x l1 IH]; simpl.
  - now destruct (floats l2).
  - destruct (float _); [| reflexivity]. rewrite IH.
    destruct (floats l1); simpl; [| reflexivity].
    now destruct (floats l2).
Qed.

Lemma parse_candidates_comma (a b : string) :
  parse_candidates (a +:+ String "," b) =
    (let! v1 := parse_candidates a in
     let! v2 := parse_candidates b in Ok (v1 ++ v2)).
Proof.
  unfold parse_candidates.
  now rewrite split_app, filter_app, floats_app.
Qed.

Lemma parse_candidates_trailing (a : string) :
  parse_candidates (a +:+ ", ") = parse_candidates a.
Proof.
  change (a +:+ ", ") with (a +:+ String "," " "). rewrite parse_candidates_comma.
  destruct (parse_candidates a) as [v|]; simpl; [| reflexivity].
  change (parse_candidates " ") with (@Ok (list pyfloat) []). simpl.
  now rewrite app_nil_r.
Qed.

(** X8.  The candidate text is read piece by piece: the list read from two
    texts joined by a comma is the list of the first followed by the list
    of the second (and raises as soon as one of them does); in particular
    the comma and blank that end the list in the log change nothing. *)
Theorem candidates_compose (a b : string) :
  parse_candidates (a +:+ String "," b) =
    (let! v1 := parse_candidates a in
     let! v2 := parse_candidates b in Ok (v1 ++ v2))
  /\ parse_candidates (a +:+ ", ") = parse_candidates a.
Proof.
  split; [apply parse_candidates_comma | apply parse_candidates_trailing].
Qed.

(** ** The time axes cover the points *)

Lemma min_list_le (xs : list Z) :
  forall x, min_list x xs <= x /\ forall y, In y xs -> min_list x xs <= y.
Proof.
  unfold min_list. induction xs as [|a xs IH]; simpl; intros x.
  - split; [lia | contradiction].
  - destruct (IH (Z.min x a)) as [H1 H2]. split; [lia |].
    intros y [<- | Hy]; [lia | auto].
Qed.

Lemma max_list_ge (xs : list Z) :
  forall x, x <= max_list x xs /\ forall y, In y xs -> y <= max_list x xs.
Proof.
  unfold max_list. induction xs as [|a xs IH]; simpl; intros x.
  - split; [lia | contradiction].
  - destruct (IH (Z.max x a)) as [H1 H2]. split; [lia |].
    intros y [<- | Hy]; [lia | auto].
Qed.

Lemma min_list_in (xs : list Z) : forall x, In (min_list x xs) (x :: xs).
Proof.
  unfold min_list. induction xs as [|a xs IH]; simpl; intros x; [auto |].
  destruct (IH (Z.min x a)) as [H | H]; [| auto].
  rewrite <- H. destruct (Z.min_spec x a) as [[_ ->] | [_ ->]]; auto.
Qed.

(** *** What follows from the three properties of the rounding *)

Lemma round_eq (round : Q -> Q) (x y : Q) :
  rounding round -> (x == y)%Q -> (round x == round y)%Q.
Proof.
  intros (M & _ & _) E. apply Qle_antisym; apply M; rewrite E; apply Qle_refl.
Qed.

Lemma round_nonneg (round : Q -> Q) (x : Q) :
  rounding round -> (0 <= x)%Q -> (0 <= round x)%Q.
Proof.
  intros (M & _ & Z) H. apply Qle_trans with (round 0%Q); [| now apply M].
  rewrite Z. apply Qle_refl.
Qed.

Lemma div_1000_le (x y : Q) : (x <= y)%Q -> (x / inject_Z 1000 <= y / inject_Z 1000)%Q.
Proof.
  intros H. unfold Qdiv. apply Qmult_le_compat_r; [assumption | discriminate].
Qed.

Lemma time_s_nonneg (round : Q -> Q) (lo t : Z) :
  rounding round -> lo <= t -> (0 <= time_s round lo t)%Q.
Proof.
  intros R H. unfold time_s. apply round_nonneg; [assumption |].
  apply Qle_trans with (0 / inject_Z 1000)%Q; [discriminate |].
  apply div_1000_le. apply round_nonneg; [assumption |].
  unfold Qle. simpl. lia.
Qed.

Lemma time_s_le (round : Q -> Q) (lo t hi : Z) :
  rounding round -> t <= hi -> (time_s round lo t <= time_s round lo hi)%Q.
Proof.
  intros R H. pose proof R as (M & _ & _). unfold time_s.
  apply M, div_1000_le, M. unfold Qle. simpl. lia.
Qed.

Lemma time_s_start (round : Q -> Q) (lo : Z) :
  rounding round -> (time_s round lo lo == 0)%Q.
Proof.
  intros R. pose proof R as (_ & _ & Z). unfold time_s. rewrite Z.sub_diag.
  apply Qeq_trans with (round 0%Q); [| exact Z].
  apply round_eq; [assumption |].
  change (inject_Z 0) with 0%Q. rewrite Z. unfold Qeq. reflexivity.
Qed.

(** The right end of an axis is not to the left of the point it is computed
    from. *)
Lemma axis_end (round : Q -> Q) (lo hi : Z) :
  rounding round ->
  (time_s round lo hi <= round (time_s round lo hi + 1))%Q.
Proof.
  intros (M & I & _).
  apply Qle_trans with (round (time_s round lo hi)).
  - unfold time_s at 1 2. rewrite I. apply Qle_refl.
  - apply M. rewrite <- (Qplus_0_r (time_s round lo hi)) at 1.
    apply Qplus_le_r. discriminate.
Qed.

Lemma time_s_range (round : Q -> Q) (lo hi t : Z) :
  rounding round -> lo <= t -> t <= hi ->
  (0 <= time_s round lo t)%Q
  /\ (time_s round lo t <= round (time_s round lo hi + 1))%Q.
Proof.
  intros R H1 H2. split; [now apply time_s_nonneg |].
  apply Qle_trans with (time_s round lo hi); [now apply time_s_le | now apply axis_end].
Qed.

Lemma all_timestamps_range (round : Q -> Q) (d : Data.dict) (t : Z) :
  rounding round ->
  In t (all_timestamps d) ->
  (0 <= time_s round (start_time_ms d) t)%Q
  /\ (time_s round (start_time_ms d) t <= time_limit round d)%Q.
Proof.
  unfold time_limit, start_time_ms. fold (all_timestamps d).
  destruct (all_timestamps d) as [|t0 ts]; [contradiction |].
  intros R Hin. destruct (min_list_le ts t0) as [L0 L].
  destruct (max_list_ge ts t0) as [G0 G].
  apply time_s_range; [assumption | |]; destruct Hin as [<- | Hin]; auto.
Qed.

(** *** A rounding: down to a multiple of 1/1024 *)

Lemma round_down_1024_rounding : rounding round_down_1024.
Proof.
  unfold rounding, round_down_1024. split; [| split].
  - intros x y H. unfold Qle. cbn [Qnum Qden]. apply Z.mul_le_mono_nonneg_r; [lia |].
    apply Qfloor_resp_le. apply Qmult_le_compat_r; [assumption | discriminate].
  - intros x.
    assert (E : (Qmake (Qfloor (x * inject_Z 1024)) 1024 * inject_Z 1024
                 == inject_Z (Qfloor (x * inject_Z 1024)))%Q).
    { unfold Qeq. cbn [Qnum Qden Qmult inject_Z]. lia. }
    rewrite E, Qfloor_Z. reflexivity.
  - reflexivity.
Qed.

(** X9.  In [plot_gcc_decision_metrics] the common time axis is computed from
    the trendline, RTT and decision tables, and it covers them: for
    timestamps that fit the signed 64-bit columns of the tables, and
    whatever the rounding of the floating-point operations as long as it
    keeps the order, leaves alone what it has rounded and keeps zero,
    whenever the figure is drawn every trendline, RTT and decision point has
    a [time_s] in the range from 0 to [time_limit] that is set on every
    panel. *)
Theorem decision_axis_covers_points
    (round : Q -> Q) (data_dict : Data.dict) (m : metrics) :
  rounding round ->
  Forall int64_timestamp (all_timestamps data_dict) ->
  plot_gcc_decision_metrics round data_dict = Some m ->
  (forall t : Z,
     In t (all_timestamps data_dict) ->
     (0 <= time_s round (start_time_ms data_dict) t)%Q
     /\ (time_s round (start_time_ms data_dict) t <= time_limit round data_dict)%Q)
  /\ (forall pt : decision_point,
        In pt (decision_df m) ->
        (0 <= decision_time_s pt)%Q
        /\ (decision_time_s pt <= time_limit round data_dict)%Q).
Proof.
  intros R _ H. split; [intros t; now apply all_timestamps_range |].
  intros pt Hin.
  assert (E : decision_df m =
              map (fun r =>
                     {| timestamp := Decision.timestamp r;
                        decision_reason := Decision.decision_reason r;
                        decision_time_s :=
                          time_s round (start_time_ms data_dict) (Decision.timestamp r);
                        decision_rank := decision_numeric (Decision.decision_reason r) |})
                  (Data.decision data_dict)).
  { unfold plot_gcc_decision_metrics in H.
    destruct (Data.trendline data_dict), (Data.rtt data_dict), (Data.loss data_dict);
      try discriminate; now inversion H. }
  rewrite E in Hin. apply in_map_iff in Hin. destruct Hin as (r & <- & Hr). simpl.
  apply all_timestamps_range; [assumption |]. unfold all_timestamps.
  rewrite !in_app_iff. right. right. now apply in_map.
Qed.

Lemma decision_axis_covers_points_witness :
  let d := {| Data.trendline :=
                [ {| Trendline.timestamp := 200; Trendline.modified_trend := FNum 1;
                     Trendline.threshold := FNum 2; Trendline.state := "x" |} ];
              Data.rtt := []; Data.loss := []; Data.probe := [];
              Data.decision :=
                [ {| Decision.timestamp := 700; Decision.decision_reason := "Hold" |} ];
              Data.constraint_apply := []; Data.delay_limit := [];
              Data.receiver_limit := []; Data.config_limit := []; Data.pushback := [] |} in
  (0 <= time_s round_down_1024 (start_time_ms d) 700)%Q
  /\ (time_s round_down_1024 (start_time_ms d) 700 <= time_limit round_down_1024 d)%Q.
Proof.
  cbv zeta.
  refine (proj1 (decision_axis_covers_points round_down_1024
            {| Data.trendline :=
                 [ {| Trendline.timestamp := 200; Trendline.modified_trend := FNum 1;
                      Trendline.threshold := FNum 2; Trendline.state := "x" |} ];
               Data.rtt := []; Data.loss := []; Data.probe := [];
               Data.decision :=
                 [ {| Decision.timestamp := 700; Decision.decision_reason := "Hold" |} ];
               Data.constraint_apply := []; Data.delay_limit := [];
               Data.receiver_limit := []; Data.config_limit := []; Data.pushback := [] |}
            _ round_down_1024_rounding _ _) 700 _).
  - repeat constructor; unfold int64_timestamp; simpl; lia.
  - reflexivity.
  - simpl. auto.
Defined.

(** X10.  [plot_constraint_analysis] draws only when there is a constraint
    row, and then its time axis starts at the earliest constraint row: for
    timestamps that fit a signed 64-bit column, and whatever the rounding
    of the floating-point operations as long as it keeps the order, leaves
    alone what it has rounded and keeps zero, every constraint row is kept,
    in order, with a [time_s] in the range from 0 to [time_limit], and some
    row stands at 0. *)
Theorem constraint_axis_covers_points
    (round : Q -> Q) (data_dict : Data.dict) (v : constraint_view) :
  rounding round ->
  Forall int64_timestamp (map ConstraintApply.timestamp (Data.constraint_apply data_dict)) ->
  plot_constraint_analysis round data_dict = Some v ->
  map fst (constraint_points v) = Data.constraint_apply data_dict
  /\ (forall (r : ConstraintApply.row) (t : Q),
        In (r, t) (constraint_points v) ->
        (0 <= t)%Q /\ (t <= constraint_time_limit v)%Q)
  /\ exists (r : ConstraintApply.row) (t : Q),
       In (r, t) (constraint_points v) /\ (t == 0)%Q.
Proof.
  intros R _. unfold plot_constraint_analysis.
  destruct (map ConstraintApply.timestamp (Data.constraint_apply data_dict))
    as [|t0 ts] eqn:E; [discriminate |].
  intros H. inversion H; subst; clear H. simpl.
  destruct (min_list_le ts t0) as [L0 L]. destruct (max_list_ge ts t0) as [G0 G].
  assert (In_ts : forall r, In r (Data.constraint_apply data_dict) ->
                            In (ConstraintApply.timestamp r) (t0 :: ts)).
  { intros r Hr. rewrite <- E. now apply in_map. }
  split; [| split].
  - rewrite map_map. simpl. apply map_id.
  - intros r t Hin. apply in_map_iff in Hin. destruct Hin as (r' & Heq & Hr).
    inversion Heq; subst.
    apply time_s_range; [assumption | |]; destruct (In_ts _ Hr) as [<- | Hin]; auto.
  - pose proof (min_list_in ts t0) as Hmin. rewrite <- E in Hmin.
    apply in_map_iff in Hmin. destruct Hmin as (r & Hr & Hin).
    exists r, (time_s round (min_list t0 ts) (ConstraintApply.timestamp r)). split.
    + apply in_map_iff. exists r. split; [reflexivity | assumption].
    + rewrite Hr. now apply time_s_start.
Qed.

Lemma constraint_axis_covers_points_witness :
  let row (t : Z) :=
    {| ConstraintApply.timestamp := t; ConstraintApply.original := 9;
       ConstraintApply.upper_limit := 8; ConstraintApply.after_upper := 8;
       ConstraintApply.min_config := 1; ConstraintApply.final := 8;
       ConstraintApply.delay_limit := 8; ConstraintApply.receiver_limit := 9;
       ConstraintApply.max_config := 9 |} in
  exists (r : ConstraintApply.row) (t : Q),
    In (r, t)
       [ (row 1500, round_down_1024 (round_down_1024 (inject_Z 500) / inject_Z 1000));
         (row 1000, round_down_1024 (round_down_1024 (inject_Z 0) / inject_Z 1000)) ]
    /\ (t == 0)%Q.
Proof.
  cbv zeta.
  refine (proj2 (proj2 (constraint_axis_covers_points round_down_1024
            {| Data.trendline := []; Data.rtt := []; Data.loss := []; Data.probe := [];
               Data.decision := [];
               Data.constraint_apply :=
                 [ {| ConstraintApply.timestamp := 1500; ConstraintApply.original := 9;
                      ConstraintApply.upper_limit := 8; ConstraintApply.after_upper := 8;
                      ConstraintApply.min_config := 1; ConstraintApply.final := 8;
                      ConstraintApply.delay_limit := 8; ConstraintApply.receiver_limit := 9;
                      ConstraintApply.max_config := 9 |};
                   {| ConstraintApply.timestamp := 1000; ConstraintApply.original := 9;
                      ConstraintApply.upper_limit := 8; ConstraintApply.after_upper := 8;
                      ConstraintApply.min_config := 1; ConstraintApply.final := 8;
                      ConstraintApply.delay_limit := 8; ConstraintApply.receiver_limit := 9;
                      ConstraintApply.max_config := 9 |} ];
               Data.delay_limit := []; Data.receiver_limit := [];
               Data.config_limit := []; Data.pushback := [] |}
            {| constraint_points := _; pushback_points := [];
               constraint_time_limit :=
                 round_down_1024
                   (time_s round_down_1024 1000 1500 + 1) |}
            round_down_1024_rounding _ _))).
  - repeat constructor; unfold int64_timestamp; simpl; lia.
  - reflexivity.
Defined.

(** ** The most common state of the loss panel *)

Lemma outranks_refl (l : list Z) (a : Z) : outranks l a a.
Proof. right. split; [reflexivity | lia]. Qed.

Lemma outranks_trans (l : list Z) (a b c : Z) :
  outranks l a b -> outranks l b c -> outranks l a c.
Proof. unfold outranks. intros [H1 | [H1 L1]] [H2 | [H2 L2]]; [left | left | left | right]; lia. Qed.

Lemma mode_fold (l xs : list Z) :
  forall b : Z,
    let r := fold_left
               (fun best y =>
                  let cy := count_Z y l in
                  let cb := count_Z best l in
                  if (cb <? cy)%nat || ((cb =? cy)%nat && Z.ltb y best) then y else best)
               xs b in
    In r (b :: xs) /\ outranks l r b /\ forall y, In y xs -> outranks l r y.
Proof.
  induction xs as [|a xs IH]; intros b; cbv zeta; simpl.
  - split; [auto |]. split; [apply outranks_refl | contradiction].
  - set (b' := if (count_Z b l <? count_Z a l)%nat
                     || ((count_Z b l =? count_Z a l)%nat && Z.ltb a b) then a else b).
    assert (Hb' : (b' = a \/ b' = b) /\ outranks l b' b /\ outranks l b' a).
    { unfold b', outranks.
      destruct (Nat.ltb_spec (count_Z b l) (count_Z a l)); simpl.
      - split; [auto |]. split; [left; lia | right; split; [reflexivity | lia]].
      - destruct (Nat.eqb_spec (count_Z b l) (count_Z a l)); simpl.
        + destruct (Z.ltb_spec a b).
          * split; [auto |]. split; right; split; lia.
          * split; [auto |]. split; right; split; lia.
        + split; [auto |]. split; [right; split; lia | left; lia]. }
    destruct Hb' as (Hin & Hb & Ha).
    destruct (IH b') as (I1 & I2 & I3). cbv zeta in I1, I2, I3.
    split; [| split].
    + destruct I1 as [<- | I1]; [| auto]. destruct Hin as [-> | ->]; auto.
    + eapply outranks_trans; eassumption.
    + intros y [<- | Hy]; [eapply outranks_trans; eassumption | auto].
Qed.

Lemma count_Z_absent (l : list Z) (s : Z) : ~ In s l -> count_Z s l = 0%nat.
Proof.
  unfold count_Z. induction l as [|a l IH]; simpl; intros H; [reflexivity |].
  destruct (Z.eqb_spec s a) as [-> | _]; [exfalso; auto |]. apply IH. auto.
Qed.

(** X11.  The most common state of the loss panel is taken over the estimate
    rows alone: it is the state of some row with state [>= 0], hence never
    the sentinel -1 of a candidates row; no state occurs in more estimate
    rows than it does, and among equally frequent states it is the least. *)
Theorem most_common_state_is_an_estimate (loss_df : list Loss.row) (st : loss_stats) :
  loss_statistics loss_df = Some st ->
  let states := map Loss.state (estimates_df loss_df) in
  In (most_common_state st) states
  /\ 0 <= most_common_state st
  /\ forall s : Z,
       (count_Z s states <= count_Z (most_common_state st) states)%nat
       /\ (In s states ->
           count_Z s states = count_Z (most_common_state st) states ->
           most_common_state st <= s).
Proof.
  unfold loss_statistics. cbv zeta.
  destruct (map Loss.state (estimates_df loss_df)) as [|x xs] eqn:E; [discriminate |].
  intros H. inversion H; subst; clear H. simpl most_common_state.
  destruct (mode_fold (x :: xs) xs x) as (I1 & I2 & I3). cbv zeta in I1, I2, I3.
  fold (mode x xs) in I1, I2, I3.
  assert (Best : forall y, In y (x :: xs) -> outranks (x :: xs) (mode x xs) y).
  { intros y [<- | Hy]; auto. }
  split; [assumption |]. split.
  - rewrite <- E in I1. apply in_map_iff in I1. destruct I1 as (r & <- & Hr).
    unfold estimates_df in Hr. apply filter_In in Hr. destruct Hr as [_ Hr].
    now apply Z.leb_le.
  - intros s. destruct (in_dec Z.eq_dec s (x :: xs)) as [Hs | Hs].
    + destruct (Best s Hs) as [Hlt | [Heq Hle]]; split; try lia; intros; lia.
    + rewrite (count_Z_absent _ _ Hs). split; [lia | contradiction].
Qed.

Lemma most_common_state_is_an_estimate_witness :
  let row (s : Z) (c : option (list pyfloat)) :=
    {| Loss.timestamp := 1; Loss.state := s; Loss.bandwidth := 1000;
       Loss.observations := 1; Loss.candidates := c |} in
  let loss_df := [ row (-1) (Some []); row 2 None; row (-1) (Some []); row 0 None;
                   row (-1) (Some []) ] in
  0 <= 0 /\ In 0 (map Loss.state (estimates_df loss_df)).
Proof.
  cbv zeta.
  pose proof (most_common_state_is_an_estimate
                [ {| Loss.timestamp := 1; Loss.state := -1; Loss.bandwidth := 1000;
                     Loss.observations := 1; Loss.candidates := Some [] |};
                  {| Loss.timestamp := 1; Loss.state := 2; Loss.bandwidth := 1000;
                     Loss.observations := 1; Loss.candidates := None |};
                  {| Loss.timestamp := 1; Loss.state := -1; Loss.bandwidth := 1000;
                     Loss.observations := 1; Loss.candidates := Some [] |};
                  {| Loss.timestamp := 1; Loss.state := 0; Loss.bandwidth := 1000;
                     Loss.observations := 1; Loss.candidates := None |};
                  {| Loss.timestamp := 1; Loss.state := -1; Loss.bandwidth := 1000;
                     Loss.observations := 1; Loss.candidates := Some [] |} ]
                {| avg_bandwidth := 1; avg_observations := 1; most_common_state := 0 |}
                ltac:(vm_compute; reflexivity)) as H.
  cbv zeta in H. destruct H as (Hin & Hnonneg & _).
  split; [exact Hnonneg | exact Hin].
Defined.

(** ** A snapshot line gives one decision row *)

Lemma scan_bracket_app (b : bool) (x y : string) :
  scan_bracket b (x +:+ y) =
    match scan_bracket b x with
    | Some b' => scan_bracket b' y
    | None => None
    end.
Proof.
  revert b. induction x as [|a x IH]; intros b; simpl; [reflexivity |].
  destruct (step_bracket b a); [apply IH | reflexivity].
Qed.

Lemma word_not_bracket (a : ascii) : is_word a = true -> Ascii.eqb a "[" = false.
Proof. destruct a as [[] [] [] [] [] [] [] []]; vm_compute; congruence. Qed.

Lemma scan_bracket_word (w t : string) :
  str_forall is_word w = true -> scan_bracket false (w +:+ t) = scan_bracket false t.
Proof.
  induction w as [|a w IH]; simpl; intros H; [reflexivity |].
  apply andb_prop in H. destruct H as [Ha Hw].
  unfold step_bracket. simpl. rewrite (word_not_bracket _ Ha). now apply IH.
Qed.

Lemma scan_bracket_digits (d t : string) :
  str_forall is_digit d = true -> scan_bracket false (d +:+ t) = scan_bracket false t.
Proof.
  intros H. apply scan_bracket_word.
  induction d as [|a d IH]; simpl in *; [reflexivity |].
  apply andb_prop in H. destruct H as [Ha Hd].
  now rewrite (digit_is_word _ Ha), IH.
Qed.

Lemma scan_bracket_literal (l t : string) :
  scan_bracket false l = Some false ->
  scan_bracket false (l +:+ t) = scan_bracket false t.
Proof. intros H. now rewrite scan_bracket_app, H. Qed.

Lemma bracket_found (pre tail : string) :
  scan_bracket false (pre +:+ "[P" +:+ tail) = None.
Proof.
  rewrite scan_bracket_app. destruct (scan_bracket false pre) as [b|]; [| reflexivity].
  simpl. unfold step_bracket. now destruct b.
Qed.

Lemma legacy_needs_bracket (line : string) (m : captures) (rest : string) :
  search Patterns.probe_result_old line = Some (m, rest)
  \/ search Patterns.probe_success_old line = Some (m, rest) ->
  scan_bracket false line = None.
Proof.
  intros [H | H]; apply search_sound in H; destruct H as (pre & w & -> & Hw);
    simpl in Hw; destruct Hw as (w1 & w2 & -> & -> & _);
    match goal with
    | |- scan_bracket false (pre +:+ (?l +:+ w2) +:+ rest) = None =>
        replace (pre +:+ (l +:+ w2) +:+ rest)
          with (pre +:+ "[P" +:+ (substring 2 (String.length l) l +:+ w2 +:+ rest))
    end;
    try apply bracket_found; rewrite !append_assoc; reflexivity.
Qed.

Ltac bracket_step :=
  match goal with
  | H : str_forall _ ?d = true |- context [scan_bracket false (?d +:+ ?t)] =>
      first [ rewrite (scan_bracket_digits d t H) | rewrite (scan_bracket_word d t H) ]
  | |- context [scan_bracket false (?l +:+ ?t)] =>
      rewrite (scan_bracket_literal l t) by reflexivity
  end.

Lemma snapshot_scan_bracket (line : string) (m : captures) (rest : string) :
  match_at Patterns.decision line = Some (m, rest) ->
  rest = "" \/ rest = String newline "" ->
  scan_bracket false line <> None.
Proof.
  intros Hm Hrest.
  apply match_at_sound in Hm. destruct Hm as (w & -> & Hw).
  simpl in Hw.
  repeat match goal with
         | H : exists _, _ |- _ => destruct H
         | H : _ /\ _ |- _ => destruct H
         end.
  subst.
  rewrite !append_assoc.
  do 19 bracket_step.
  match goal with
  | H : str_forall _ ?w = true |- scan_bracket false (?w +:+ rest) <> None =>
      rewrite (scan_bracket_word w rest H)
  end.
  destruct Hrest as [-> | ->]; discriminate.
Qed.

Lemma search_at_head (r : regex) (line : string) (m : captures) (rest : string) :
  match_at r line = Some (m, rest) -> search r line = Some (m, rest).
Proof. intros H. destruct line; simpl; now rewrite H. Qed.

Lemma last_word_is_word (w : string) : str_forall is_word (last_word w) = true.
Proof.
  induction w as [|a w IH]; [reflexivity |].
  cbn [last_word]. destruct (str_forall is_word (String a w)) eqn:E; assumption.
Qed.

(** A line that is a record and nothing else holds no timestamp the loop
    recognises. *)
Lemma bare_record_untimed (line : string) (m : captures) (rest : string) :
  match_at Patterns.decision line = Some (m, rest) ->
  rest = "" \/ rest = String newline "" ->
  search Patterns.timestamp line = None.
Proof.
  intros Hm Hrest.
  apply match_at_sound in Hm. destruct Hm as (w & -> & Hw).
  apply (record_timestamp "" w rest Hw). split; [reflexivity |].
  apply timestamp_scan.
  destruct (scan_word (last_word w) (last_word_is_word w) S0 rest eq_refl)
    as (q & C & ->).
  destruct Hrest as [-> | ->]; destruct q; discriminate.
Qed.

(** X12.  A line that is one decision-snapshot record and nothing else, with
    runs of digits within the limit of [int], adds exactly one row, to the
    decision table, with the timestamp and the reason of the record; it
    leaves the other tables and the carried timestamp as they are, whatever
    has been read before. *)
Theorem snapshot_line_gives_one_decision
    (p : pass) (line : string) (m : captures) (rest : string) :
  match_at Patterns.decision line = Some (m, rest) ->
  rest = "" \/ rest = String newline "" ->
  digit_runs_within int_max_str_digits line = true ->
  process_line p line =
    Ok (append_decision
          {| Decision.timestamp := digits_value (grp m 1);
             Decision.decision_reason := grp m 9 |} p).
Proof.
  intros Hm Hrest B.
  pose proof (bare_record_untimed _ _ _ Hm Hrest) as Hl.
  pose proof (snapshot_scan_bracket _ _ _ Hm Hrest) as Hb.
  pose proof (search_at_head _ _ _ _ Hm) as Hs.
  unfold process_line. rewrite (observe_within p line B). unfold observed.
  rewrite (proj2 (line_timestamp_none line) Hl). cbn [bind].
  rewrite (untimed_line _ _ Hl).
  assert (R : search Patterns.probe_result_old line = None).
  { destruct (search Patterns.probe_result_old line) as [[m' r']|] eqn:E; [| reflexivity].
    exfalso. apply Hb. apply (legacy_needs_bracket line m' r'). now left. }
  assert (R' : search Patterns.probe_success_old line = None).
  { destruct (search Patterns.probe_success_old line) as [[m' r']|] eqn:E; [| reflexivity].
    exfalso. apply Hb. apply (legacy_needs_bracket line m' r'). now right. }
  unfold on_probe_result_old, on_probe_success_old, on_decision.
  rewrite R, R', Hs, (int_capture _ _ _ _ 1 Hs B eq_refl). reflexivity.
Qed.

Lemma snapshot_line_gives_one_decision_witness :
  process_line (set_last_timestamp (Some 7) fresh)
    "[GCC-DECISION-SNAPSHOT] at 500ms | DelayState: Normal, DelayTargetBps: 300000 | RttBackoff: true | ProbeResultBps: 0 | BweTargetBps: 300000 | AckedBitrateBps: 0 | FinalTargetBps: 250000 | DecisionReason: RttBackoff | Updated: true"
  = Ok (append_decision
          {| Decision.timestamp := 500; Decision.decision_reason := "RttBackoff" |}
          (set_last_timestamp (Some 7) fresh)).
Proof.
  refine (snapshot_line_gives_one_decision (set_last_timestamp (Some 7) fresh)
            "[GCC-DECISION-SNAPSHOT] at 500ms | DelayState: Normal, DelayTargetBps: 300000 | RttBackoff: true | ProbeResultBps: 0 | BweTargetBps: 300000 | AckedBitrateBps: 0 | FinalTargetBps: 250000 | DecisionReason: RttBackoff | Updated: true"
            [ (10%nat, "true"); (9%nat, "RttBackoff"); (8%nat, "250000"); (7%nat, "0");
              (6%nat, "300000"); (5%nat, "0"); (4%nat, "true"); (3%nat, "300000");
              (2%nat, "Normal"); (1%nat, "500") ] "" _ _ _).
  - vm_compute. reflexivity.
  - left. reflexivity.
  - vm_compute. reflexivity.
Defined.

(** ** Lists of integer candidates *)

Lemma digit_chars (a : ascii) :
  is_digit a = true ->
  is_float_space a = false /\ is_space a = false /\ Ascii.eqb "," a = false
  /\ Ascii.eqb a "," = false
  /\ Ascii.eqb (lower a) "i" = false /\ Ascii.eqb (lower a) "n" = false.
Proof.
  destruct a as [[] [] [] [] [] [] [] []]; vm_compute; intros H;
    try discriminate H; repeat split.
Qed.

Lemma sign_of_digit (a : ascii) (s : string) :
  is_digit a = true -> sign_of (String a s) = (false, String a s).
Proof.
  intros H.
  destruct a as [[] [] [] [] [] [] [] []]; try reflexivity; vm_compute in H; discriminate H.
Qed.

Lemma str_forall_impl (p q : ascii -> bool) (s : string) :
  (forall a, p a = true -> q a = true) ->
  str_forall p s = true -> str_forall q s = true.
Proof.
  intros I. induction s as [|a s IH]; simpl; [reflexivity |].
  intros H. apply andb_prop in H. destruct H as [Ha Hs].
  now rewrite (I _ Ha), IH.
Qed.

Lemma rstrip_by_id (p : ascii -> bool) (s : string) :
  str_forall (fun a => negb (p a)) s = true -> rstrip_by p s = s.
Proof.
  induction s as [|a s IH]; simpl; [reflexivity |].
  intros H. apply andb_prop in H. destruct H as [Ha Hs].
  rewrite (IH Hs). destruct s; [| reflexivity].
  apply negb_true_iff in Ha. now rewrite Ha.
Qed.

Lemma digits_rstrip (p : ascii -> bool) (s : string) :
  (forall a, is_digit a = true -> p a = false) ->
  str_forall is_digit s = true -> rstrip_by p s = s.
Proof.
  intros I H. apply rstrip_by_id. revert H. apply str_forall_impl.
  intros a Ha. now rewrite (I _ Ha).
Qed.

Lemma digit_run_digits (s : string) :
  str_forall is_digit s = true -> digit_run s = (s, "").
Proof.
  induction s as [|a s IH]; simpl; [reflexivity |].
  intros H. apply andb_prop in H. destruct H as [Ha Hs].
  now rewrite Ha, (IH Hs).
Qed.

Lemma split_no_sep (sep : ascii) (s : string) :
  str_forall (fun a => negb (Ascii.eqb a sep)) s = true -> split sep s = [s].
Proof.
  induction s as [|a s IH]; simpl; [reflexivity |].
  intros H. apply andb_prop in H. destruct H as [Ha Hs].
  apply negb_true_iff in Ha. now rewrite Ha, (IH Hs).
Qed.

Lemma exact_below_overflow : 2 ^ 53 < overflow_bound.
Proof. vm_compute. reflexivity. Qed.

Lemma finite_small (z : Z) :
  0 <= z <= 2 ^ 53 -> finite_or_inf (z # 1) = FNum (z # 1).
Proof.
  intros H. pose proof exact_below_overflow as B.
  unfold finite_or_inf, Qle_bool. cbn [Qnum Qden inject_Z].
  destruct (Z.leb_spec (overflow_bound * 1) (Z.abs z * 1)) as [L | L];
    [exfalso; lia | reflexivity].
Qed.

Lemma scale10_unit (z : Z) : scale10 z (0 + 0) = z # 1.
Proof. unfold scale10. simpl. now rewrite Z.mul_1_r. Qed.

(** [float] on a run of digits that is an exact integer gives its value. *)
Lemma float_digits (d : string) :
  exact_integer d -> float d = Some (integer_value d).
Proof.
  intros (Hne & Hd & Hb).
  pose proof (int_digits_nonneg d Hd 0 ltac:(lia)) as Hpos. fold (digits_value d) in Hpos.
  destruct d as [|a d']; [contradiction |].
  pose proof Hd as Hd0. simpl in Hd0. apply andb_prop in Hd0. destruct Hd0 as [Ha Hd'].
  destruct (digit_chars a Ha) as (F & _ & _ & _ & I & N).
  unfold float.
  replace (lstrip_by is_float_space (String a d')) with (String a d')
    by (simpl; now rewrite F).
  rewrite (digits_rstrip is_float_space (String a d'))
    by (assumption || (intros b Hb'; apply (digit_chars b Hb'))).
  rewrite (sign_of_digit a d' Ha).
  cbn [lowercase String.eqb]. rewrite I, N. cbn [andb orb].
  unfold number, digitpart. rewrite Ha, (digit_run_digits _ Hd).
  cbn [exponent]. rewrite scale10_unit.
  rewrite finite_small by lia. reflexivity.
Qed.

Lemma digits_head (d : string) :
  exact_integer d -> exists a d', d = String a d' /\ is_digit a = true.
Proof.
  intros (Hne & Hd & _). destruct d as [|a d']; [contradiction |].
  simpl in Hd. apply andb_prop in Hd. destruct Hd as [Ha _]. eauto.
Qed.

Lemma piece_value (pad d : string) :
  pad = "" \/ pad = " " -> exact_integer d ->
  split "," (pad +:+ d) = [pad +:+ d] /\ rstrip_comma (strip (pad +:+ d)) = d.
Proof.
  intros Hpad E. pose proof E as (Hne & Hd & _).
  assert (S : split "," d = [d]).
  { apply split_no_sep. revert Hd. apply str_forall_impl.
    intros a Ha. destruct (digit_chars a Ha) as (_ & _ & _ & C & _). now rewrite C. }
  assert (R : rstrip_comma (strip d) = d).
  { unfold rstrip_comma, strip.
    destruct (digits_head d E) as (a & d' & -> & Ha).
    replace (lstrip_by is_space (String a d')) with (String a d')
      by (simpl; now rewrite (proj1 (proj2 (digit_chars a Ha)))).
    rewrite (digits_rstrip is_space) by (assumption || (intros b Hb; apply (digit_chars b Hb))).
    apply digits_rstrip; [| assumption].
    intros b Hb. apply (digit_chars b Hb). }
  destruct Hpad as [-> | ->].
  - simpl. auto.
  - change (" " +:+ d) with (String " " d). split.
    + simpl. now rewrite S.
    + unfold strip. change (lstrip_by is_space (String " " d)) with (lstrip_by is_space d).
      exact R.
Qed.

Lemma parse_one_candidate (pad d : string) :
  pad = "" \/ pad = " " -> exact_integer d ->
  parse_candidates (pad +:+ d) = Ok [integer_value d].
Proof.
  intros Hpad E. destruct (piece_value pad d Hpad E) as [S R].
  unfold parse_candidates. rewrite S. simpl. rewrite R.
  destruct (digits_head d E) as (a & d' & Hd & _).
  replace (nonempty d) with true by (now rewrite Hd).
  simpl. rewrite R, (float_digits d E). reflexivity.
Qed.

Lemma parse_joined (ds : list string) :
  forall (pad d : string),
    pad = "" \/ pad = " " -> Forall exact_integer (d :: ds) ->
    parse_candidates (pad +:+ join_candidates d ds) = Ok (map integer_value (d :: ds)).
Proof.
  induction ds as [|d' ds IH]; intros pad d Hpad H.
  - simpl. apply parse_one_candidate; [assumption | now inversion H].
  - inversion H as [| ? ? Hd Hrest]; subst.
    change (join_candidates d (d' :: ds))
      with (d +:+ String "," (" " +:+ join_candidates d' ds)).
    rewrite <- (append_assoc pad d), parse_candidates_comma.
    rewrite (parse_one_candidate pad d Hpad Hd).
    rewrite (IH " " d' (or_intror eq_refl) Hrest). reflexivity.
Qed.

Lemma py_max_integers (xs : list string) :
  forall z : Z,
    py_max (FNum (inject_Z z)) (map integer_value xs)
    = FNum (inject_Z (max_list z (map digits_value xs))).
Proof.
  unfold py_max, max_list.
  induction xs as [|x xs IH]; intros z; simpl; [reflexivity |].
  unfold integer_value at 1. unfold float_gt, Qcompare. cbn [Qnum Qden inject_Z].
  rewrite !Z.mul_1_r.
  destruct (Z.compare_spec (digits_value x) z) as [E | L | G].
  - rewrite Z.max_l by lia. apply IH.
  - rewrite Z.max_l by lia. apply IH.
  - rewrite Z.max_r by lia. apply IH.
Qed.

Lemma max_list_in (xs : list Z) : forall x, In (max_list x xs) (x :: xs).
Proof.
  unfold max_list. induction xs as [|a xs IH]; simpl; intros x; [auto |].
  destruct (IH (Z.max x a)) as [H | H]; [| auto].
  rewrite <- H. destruct (Z.max_spec x a) as [[_ ->] | [_ ->]]; auto.
Qed.

Lemma Qred_integer (z : Z) : Qred (z # 1) = z # 1.
Proof.
  unfold Qred.
  pose proof (Z.ggcd_gcd z 1) as G. pose proof (Z.ggcd_correct_divisors z 1) as D.
  destruct (Z.ggcd z 1) as [g [aa bb]]. simpl in G, D.
  rewrite Z.gcd_1_r in G. subst g. destruct D as [D1 D2].
  rewrite Z.mul_1_l in D1, D2. now subst.
Qed.

Lemma integer_bandwidth (d : string) (ds : list string) :
  Forall exact_integer (d :: ds) ->
  candidates_bandwidth (map integer_value (d :: ds))
  = Ok (max_list (digits_value d) (map digits_value ds) * 1000).
Proof.
  intros H. simpl. unfold integer_value at 1. rewrite py_max_integers.
  set (M := max_list (digits_value d) (map digits_value ds)).
  assert (B : 0 <= M /\ M * 1000 <= 2 ^ 53).
  { pose proof (max_list_in (map digits_value ds) (digits_value d)) as I. fold M in I.
    change (digits_value d :: map digits_value ds) with (map digits_value (d :: ds)) in I.
    apply in_map_iff in I. destruct I as (x & <- & Hx).
    rewrite Forall_forall in H. destruct (H x Hx) as (_ & Hd & Hb).
    split; [| assumption].
    apply (int_digits_nonneg x Hd 0). lia. }
  unfold float_mul_int, Qmult. cbn [Qnum Qden inject_Z Pos.mul].
  rewrite Qred_integer, finite_small by lia.
  unfold int_of_float. cbn [Qnum Qden]. now rewrite Z.quot_1_r.
Qed.

(** X13.  On a line of ASCII text with runs of digits within the limit of
    [int], when the Trendline, RttBWE-Update and LossBWE-Estimate patterns
    do not match the line and the candidate list of a LossBWE-Candidates
    line is any list of integers written in digits and separated by a comma
    and a blank, with or without the comma and blank that end the list in
    the log, each small enough for its value in bps to be exact, the
    iteration appends one loss row with state -1: its bandwidth is the
    largest candidate times 1000, its observation count is the number of
    candidates, and it keeps the candidates in the order of the line. *)
Theorem integer_candidates_record
    (p : pass) (line : string) (m : captures) (rest : string)
    (d : string) (ds : list string) (ending : string) :
  plain_line line = true ->
  search Patterns.trendline line = None ->
  search Patterns.rtt_bwe line = None ->
  search Patterns.loss_bwe line = None ->
  search Patterns.loss_candidates line = Some (m, rest) ->
  grp m 2 = join_candidates d ds +:+ ending ->
  ending = "" \/ ending = ", " ->
  Forall exact_integer (d :: ds) ->
  process_line p line =
    Ok (append_loss
          {| Loss.timestamp := digits_value (grp m 1);
             Loss.state := -1;
             Loss.bandwidth := max_list (digits_value d) (map digits_value ds) * 1000;
             Loss.observations := Z.of_nat (S (length ds));
             Loss.candidates := Some (map integer_value (d :: ds)) |}
          (observed p line)).
Proof.
  intros Hplain H1 H2 H3 H4 Hlist Hend E. apply plain_line_digits in Hplain.
  rewrite (reaches_candidates_within p line m rest Hplain H1 H2 H3 H4), Hlist.
  assert (P : parse_candidates (join_candidates d ds +:+ ending)
              = Ok (map integer_value (d :: ds))).
  { destruct Hend as [-> | ->].
    - rewrite append_empty_r. exact (parse_joined ds "" d (or_introl eq_refl) E).
    - rewrite parse_candidates_trailing.
      exact (parse_joined ds "" d (or_introl eq_refl) E). }
  rewrite P.
  cbn [bind]. rewrite (integer_bandwidth d ds E). cbn [bind].
  now rewrite length_map.
Qed.

Lemma integer_candidates_record_witness :
  process_line fresh
    "[LossBWE-Candidates] Time: 9 ms, Candidate Bandwidths (kbps): 250, 1200, 64, 1200, "
  = Ok (append_loss
          {| Loss.timestamp := 9; Loss.state := -1; Loss.bandwidth := 1200000;
             Loss.observations := 4;
             Loss.candidates := Some [FNum 250; FNum 1200; FNum 64; FNum 1200] |}
          (set_last_timestamp (Some 9) fresh)).
Proof.
  refine (integer_candidates_record fresh
            "[LossBWE-Candidates] Time: 9 ms, Candidate Bandwidths (kbps): 250, 1200, 64, 1200, "
            [ (2%nat, "250, 1200, 64, 1200, "); (1%nat, "9") ] ""
            "250" [ "1200"; "64"; "1200" ] ", " _ _ _ _ _ _ _ _).
  - vm_compute. reflexivity.
  - vm_compute. reflexivity.
  - vm_compute. reflexivity.
  - vm_compute. reflexivity.
  - vm_compute. reflexivity.
  - vm_compute. reflexivity.
  - right. reflexivity.
  - repeat constructor; try discriminate; vm_compute; discriminate.
Defined.

(** ** The reduction ratio of a pushback line *)

Lemma reaches_pushback (p : pass) (line : string) (m : captures) (rest : string) :
  digit_runs_within int_max_str_digits line = true ->
  Forall (fun r => search r line = None) patterns_before_pushback ->
  search Patterns.pushback line = Some (m, rest) ->
  process_line p line =
    match float (grp m 6) with
    | Some reduction_ratio =>
        Ok (append_pushback
              {| Pushback.timestamp := digits_value (grp m 1);
                 Pushback.original_rate := digits_value (grp m 2);
                 Pushback.pushback_rate := digits_value (grp m 3);
                 Pushback.min_bitrate := digits_value (grp m 4);
                 Pushback.reduction := digits_value (grp m 5);
                 Pushback.reduction_ratio := reduction_ratio |}
              (observed p line))
    | None => Raise ValueError
    end.
Proof.
  intros B F H. unfold patterns_before_pushback in F.
  repeat match goal with
         | G : Forall _ (_ :: _) |- _ => inversion G; clear G; subst
         end.
  unfold process_line. rewrite (observe_within p line B). cbn [bind].
  unfold branches, first_of, on_trendline, on_rtt_bwe, on_loss_bwe,
    on_loss_candidates, on_probe_result, on_probe_success, on_probe_result_old,
    on_probe_success_old, on_decision, on_constraint_apply, on_delay_limit,
    on_receiver_limit, on_pushback.
  repeat match goal with
         | G : search ?r line = None |- _ => rewrite G; clear G
         end.
  rewrite H.
  rewrite (int_capture _ _ _ _ 1 H B eq_refl), (int_capture _ _ _ _ 2 H B eq_refl),
    (int_capture _ _ _ _ 3 H B eq_refl), (int_capture _ _ _ _ 4 H B eq_refl),
    (int_capture _ _ _ _ 5 H B eq_refl).
  reflexivity.
Qed.

(** X14.  On a CongestionWindowPushback line of ASCII text with runs of
    digits within the limit of [int] that no earlier block takes, the text
    of the reduction ratio decides the run: when [float] reads it, the
    iteration appends one pushback row holding the five integers and the
    ratio; when [float] does not, the [ValueError] is not caught and the
    whole run fails, wherever the line stands in the log. *)
Theorem pushback_ratio_decides
    (line : string) (m : captures) (rest : string) :
  plain_line line = true ->
  Forall (fun r => search r line = None) patterns_before_pushback ->
  search Patterns.pushback line = Some (m, rest) ->
  (forall reduction_ratio : pyfloat,
     float (grp m 6) = Some reduction_ratio ->
     forall p : pass,
       process_line p line =
         Ok (append_pushback
               {| Pushback.timestamp := digits_value (grp m 1);
                  Pushback.original_rate := digits_value (grp m 2);
                  Pushback.pushback_rate := digits_value (grp m 3);
                  Pushback.min_bitrate := digits_value (grp m 4);
                  Pushback.reduction := digits_value (grp m 5);
                  Pushback.reduction_ratio := reduction_ratio |}
               (observed p line)))
  /\ (float (grp m 6) = None ->
      forall (before after : list string) (p : pass),
        exists e : exn, process_lines p (before ++ line :: after) = Raise e).
Proof.
  intros Hplain F H. apply plain_line_digits in Hplain. split.
  - intros v Hv p. now rewrite (reaches_pushback p line m rest Hplain F H), Hv.
  - intros Hbad before after p.
    apply process_lines_raise with (e := ValueError). intros q.
    now rewrite (reaches_pushback q line m rest Hplain F H), Hbad.
Qed.

Lemma pushback_ratio_decides_witness :
  exists e : exn,
    process_lines fresh
      ([ "[BWE-DelayLimit] Time: 1 ms, OldLimit: 2 bps, NewLimit: 3 bps, CurrentTarget: 4 bps" ]
       ++ "[BWE-CongestionWindowPushback] Time: 5 ms, OriginalRate: 900 bps, PushbackRate: 600 bps, MinBitrate: 100 bps, Reduction: 300 bps, ReductionRatio: n/a%"
       :: [ "[BWE-DelayLimit] Time: 9 ms, OldLimit: 3 bps, NewLimit: 4 bps, CurrentTarget: 4 bps" ])
    = Raise e.
Proof.
  refine (proj2 (pushback_ratio_decides
            "[BWE-CongestionWindowPushback] Time: 5 ms, OriginalRate: 900 bps, PushbackRate: 600 bps, MinBitrate: 100 bps, Reduction: 300 bps, ReductionRatio: n/a%"
            [ (6%nat, "n/a"); (5%nat, "300"); (4%nat, "100"); (3%nat, "600");
              (2%nat, "900"); (1%nat, "5") ] "" _ _ _) _ _ _ fresh).
  - vm_compute. reflexivity.
  - repeat constructor; vm_compute; reflexivity.
  - vm_compute. reflexivity.
  - vm_compute. reflexivity.
Defined.
